(** * Recreate-strategy rollout of the deployment controller, and the
      OpenStack route deletion

    Shallow embedding of [pkg/controller/deployment/recreate.go]
    ([rolloutRecreate], [scaleDownOldReplicaSetsForRecreate],
    [scaleUpNewReplicaSetForRecreate]) and of [DeleteRoute] of the OpenStack
    cloud provider.

    The controller methods that [recreate.go] calls but that live in other
    files of the package (the resolver, the scaling executor, the status
    synchroniser, the cleanup enforcer, the active filter) are modelled from
    the specification; each such definition says so in its comment. *)

From Stdlib Require Import ZArith List String Bool Lia Permutation.
Import ListNotations.
Open Scope Z_scope.

(* ================================================================== *)
(** * Results of Go calls *)

(** The store errors of the specification's taxonomy. *)
Inductive Error : Type :=
| TransientStoreError
| ConflictError
| NotFoundError
| AlreadyExistsError.

(** A Go call returns normally ([Ok]), returns a non-nil [error] ([Err]), or
    panics at run time (nil dereference, slice bounds out of range). *)
Inductive Result (A : Type) : Type :=
| Ok (a : A)
| Err (e : Error)
| Panic.
Arguments Ok {A} a.
Arguments Err {A} e.
Arguments Panic {A}.

(* ================================================================== *)
(** * Data model *)

Module DeploymentController.

(** [extensions.ReplicaSet]: the fields the rollout reads or writes.
    [Spec_Replicas] is [rs.Spec.Replicas] (an [int32], the desired count),
    [Status_Replicas] the observed count. *)
Record ReplicaSet : Type := mkRS {
  Name : string;
  TemplateHash : string;
  CreationTimestamp : Z;
  Spec_Replicas : Z;
  Status_Replicas : Z;
  Status_AvailableReplicas : Z
}.

(** [extensions.Deployment]: read-only for the reconciler. *)
Record Deployment : Type := mkDeployment {
  d_Name : string;
  d_TemplateHash : string;
  d_Spec_Replicas : Z;
  d_Generation : Z;
  d_RevisionHistoryLimit : option Z
}.

Record DeploymentStatus : Type := mkStatus {
  st_Replicas : Z;
  st_UpdatedReplicas : Z;
  st_AvailableReplicas : Z;
  st_UnavailableReplicas : Z;
  st_ObservedGeneration : Z
}.

(** A [*extensions.ReplicaSet] is an [option ReplicaSet]: [None] is the nil
    pointer, [Some rs] points to the replica set as it was read at the
    resolution. The controller changes a replica set only through the
    store, which finds it by name. *)

Definition setReplicas (rs : ReplicaSet) (n : Z) : ReplicaSet :=
  mkRS (Name rs) (TemplateHash rs) (CreationTimestamp rs) n
       (Status_Replicas rs) (Status_AvailableReplicas rs).

(** Observability events of the scaling executor. *)
Inductive Event : Type :=
| Scaled (name : string) (fromCount toCount : Z).

(** Calls that leave [rolloutRecreate]: invocations of the resolver, the
    status synchroniser and the cleanup enforcer with their arguments, and
    the operations these and the scaling executor issue on the backing
    store. *)
Inductive Call : Type :=
| GetAllReplicaSets (createIfNotExisted : bool)
| StoreCreate (rs : ReplicaSet)
| StoreUpdate (name : string) (fromCount toCount : Z)
| UpdateDeploymentStatus (allRSs : list (option ReplicaSet)) (newRS : option ReplicaSet)
| SyncDeploymentStatus (allRSs : list (option ReplicaSet)) (newRS : option ReplicaSet)
| StoreWriteStatus (st : DeploymentStatus)
| CleanupDeployment (oldRSs : list (option ReplicaSet))
| StoreDelete (name : string).

(** The outcome a store operation is going to have: [None] succeeds. A
    script lists the outcomes of the coming operations of one kind; an
    exhausted script means success. *)
Definition Script : Type := list (option Error).

(** The cluster as the reconciler sees it: the stored replica sets owned
    by the Deployment, its persisted status, the recorded events, the
    store's clock, and what the coming store operations will answer. *)
Record World : Type := mkWorld {
  store : list ReplicaSet;
  status : option DeploymentStatus;
  events : list Event;
  clock : Z;
  listFaults : Script;
  createFaults : Script;
  updateFaults : Script;
  eventFaults : Script;
  statusFaults : Script;
  deleteFaults : Script
}.

Definition setStore (s : list ReplicaSet) (w : World) : World :=
  mkWorld s (status w) (events w) (clock w) (listFaults w) (createFaults w)
          (updateFaults w) (eventFaults w) (statusFaults w) (deleteFaults w).
Definition setStatus (s : option DeploymentStatus) (w : World) : World :=
  mkWorld (store w) s (events w) (clock w) (listFaults w) (createFaults w)
          (updateFaults w) (eventFaults w) (statusFaults w) (deleteFaults w).
Definition setEvents (e : list Event) (w : World) : World :=
  mkWorld (store w) (status w) e (clock w) (listFaults w) (createFaults w)
          (updateFaults w) (eventFaults w) (statusFaults w) (deleteFaults w).
Definition setClock (c : Z) (w : World) : World :=
  mkWorld (store w) (status w) (events w) c (listFaults w) (createFaults w)
          (updateFaults w) (eventFaults w) (statusFaults w) (deleteFaults w).
Definition setListFaults (f : Script) (w : World) : World :=
  mkWorld (store w) (status w) (events w) (clock w) f (createFaults w)
          (updateFaults w) (eventFaults w) (statusFaults w) (deleteFaults w).
Definition setCreateFaults (f : Script) (w : World) : World :=
  mkWorld (store w) (status w) (events w) (clock w) (listFaults w) f
          (updateFaults w) (eventFaults w) (statusFaults w) (deleteFaults w).
Definition setUpdateFaults (f : Script) (w : World) : World :=
  mkWorld (store w) (status w) (events w) (clock w) (listFaults w)
          (createFaults w) f (eventFaults w) (statusFaults w) (deleteFaults w).
Definition setEventFaults (f : Script) (w : World) : World :=
  mkWorld (store w) (status w) (events w) (clock w) (listFaults w)
          (createFaults w) (updateFaults w) f (statusFaults w) (deleteFaults w).
Definition setStatusFaults (f : Script) (w : World) : World :=
  mkWorld (store w) (status w) (events w) (clock w) (listFaults w)
          (createFaults w) (updateFaults w) (eventFaults w) f (deleteFaults w).
Definition setDeleteFaults (f : Script) (w : World) : World :=
  mkWorld (store w) (status w) (events w) (clock w) (listFaults w)
          (createFaults w) (updateFaults w) (eventFaults w) (statusFaults w) f.

(* ================================================================== *)
(** * The monad of controller code

    A computation runs in a world and yields the world it leaves, the calls
    it issued in order, and its result. The world is kept on an error: what
    was written before the failure stays written. *)

Record Run (A : Type) : Type := mkRun {
  world : World;
  calls : list Call;
  result : Result A
}.
Arguments mkRun {A} world calls result.
Arguments world {A} r.
Arguments calls {A} r.
Arguments result {A} r.

Definition M (A : Type) : Type := World -> Run A.

Definition ret {A} (a : A) : M A := fun w => mkRun w [] (Ok a).
Definition fail {A} (e : Error) : M A := fun w => mkRun w [] (Err e).
Definition panic {A} : M A := fun w => mkRun w [] Panic.

Definition bind {A B} (m : M A) (f : A -> M B) : M B :=
  fun w =>
    match m w with
    | mkRun w1 c1 (Ok a) =>
        match f a w1 with
        | mkRun w2 c2 r2 => mkRun w2 (c1 ++ c2) r2
        end
    | mkRun w1 c1 (Err e) => mkRun w1 c1 (Err e)
    | mkRun w1 c1 Panic => mkRun w1 c1 Panic
    end.

(** A Go call statement whose returned [error] is dropped:
    [dc.cleanupDeployment(oldRSs, deployment)]. A panic still unwinds. *)
Definition discard {A} (m : M A) : M unit :=
  fun w =>
    match m w with
    | mkRun w1 c1 Panic => mkRun w1 c1 Panic
    | mkRun w1 c1 _ => mkRun w1 c1 (Ok tt)
    end.

Definition call (c : Call) : M unit := fun w => mkRun w [c] (Ok tt).
Definition get : M World := fun w => mkRun w [] (Ok w).
Definition modify (f : World -> World) : M unit := fun w => mkRun (f w) [] (Ok tt).

Declare Scope ctl_scope.
Delimit Scope ctl_scope with ctl.
Notation "x <- m ;; k" := (bind m (fun x => k))
  (at level 100, m at next level, right associativity) : ctl_scope.
Notation "' p <- m ;; k" := (bind m (fun x => match x with p => k end))
  (at level 100, p pattern, m at next level, right associativity) : ctl_scope.
Notation "m ;; k" := (bind m (fun _ => k))
  (at level 100, right associativity) : ctl_scope.
Open Scope ctl_scope.

(** Takes the outcome of the next operation from a script. *)
Definition nextOutcome (s : Script) : option Error * Script :=
  match s with
  | [] => (None, [])
  | o :: s' => (o, s')
  end.

(** Consumes one outcome of the script that [proj] reads and [upd] writes,
    and fails with it when it is an error. *)
Definition consult (proj : World -> Script) (upd : Script -> World -> World)
  : M unit :=
  w <- get ;;
  let (o, s) := nextOutcome (proj w) in
  modify (upd s) ;;
  match o with
  | Some e => fail e
  | None => ret tt
  end.


(* ================================================================== *)
(** * Backing store operations

    The store and the event sink are external collaborators; their
    operations follow section 6 of the specification. *)

Definition hasName (name : string) (rs : ReplicaSet) : bool :=
  String.eqb (Name rs) name.

(** Modelled from the spec: [list(ownerRef)] of section 6, the stored
    replica sets or a store error. *)
Definition storeList : M (list ReplicaSet) :=
  consult listFaults setListFaults ;;
  w <- get ;;
  ret (store w).

(** Modelled from the spec: [create(object)] of section 6. It fails with
    [AlreadyExistsError] on a taken name; the store stamps the object with
    its clock. *)
Definition storeCreate (rs : ReplicaSet) : M ReplicaSet :=
  call (StoreCreate rs) ;;
  consult createFaults setCreateFaults ;;
  w <- get ;;
  if existsb (hasName (Name rs)) (store w) then fail AlreadyExistsError
  else
    let created := mkRS (Name rs) (TemplateHash rs) (clock w) (Spec_Replicas rs)
                        (Status_Replicas rs) (Status_AvailableReplicas rs) in
    modify (fun w => setClock (clock w + 1) (setStore (store w ++ [created]) w)) ;;
    ret created.

(** Modelled from the spec: [conditionalUpdate] of section 6, on the
    desired count of the replica set called as [rs]. A conflict or store
    error leaves the store as it is. *)
Definition storeUpdateReplicas (rs : ReplicaSet) (n : Z) : M ReplicaSet :=
  call (StoreUpdate (Name rs) (Spec_Replicas rs) n) ;;
  consult updateFaults setUpdateFaults ;;
  w <- get ;;
  if existsb (hasName (Name rs)) (store w) then
    modify (setStore (map (fun x => if hasName (Name rs) x then setReplicas x n else x)
                          (store w))) ;;
    ret (setReplicas rs n)
  else fail NotFoundError.

(** Modelled from the spec: [delete(object)] of section 6. *)
Definition storeDelete (name : string) : M unit :=
  call (StoreDelete name) ;;
  consult deleteFaults setDeleteFaults ;;
  modify (fun w => setStore (filter (fun x => negb (hasName name x)) (store w)) w).

(** Modelled from the spec: the write of the Deployment's status
    subresource (sections 3 and 4.4). *)
Definition storeWriteStatus (st : DeploymentStatus) : M unit :=
  call (StoreWriteStatus st) ;;
  consult statusFaults setStatusFaults ;;
  modify (setStatus (Some st)).

(** Modelled from the spec: the event sink of section 4.2 is best effort,
    an event that cannot be recorded is dropped and nothing fails. *)
Definition recordEvent (e : Event) : M unit :=
  discard (consult eventFaults setEventFaults ;;
           modify (fun w => setEvents (events w ++ [e]) w)).

(* ================================================================== *)
(** * Generation resolver *)

Definition matchesTemplate (d : Deployment) (rs : ReplicaSet) : bool :=
  String.eqb (TemplateHash rs) (d_TemplateHash d).

(** Modelled from the spec: the generation classification of section 3,
    whose code ([getAllReplicaSetsAndSyncRevision] and what it calls) is in
    another file of the package. The replica set whose template hash
    matches the Deployment's template is the new one (the first such in the
    store, so that there is at most one); all others are old. *)
Fixpoint splitNew (d : Deployment) (rss : list ReplicaSet)
  : option ReplicaSet * list ReplicaSet :=
  match rss with
  | [] => (None, [])
  | rs :: rest =>
      if matchesTemplate d rs then (Some rs, rest)
      else let (n, o) := splitNew d rest in (n, rs :: o)
  end.

(** Modelled from the spec: insertion into a list ordered by creation time
    descending. *)
Fixpoint insertByCreation (rs : ReplicaSet) (l : list ReplicaSet) : list ReplicaSet :=
  match l with
  | [] => [rs]
  | x :: l' =>
      if CreationTimestamp x <=? CreationTimestamp rs then rs :: l
      else x :: insertByCreation rs l'
  end.

(** Modelled from the spec: old replica sets are ordered by creation time
    descending, most recent first (section 4.1). *)
Fixpoint sortByCreationDesc (l : list ReplicaSet) : list ReplicaSet :=
  match l with
  | [] => []
  | x :: l' => insertByCreation x (sortByCreationDesc l')
  end.

(** Modelled from the spec: the new and the old replica sets of a store. *)
Definition classify (d : Deployment) (rss : list ReplicaSet)
  : option ReplicaSet * list (option ReplicaSet) :=
  let (n, o) := splitNew d rss in (n, map Some (sortByCreationDesc o)).

(** Modelled from the spec: the replica set the resolver creates for the
    current template, with desired replicas 0 initially (section 4.1). *)
Definition newReplicaSet (d : Deployment) : ReplicaSet :=
  mkRS (d_Name d ++ "-" ++ d_TemplateHash d)%string (d_TemplateHash d) 0 0 0 0.

(** Modelled from the spec: [getAllReplicaSetsAndSyncRevision] is defined in
    another file of the package. Section 4.1: returns the new replica set
    or nil and the ordered old ones; when creation is requested and none
    matches the current template, creates one and returns it. A store
    failure fails the call. *)
Definition getAllReplicaSetsAndSyncRevision (d : Deployment)
    (createIfNotExisted : bool) : M (option ReplicaSet * list (option ReplicaSet)) :=
  call (GetAllReplicaSets createIfNotExisted) ;;
  rss <- storeList ;;
  let (newRS, oldRSs) := classify d rss in
  match newRS with
  | Some _ => ret (newRS, oldRSs)
  | None =>
      if createIfNotExisted then
        created <- storeCreate (newReplicaSet d) ;;
        ret (Some created, oldRSs)
      else ret (None, oldRSs)
  end.

(** Modelled from the spec: a replica set is active when its desired or
    observed replicas are above zero (section 4.3, step 2); nil is not. *)
Definition isActive (rs : option ReplicaSet) : bool :=
  match rs with
  | Some r => (0 <? Spec_Replicas r) || (0 <? Status_Replicas r)
  | None => false
  end.

(** Modelled from the spec: [controller.FilterActiveReplicaSets] is defined
    in another package. Section 4.3, step 2: the replica sets still
    active. *)
Definition FilterActiveReplicaSets (replicaSets : list (option ReplicaSet))
  : list (option ReplicaSet) :=
  filter isActive replicaSets.

(* ================================================================== *)
(** * Scaling executor *)

(** Modelled from the spec: [scaleReplicaSetAndRecordEvent] is defined in
    another file of the package. Section 4.2: a no-op returning
    [didScale = false] when the desired count already equals the target;
    otherwise one conditional update of the desired count, whose failure is
    surfaced unmodified, and a best-effort event. Reading the desired count
    through a nil pointer panics. *)
Definition scaleReplicaSetAndRecordEvent (rs : option ReplicaSet) (newScale : Z)
    (deployment : Deployment) : M (bool * option ReplicaSet) :=
  match rs with
  | None => panic
  | Some r =>
      if Spec_Replicas r =? newScale then ret (false, rs)
      else
        updated <- storeUpdateReplicas r newScale ;;
        recordEvent (Scaled (Name r) (Spec_Replicas r) newScale) ;;
        ret (true, Some updated)
  end.

(* ================================================================== *)
(** * Status synchroniser *)

(** Modelled from the spec: the sum of a count over the replica sets that
    are not nil. *)
Definition sumOver (f : ReplicaSet -> Z) (rss : list (option ReplicaSet)) : Z :=
  fold_right (fun rs acc => match rs with Some r => f r + acc | None => acc end)
             0 rss.

(** Modelled from the spec: the status is a pure aggregation over the
    observed counts of the replica sets handed in (sections 3 and 4.4); nil
    entries count for nothing. *)
Definition calculateStatus (allRSs : list (option ReplicaSet)) (newRS : option ReplicaSet)
    (d : Deployment) : DeploymentStatus :=
  let replicas := sumOver Status_Replicas allRSs in
  let available := sumOver Status_AvailableReplicas allRSs in
  mkStatus replicas
           (sumOver Status_Replicas [newRS])
           available
           (replicas - available)
           (d_Generation d).

(** Modelled from the spec: [updateDeploymentStatus] is defined in another
    file of the package. Section 4.4: computes the status and persists it;
    a failure to persist is surfaced. *)
Definition updateDeploymentStatus (allRSs : list (option ReplicaSet))
    (newRS : option ReplicaSet)
    (d : Deployment) : M unit :=
  call (UpdateDeploymentStatus allRSs newRS) ;;
  storeWriteStatus (calculateStatus allRSs newRS d).

(** Modelled from the spec: [syncDeploymentStatus] is defined in another
    file of the package; the specification gives the status synchroniser
    the one contract of section 4.4. *)
Definition syncDeploymentStatus (allRSs : list (option ReplicaSet))
    (newRS : option ReplicaSet)
    (d : Deployment) : M unit :=
  call (SyncDeploymentStatus allRSs newRS) ;;
  storeWriteStatus (calculateStatus allRSs newRS d).

(* ================================================================== *)
(** * Cleanup policy enforcer *)

(** Modelled from the spec: zero desired and zero observed replicas
    (section 4.5). *)
Definition hasNoReplicas (rs : option ReplicaSet) : bool :=
  match rs with
  | Some r => (Spec_Replicas r =? 0) && (Status_Replicas r =? 0)
  | None => false
  end.

(** Modelled from the spec: deletes one after the other; the first
    failing delete ends the batch (section 7). *)
Fixpoint deleteAll (rss : list (option ReplicaSet)) : M unit :=
  match rss with
  | [] => ret tt
  | Some r :: rest => storeDelete (Name r) ;; deleteAll rest
  | None :: rest => deleteAll rest
  end.

(** Modelled from the spec: [cleanupDeployment] is defined in another file
    of the package. Section 4.5: of the old replica sets beyond the
    retention limit, the oldest ones, those with zero desired and zero
    observed replicas are deleted; without a limit nothing is. The first
    failing delete ends the batch (section 7). The old replica sets come
    most recent first. *)
Definition cleanupDeployment (oldRSs : list (option ReplicaSet)) (d : Deployment)
  : M unit :=
  call (CleanupDeployment oldRSs) ;;
  match d_RevisionHistoryLimit d with
  | None => ret tt
  | Some limit =>
      let excess := Z.of_nat (List.length oldRSs) - limit in
      let oldest := firstn (Z.to_nat excess) (rev oldRSs) in
      deleteAll (filter hasNoReplicas oldest)
  end.

(* ================================================================== *)
(** * recreate.go *)

(** [scaleDownOldReplicaSetsForRecreate]: the loop body over [oldRSs],
    with the local [scaled] as accumulator. [rs.Spec.Replicas] on a nil
    [rs] panics. On an error Go returns [false, err]; the caller reads only
    [err]. *)
Fixpoint scaleDownLoop (oldRSs : list (option ReplicaSet)) (deployment : Deployment)
    (scaled : bool) : M bool :=
  match oldRSs with
  | [] => ret scaled
  | rs :: rest =>
      match rs with
      | None => panic
      | Some r =>
          if Spec_Replicas r =? 0 then scaleDownLoop rest deployment scaled
          else
            '(scaledRS, _) <- scaleReplicaSetAndRecordEvent rs 0 deployment ;;
            scaleDownLoop rest deployment (if scaledRS then true else scaled)
      end
  end.

Definition scaleDownOldReplicaSetsForRecreate (oldRSs : list (option ReplicaSet))
    (deployment : Deployment) : M bool :=
  scaleDownLoop oldRSs deployment false.

Definition scaleUpNewReplicaSetForRecreate (newRS : option ReplicaSet)
    (deployment : Deployment) : M bool :=
  '(scaled, _) <- scaleReplicaSetAndRecordEvent
                    newRS (d_Spec_Replicas deployment) deployment ;;
  ret scaled.

(** [rolloutRecreate]. The [if newRS == nil] block reassigns [newRS],
    [oldRSs] and [allRSs]; their values after it are bound anew. *)
Definition rolloutRecreate (deployment : Deployment) : M unit :=
  '(newRS, oldRSs) <- getAllReplicaSetsAndSyncRevision deployment false ;;
  let allRSs := oldRSs ++ [newRS] in
  scaledDown <- scaleDownOldReplicaSetsForRecreate
                  (FilterActiveReplicaSets oldRSs) deployment ;;
  if scaledDown : bool then updateDeploymentStatus allRSs newRS deployment
  else
    '(newRS, oldRSs, allRSs) <-
       match newRS with
       | None =>
           '(newRS', oldRSs') <- getAllReplicaSetsAndSyncRevision deployment true ;;
           ret (newRS', oldRSs', oldRSs' ++ [newRS'])
       | Some _ => ret (newRS, oldRSs, allRSs)
       end ;;
    scaledUp <- scaleUpNewReplicaSetForRecreate newRS deployment ;;
    if scaledUp : bool then updateDeploymentStatus allRSs newRS deployment
    else
      discard (cleanupDeployment oldRSs deployment) ;;
      syncDeploymentStatus allRSs newRS deployment.

(** Names for two parts of [rolloutRecreate], for the proofs. *)

(** Lines 45-51: the second resolution, with creation, when [newRS] is nil.
    Yields the values of [newRS], [oldRSs] and [allRSs] after the [if]. *)
Definition ensureNewReplicaSet (deployment : Deployment) (newRS : option ReplicaSet)
    (oldRSs allRSs : list (option ReplicaSet))
  : M (option ReplicaSet * list (option ReplicaSet) * list (option ReplicaSet)) :=
  match newRS with
  | None =>
      '(newRS', oldRSs') <- getAllReplicaSetsAndSyncRevision deployment true ;;
      ret (newRS', oldRSs', oldRSs' ++ [newRS'])
  | Some _ => ret (newRS, oldRSs, allRSs)
  end.

(** Lines 53-66: scale-up of the new replica set, then status or cleanup. *)
Definition scaleUpPhase (deployment : Deployment) (newRS : option ReplicaSet)
    (oldRSs allRSs : list (option ReplicaSet)) : M unit :=
  scaledUp <- scaleUpNewReplicaSetForRecreate newRS deployment ;;
  if scaledUp : bool then updateDeploymentStatus allRSs newRS deployment
  else
    discard (cleanupDeployment oldRSs deployment) ;;
    syncDeploymentStatus allRSs newRS deployment.

(** Runs [m] [n] times in a row and collects what each run issued and
    returned: the passes the dispatcher triggers one after the other. *)
Fixpoint repeatM {A} (n : nat) (m : M A) (w : World)
  : World * list (list Call * Result A) :=
  match n with
  | O => (w, [])
  | S n' =>
      let r := m w in
      let (w', rest) := repeatM n' m (world r) in
      (w', (calls r, result r) :: rest)
  end.

(* ================================================================== *)
(** * Observations on calls and stores *)

Definition isStoreUpdate (c : Call) : bool :=
  match c with StoreUpdate _ _ _ => true | _ => false end.
Definition isStoreCreate (c : Call) : bool :=
  match c with StoreCreate _ => true | _ => false end.
Definition isCleanup (c : Call) : bool :=
  match c with CleanupDeployment _ => true | _ => false end.
Definition isSyncStatus (c : Call) : bool :=
  match c with SyncDeploymentStatus _ _ => true | _ => false end.
Definition isStatusCall (c : Call) : bool :=
  match c with
  | UpdateDeploymentStatus _ _ | SyncDeploymentStatus _ _ | StoreWriteStatus _ => true
  | _ => false
  end.
Definition isResolveWithCreate (c : Call) : bool :=
  match c with GetAllReplicaSets true => true | _ => false end.

(** The status values a run tried to persist, in order. *)
Fixpoint statusOutputs (cs : list Call) : list DeploymentStatus :=
  match cs with
  | [] => []
  | StoreWriteStatus st :: cs' => st :: statusOutputs cs'
  | _ :: cs' => statusOutputs cs'
  end.

Definition desiredAboveZero (rs : option ReplicaSet) : bool :=
  match rs with Some r => 0 <? Spec_Replicas r | None => false end.

(** The no-overlap property of a store: not both an old replica set and
    the new replica set with desired replicas above zero. *)
Definition noOverlap (d : Deployment) (rss : list ReplicaSet) : bool :=
  let (newRS, oldRSs) := classify d rss in
  negb (desiredAboveZero newRS && existsb desiredAboveZero oldRSs).

(** Names are the keys of the backing store. *)
Definition uniqueNames (rss : list ReplicaSet) : Prop :=
  NoDup (map Name rss).

(** Available replicas are some of the observed replicas. *)
Definition countsConsistent (rss : list ReplicaSet) : Prop :=
  Forall (fun r => 0 <= Status_AvailableReplicas r <= Status_Replicas r) rss.

(** A replica set pointer that is not nil and has zero desired replicas. *)
Definition atZero (p : option ReplicaSet) : Prop :=
  exists r, p = Some r /\ Spec_Replicas r = 0.

(** A stable state: the new replica set exists with the Deployment's
    desired count and every old replica set has zero desired replicas. *)
Definition stable (d : Deployment) (rss : list ReplicaSet) : Prop :=
  exists newRS,
    fst (classify d rss) = Some newRS /\
    Spec_Replicas newRS = d_Spec_Replicas d /\
    Forall atZero (snd (classify d rss)).

(** The replica set as the store keeps it after [storeCreate]. *)
Definition stamped (rs : ReplicaSet) (w : World) : ReplicaSet :=
  mkRS (Name rs) (TemplateHash rs) (clock w) (Spec_Replicas rs)
       (Status_Replicas rs) (Status_AvailableReplicas rs).

(** The store after the desired count of the replica sets called [name]
    is set to [n]. *)
Definition withReplicas (name : string) (n : Z) (rss : list ReplicaSet)
  : list ReplicaSet :=
  map (fun x => if hasName name x then setReplicas x n else x) rss.

(** The world fields that only the status synchroniser touches. *)
Definition sameStatus (w w' : World) : Prop :=
  status w' = status w /\ statusFaults w' = statusFaults w.

(** Store [s'] is store [s] with the desired count of some of its replica
    sets set to zero. *)
Definition lowered (s s' : list ReplicaSet) : Prop :=
  Forall2 (fun r r' => r' = r \/ r' = setReplicas r 0) s s'.

Definition isScaleToZero (c : Call) : Prop :=
  exists name fromCount, c = StoreUpdate name fromCount 0.

(** The store without the replica sets called by one of [names]. *)
Definition removeNames (names : list string) (rss : list ReplicaSet)
  : list ReplicaSet :=
  filter (fun x => negb (existsb (fun n => hasName n x) names)) rss.

Definition isStoreDelete (c : Call) : Prop := exists name, c = StoreDelete name.

(** A replica set that the cleanup may delete: one of the old ones handed
    in, with zero desired and zero observed replicas. *)
Definition deletable (oldRSs : list (option ReplicaSet)) (name : string) : Prop :=
  exists r, In (Some r) oldRSs /\ Name r = name
            /\ Spec_Replicas r = 0 /\ Status_Replicas r = 0.

(** Lines 43-66 of [rolloutRecreate]: what follows a scale-down phase
    that reported no change. *)
Definition afterScaleDown (d : Deployment) (newRS : option ReplicaSet)
    (oldRSs : list (option ReplicaSet))
  : M unit :=
  '(newRS', oldRSs', allRSs') <-
     ensureNewReplicaSet d newRS oldRSs (oldRSs ++ [newRS]) ;;
  scaleUpPhase d newRS' oldRSs' allRSs'.

(** What the one status write of a pass returns in world [w]. *)
Definition statusOutcome (w : World) : Result unit :=
  match fst (nextOutcome (statusFaults w)) with
  | Some e => Err e
  | None => Ok tt
  end.

(** Every old replica set of the store has no desired replica. *)
Definition oldsDown (d : Deployment) (s : list ReplicaSet) : Prop :=
  Forall (fun r => Spec_Replicas r <= 0) (snd (splitNew d s)).

(* ================================================================== *)
(** * Kinds of passes and frames *)

(** A pass that aborted on an error before any cleanup or status call. *)
Definition aborted (r : Run unit) : Prop :=
  existsb isCleanup (calls r) = false
  /\ existsb isStatusCall (calls r) = false
  /\ exists e, result r = Err e.

(** A pass that scaled and ended with the status update. *)
Definition progressed (w : World) (r : Run unit) : Prop :=
  existsb isCleanup (calls r) = false
  /\ existsb isStoreUpdate (calls r) = true
  /\ existsb isSyncStatus (calls r) = false
  /\ existsb isStatusCall (calls r) = true
  /\ result r = statusOutcome w.

(** A pass that scaled nothing, cleaned up and ended with the status
    sync. *)
Definition steady (d : Deployment) (w : World) (r : Run unit) : Prop :=
  existsb isCleanup (calls r) = true
  /\ existsb isStoreUpdate (calls r) = false
  /\ result r = statusOutcome w
  /\ exists pre allRSs newRS,
       calls r = pre ++ [SyncDeploymentStatus allRSs newRS;
                         StoreWriteStatus (calculateStatus allRSs newRS d)]
       /\ existsb isStatusCall pre = false.

(** A run in the world whose coming delete outcomes are [fs]. *)
Definition withDeletes {A} (fs : Script) (r : Run A) : Run A :=
  mkRun (setDeleteFaults fs (world r)) (calls r) (result r).

(** [m] neither reads nor writes the delete outcomes. *)
Definition ignoresDeletes {A} (m : M A) : Prop :=
  forall fs w, m (setDeleteFaults fs w) = withDeletes fs (m w).

(** The result of [m] does not depend on the delete outcomes. *)
Definition resultIgnoresDeletes {A} (m : M A) : Prop :=
  forall fs w, result (m (setDeleteFaults fs w)) = result (m w).

(** The status a pass computes from a store: that of its classified
    replica sets, the old ones followed by the new one. *)
Definition statusOfStore (d : Deployment) (s : list ReplicaSet) : DeploymentStatus :=
  calculateStatus (snd (classify d s) ++ [fst (classify d s)]) (fst (classify d s)) d.

Definition total (f : ReplicaSet -> Z) (l : list ReplicaSet) : Z :=
  fold_right (fun r acc => f r + acc) 0 l.

(** What a pass over a stable store may show: no scaling call, and either
    the status [st] put out or an error and no status. *)
Definition quietPass (st : DeploymentStatus) (p : list Call * Result unit) : Prop :=
  existsb isStoreUpdate (fst p) = false
  /\ (statusOutputs (fst p) = [st]
      \/ (statusOutputs (fst p) = [] /\ exists e, snd p = Err e)).

(* ================================================================== *)
(** * Example clusters *)

(** A Deployment of three replicas whose template is at [v3]. *)
Definition web : Deployment := mkDeployment "web" "v3" 3 1 (Some 1).

Definition webV3 : ReplicaSet := mkRS "web-v3" "v3" 30 3 3 3.
Definition webV2 : ReplicaSet := mkRS "web-v2" "v2" 20 3 3 3.
Definition webV1 : ReplicaSet := mkRS "web-v1" "v1" 10 2 2 2.
Definition webV0 : ReplicaSet := mkRS "web-v0" "v0" 5 1 1 1.

(** A cluster whose store never fails. *)
Definition quiet (rss : list ReplicaSet) : World :=
  mkWorld rss None [] 100 [] [] [] [] [] [].

(** Three old generations still running, no new one. *)
Definition threeOld : World := quiet [webV2; webV1; webV0].

(** The same with the second conditional update hitting a conflict. *)
Definition secondScaleFails : World :=
  setUpdateFaults [None; Some ConflictError] threeOld.

(** One old generation running and a status write that will fail. *)
Definition statusWriteFails : World :=
  setStatusFaults [Some TransientStoreError] (quiet [webV2]).

(** An old and the new generation both running, and the first conditional
    update hitting a conflict. *)
Definition overlapping : World :=
  setUpdateFaults [Some ConflictError] (quiet [webV2; webV3]).

Definition webV2Down : ReplicaSet := mkRS "web-v2" "v2" 20 0 0 0.
Definition webV1Down : ReplicaSet := mkRS "web-v1" "v1" 10 0 0 0.

(** The rollout of [web] is over: the new generation runs, two old ones
    are down, one more than the history limit keeps. *)
Definition settled : World := quiet [webV2Down; webV1Down; webV3].

(** The same with a delete that will fail. *)
Definition settledDeleteFails : World :=
  setDeleteFaults [Some TransientStoreError] settled.

(** The old generations are down and there is no new one yet. *)
Definition downNoNew : World := quiet [webV2Down; webV1Down].


(** A Deployment of five replicas at template [v2] without history limit,
    its old replica set with 5 desired and 5 observed replicas, and no new
    replica set. *)
Definition api : Deployment := mkDeployment "api" "v2" 5 1 None.
Definition apiV1 : ReplicaSet := mkRS "api-v1" "v1" 10 5 5 5.
Definition apiStart : World := quiet [apiV1].

(** The new replica set of [api] as the second pass leaves it. *)
Definition apiV2 : ReplicaSet := mkRS "api-v2" "v2" 100 5 0 0.

(** The calls of a run that change the stored replica sets. *)
Definition mutatingCalls (cs : list Call) : list Call :=
  filter (fun c => match c with
                   | StoreCreate _ | StoreUpdate _ _ _ | StoreDelete _ => true
                   | _ => false
                   end) cs.

End DeploymentController.

(* ================================================================== *)
(** * OpenStack routes *)

Module OpenStack.

(** [routers.Route] of the networking API. *)
Record Route : Type := mkRoute {
  DestinationCIDR : string;
  NextHop : string
}.

(** [routers.Router]: its identifier and static routes. *)
Record Router : Type := mkRouter {
  ID : string;
  Routes : list Route
}.

(** [cloudprovider.Route]. *)
Record CloudRoute : Type := mkCloudRoute {
  cr_Name : string;
  cr_TargetInstance : string;
  cr_DestinationCIDR : string
}.

(** The networking service: the router of [os.routeOpts.RouterId] and what
    the next [routers.Get] and [routers.Update] answer. *)
Record Network : Type := mkNetwork {
  router : Router;
  getFault : option Error;
  updateFault : option Error
}.

(** The Go slice expression [s[:high]]: panics unless [0 <= high <= len(s)]
    (the route list comes out of the decoder with no spare capacity). *)
Definition sliceTo {A} (s : list A) (high : Z) : Result (list A) :=
  if (high <? 0) || (Z.of_nat (List.length s) <? high) then Panic
  else Ok (firstn (Z.to_nat high) s).

(** The Go slice expression [s[low:]]: panics unless [0 <= low <= len(s)]. *)
Definition sliceFrom {A} (s : list A) (low : Z) : Result (list A) :=
  if (low <? 0) || (Z.of_nat (List.length s) <? low) then Panic
  else Ok (skipn (Z.to_nat low) s).

(** Lines 127-133: [index] keeps its initial value unless an entry with the
    destination is met, at which the loop breaks; [i] is the position of
    the head of [routes]. *)
Fixpoint searchRoute (routes : list Route) (cidr : string) (i index : Z) : Z :=
  match routes with
  | [] => index
  | r :: rest =>
      if String.eqb (DestinationCIDR r) cidr then i
      else searchRoute rest cidr (i + 1) index
  end.

Definition routersGet (net : Network) : Result Router :=
  match getFault net with
  | Some e => Err e
  | None => Ok (router net)
  end.

Definition routersUpdate (net : Network) (routes : list Route)
  : Network * Result unit :=
  match updateFault net with
  | Some e => (net, Err e)
  | None => (mkNetwork (mkRouter (ID (router net)) routes) (getFault net) None, Ok tt)
  end.

(** [DeleteRoute]. The operands of [append] are evaluated left to right. *)
Definition DeleteRoute (clusterName : string) (route : CloudRoute)
    (net : Network) : Network * Result unit :=
  match routersGet net with
  | Err e => (net, Err e)
  | Panic => (net, Panic)
  | Ok router =>
      let index := searchRoute (Routes router) (cr_DestinationCIDR route) 0 (-1) in
      match sliceTo (Routes router) index with
      | Ok front =>
          match sliceFrom (Routes router) (index + 1) with
          | Ok back => routersUpdate net (front ++ back)
          | Err e => (net, Err e)
          | Panic => (net, Panic)
          end
      | Err e => (net, Err e)
      | Panic => (net, Panic)
      end
  end.

(** A router with one route, and with two. *)
Definition oneRoute : Network :=
  mkNetwork (mkRouter "r1" [mkRoute "10.0.1.0/24" "192.168.0.5"]) None None.
Definition twoRoutes : Network :=
  mkNetwork (mkRouter "r1" [mkRoute "10.0.1.0/24" "192.168.0.5";
                            mkRoute "10.164.2.0/24" "192.168.0.6"]) None None.

(** The route of the provider's test. *)
Definition testRoute : CloudRoute := mkCloudRoute "" "node-1" "10.164.2.0/24".

End OpenStack.

(* ================================================================== *)
(** * The OpenStack provider: instance identifiers, server metadata,
      allowed address pairs and routes

    [getInstanceIDFromProviderID], [createKubernetesMetaData],
    [getKubernetesMetaData], [getServerFromMetadata] and
    [setAllowedAddressPair] of the provider's utilities, [ListRoutes] and
    [CreateRoute] of its routes, over the compute and networking services
    as the provider sees them through the client library. *)

Module OpenStackCloud.

Import Ascii.

(** ** Outcomes of provider calls *)

(** The errors a provider call returns: the error of a service call, passed
    on as it is, or one of the provider's own. *)
Inductive CloudError : Type :=
| ServiceError (e : Error)
| ErrNotFound
| ErrMultipleResults
| ErrRouteWithoutID
| ErrNoKubernetesName (serverID : string).

Inductive Outcome (A : Type) : Type :=
| Done (a : A)
| Failed (e : CloudError)
| Crashed.
Arguments Done {A} a.
Arguments Failed {A} e.
Arguments Crashed {A}.

Definition ofResult {A} (r : Result A) : Outcome A :=
  match r with
  | Ok a => Done a
  | Err e => Failed (ServiceError e)
  | Panic => Crashed
  end.

(** ** Strings and maps of Go *)

(** [strings.LastIndex(s, sep)] for a separator of one byte: the index of
    its last occurrence in [s], or -1; [i] is the index of the head of [s]
    and [found] the last occurrence met so far. *)
Fixpoint lastIndexFrom (s : string) (sep : Ascii.ascii) (i found : Z) : Z :=
  match s with
  | EmptyString => found
  | String a rest =>
      lastIndexFrom rest sep (i + 1) (if Ascii.eqb a sep then i else found)
  end.

Definition LastIndex (s : string) (sep : Ascii.ascii) : Z :=
  lastIndexFrom s sep 0 (-1).

Fixpoint dropBytes (n : nat) (s : string) : string :=
  match n, s with
  | O, _ => s
  | S n', String _ rest => dropBytes n' rest
  | S _, EmptyString => EmptyString
  end.

(** The Go expression [s[low:]] on a string: panics unless
    [0 <= low <= len(s)]. *)
Definition stringFrom (s : string) (low : Z) : Result string :=
  if (low <? 0) || (Z.of_nat (String.length s) <? low) then Panic
  else Ok (dropBytes (Z.to_nat low) s).

(** A Go map with string keys, as the list of its entries; [m[k]] is the
    value of the first entry with the key. *)
Fixpoint lookup {V} (k : string) (m : list (string * V)) : option V :=
  match m with
  | [] => None
  | (k', v) :: rest => if String.eqb k' k then Some v else lookup k rest
  end.

(** [m[k] = v]. *)
Fixpoint setKey {V} (k : string) (v : V) (m : list (string * V))
  : list (string * V) :=
  match m with
  | [] => [(k, v)]
  | (k', v') :: rest =>
      if String.eqb k' k then (k, v) :: rest else (k', v') :: setKey k v rest
  end.

(** A value of type [interface{}] out of the JSON decoder: a string, a
    slice, a map with string keys, or something else (nil, a number, a
    boolean). *)
#[local] Unset Elimination Schemes.
Inductive Value : Type :=
| VString (s : string)
| VList (l : list Value)
| VMap (m : list (string * Value))
| VOther.
#[local] Set Elimination Schemes.

(** ** util.go: instance identifiers *)

(** [getInstanceIDFromProviderID]. *)
Definition getInstanceIDFromProviderID (providerID : string) : Result string :=
  let ind := LastIndex providerID "/"%char in
  if ind >=? 0 then stringFrom providerID (ind + 1) else Ok providerID.

(** The string holds the byte [/]. *)
Fixpoint hasSlash (s : string) : bool :=
  match s with
  | EmptyString => false
  | String a rest => Ascii.eqb a "/" || hasSlash rest
  end.

(** ** The services *)

(** A page of a listing: the request for it or its decoding failed, or it
    holds items. *)
Inductive Page (X : Type) : Type :=
| PageError (e : Error)
| PageOf (items : list X).
Arguments PageError {X} e.
Arguments PageOf {X} items.

(** [pager.EachPage(handler)] of the client library: the pages are fetched
    in turn; a page that cannot be fetched or decoded ends the walk with
    its error, an empty page ends it; the handler is called on the other
    pages, and the walk goes on while it answers [true]. The library has
    decoded the page to see whether it is empty before it calls the
    handler, so the extraction that the handler does itself succeeds. The
    handler is a closure: [S] is the type of the variables it captures. *)
Fixpoint EachPage {X S} (pages : list (Page X))
    (handler : list X -> S -> S * Outcome bool) (s : S) : S * Outcome unit :=
  match pages with
  | [] => (s, Done tt)
  | PageError e :: _ => (s, Failed (ServiceError e))
  | PageOf [] :: _ => (s, Done tt)
  | PageOf items :: rest =>
      match handler items s with
      | (s', Done true) => EachPage rest handler s'
      | (s', Done false) => (s', Done tt)
      | (s', Failed e) => (s', Failed e)
      | (s', Crashed) => (s', Crashed)
      end
  end.

(** A listing of [l] cut into pages of at most [size] items; with [size]
    zero the service puts everything on one page. *)
Fixpoint paginate {X} (fuel size : nat) (l : list X) : list (list X) :=
  match fuel with
  | O => []
  | S fuel' =>
      match l with
      | [] => []
      | _ :: _ =>
          match size with
          | O => [l]
          | S _ => firstn size l :: paginate fuel' size (skipn size l)
          end
      end
  end.

(** The pages of a listing: the first page is there also when nothing is
    listed, and is empty then. *)
Definition pagesOf {X} (size : nat) (l : list X) : list (list X) :=
  match l with
  | [] => [[]]
  | _ :: _ => paginate (List.length l) size l
  end.

(** The pages as the client gets them: the request for page [i] may fail. *)
Fixpoint fetched {X} (fault : nat -> option Error) (i : nat)
    (chunks : list (list X)) : list (Page X) :=
  match chunks with
  | [] => []
  | c :: rest =>
      match fault i with
      | Some e => PageError e
      | None => PageOf c
      end :: fetched fault (S i) rest
  end.

(** What a walk over the pages hands to a handler that always answers
    [true], and the error that ends the walk, if any. *)
Fixpoint delivered {X} (pages : list (Page X)) : list X * option Error :=
  match pages with
  | [] => ([], None)
  | PageError e :: _ => ([], Some e)
  | PageOf [] :: _ => ([], None)
  | PageOf items :: rest => (items ++ fst (delivered rest), snd (delivered rest))
  end.

(** [servers.Server], with the metadata that the compute service keeps for
    it. [Addresses] lists the entries of the Go map in the order in which
    one [range] loop visits them. Go fixes no order: another loop over the
    same map may visit the entries in another order, and is a loop over
    another value of [Server], with the entries permuted. *)
Record Server : Type := mkServer {
  server_ID : string;
  server_Name : string;
  server_Status : string;
  server_Addresses : list (string * Value);
  server_Metadata : list (string * string)
}.

Inductive ComputeCall : Type :=
| ServersGet (id : string)
| ServersMetadata (id : string)
| ServersUpdateMetadata (id : string)
| ServersList (page : nat).

(** The compute service: its servers, the size of the pages of its
    listings, and the calls it answers with an error. *)
Record Compute : Type := mkCompute {
  servers : list Server;
  serversPerPage : nat;
  computeFault : ComputeCall -> option Error
}.

Fixpoint findServer (id : string) (l : list Server) : option Server :=
  match l with
  | [] => None
  | s :: rest => if String.eqb (server_ID s) id then Some s else findServer id rest
  end.

Fixpoint replaceServer (s' : Server) (l : list Server) : list Server :=
  match l with
  | [] => []
  | s :: rest =>
      if String.eqb (server_ID s) (server_ID s') then s' :: rest
      else s :: replaceServer s' rest
  end.

(** [servers.Get(client, id).Extract()]. *)
Definition serversGet (c : Compute) (id : string) : Outcome Server :=
  match computeFault c (ServersGet id) with
  | Some e => Failed (ServiceError e)
  | None =>
      match findServer id (servers c) with
      | Some s => Done s
      | None => Failed (ServiceError NotFoundError)
      end
  end.

(** [servers.Metadata(client, id).Extract()]. *)
Definition serversMetadata (c : Compute) (id : string)
  : Outcome (list (string * string)) :=
  match computeFault c (ServersMetadata id) with
  | Some e => Failed (ServiceError e)
  | None =>
      match findServer id (servers c) with
      | Some s => Done (server_Metadata s)
      | None => Failed (ServiceError NotFoundError)
      end
  end.

Definition withMetadata (m : list (string * string)) (s : Server) : Server :=
  mkServer (server_ID s) (server_Name s) (server_Status s) (server_Addresses s) m.

(** [servers.UpdateMetadata(client, id, opts).Extract()]: the items of
    [opts] are created or replaced, the other items of the server stay. *)
Definition serversUpdateMetadata (c : Compute) (id : string)
    (opts : list (string * string)) : Compute * Outcome (list (string * string)) :=
  match computeFault c (ServersUpdateMetadata id) with
  | Some e => (c, Failed (ServiceError e))
  | None =>
      match findServer id (servers c) with
      | Some s =>
          let m := fold_left (fun m kv => setKey (fst kv) (snd kv) m) opts
                             (server_Metadata s) in
          (mkCompute (replaceServer (withMetadata m s) (servers c))
                     (serversPerPage c) (computeFault c),
           Done m)
      | None => (c, Failed (ServiceError NotFoundError))
      end
  end.

(** [servers.List(client, servers.ListOpts{Status: status})]. *)
Definition serversList (c : Compute) (status : string) : list (Page Server) :=
  fetched (fun i => computeFault c (ServersList i)) 0
          (pagesOf (serversPerPage c)
                   (filter (fun s => String.eqb (server_Status s) status)
                           (servers c))).

(** [ports.AddressPair] and [ports.Port]. *)
Record AddressPair : Type := mkAddressPair {
  IPAddress : string;
  pair_MACAddress : string
}.

Record Port : Type := mkPort {
  port_ID : string;
  port_MACAddress : string;
  AllowedAddressPairs : list AddressPair
}.

Inductive PortCall : Type :=
| PortsList (page : nat)
| PortsUpdate (id : string).

(** The ports of the networking service. *)
Record Ports : Type := mkPorts {
  portList : list Port;
  portsPerPage : nat;
  portFault : PortCall -> option Error
}.

(** [ports.List(client, ports.ListOpts{MACAddress: mac})]: a field of the
    options that is empty is no filter. *)
Definition portsList (ps : Ports) (mac : string) : list (Page Port) :=
  fetched (fun i => portFault ps (PortsList i)) 0
          (pagesOf (portsPerPage ps)
                   (filter (fun p => String.eqb mac ""
                                     || String.eqb (port_MACAddress p) mac)
                           (portList ps))).

Fixpoint replacePairs (id : string) (pairs : list AddressPair) (l : list Port)
  : option (list Port) :=
  match l with
  | [] => None
  | p :: rest =>
      if String.eqb (port_ID p) id
      then Some (mkPort (port_ID p) (port_MACAddress p) pairs :: rest)
      else match replacePairs id pairs rest with
           | Some rest' => Some (p :: rest')
           | None => None
           end
  end.

(** [ports.Update(client, id, ports.UpdateOpts{AllowedAddressPairs: pairs})
    .Extract()]. *)
Definition portsUpdate (ps : Ports) (id : string) (pairs : list AddressPair)
  : Ports * Outcome unit :=
  match portFault ps (PortsUpdate id) with
  | Some e => (ps, Failed (ServiceError e))
  | None =>
      match replacePairs id pairs (portList ps) with
      | Some l => (mkPorts l (portsPerPage ps) (portFault ps), Done tt)
      | None => (ps, Failed (ServiceError NotFoundError))
      end
  end.

(** ** util.go: server metadata *)

(** [createKubernetesMetaData]. *)
Definition createKubernetesMetaData (serverID name : string) (c : Compute)
  : Compute * Outcome unit :=
  let updateOpts := [("KubernetesName"%string, name)] in
  match serversUpdateMetadata c serverID updateOpts with
  | (c', Done _) => (c', Done tt)
  | (c', Failed e) => (c', Failed e)
  | (c', Crashed) => (c', Crashed)
  end.

(** [getKubernetesMetaData]. *)
Definition getKubernetesMetaData (c : Compute) (serverID : string)
  : Outcome string :=
  match serversMetadata c serverID with
  | Done metadata =>
      match lookup "KubernetesName" metadata with
      | Some val => Done val
      | None => Failed (ErrNoKubernetesName serverID)
      end
  | Failed e => Failed e
  | Crashed => Crashed
  end.

(** The test of lines 69-70 on a server of a page. *)
Definition namedBy (c : Compute) (metadata : string) (server : Server) : bool :=
  match getKubernetesMetaData c (server_ID server) with
  | Done name => String.eqb name metadata
  | _ => false
  end.

(** The handler of lines 63-75; it captures [serverList]. *)
Definition collectNamed (c : Compute) (metadata : string)
    (s : list Server) (serverList : list Server) : list Server * Outcome bool :=
  (serverList ++ filter (namedBy c metadata) s, Done true).

(** [getServerFromMetadata]. *)
Definition getServerFromMetadata (c : Compute) (metadata : string)
  : Outcome Server :=
  let pager := serversList c "ACTIVE" in
  match EachPage pager (collectNamed c metadata) [] with
  | (_, Failed e) => Failed e
  | (_, Crashed) => Crashed
  | (serverList, Done _) =>
      if Nat.eqb (List.length serverList) 0 then Failed ErrNotFound
      else if Nat.ltb 1 (List.length serverList) then Failed ErrMultipleResults
      else match serverList with
           | s :: _ => Done s
           | [] => Crashed
           end
  end.

(** ** util.go: allowed address pairs *)

(** Lines 102-103: the item has the key [OS-EXT-IPS:type] and its value is
    the string [fixed]. *)
Definition isFixed (props : list (string * Value)) : bool :=
  match lookup "OS-EXT-IPS:type" props with
  | Some (VString t) => String.eqb t "fixed"
  | _ => false
  end.

(** Lines 97-106, the loop over the items of one network. The type
    assertion of line 104 panics when the key is missing or its value is no
    string. *)
Fixpoint scanItems (list : list Value) (mac_addr : string) : Outcome string :=
  match list with
  | [] => Done mac_addr
  | item :: rest =>
      match item with
      | VMap props =>
          if isFixed props then
            match lookup "OS-EXT-IPS-MAC:mac_addr" props with
            | Some (VString m) => scanItems rest m
            | _ => Crashed
            end
          else scanItems rest mac_addr
      | _ => scanItems rest mac_addr
      end
  end.

(** Lines 91-107, the loop over the networks of the server. *)
Fixpoint scanAddresses (addresses : list (string * Value)) (mac_addr : string)
  : Outcome string :=
  match addresses with
  | [] => Done mac_addr
  | (_, netblob) :: rest =>
      match netblob with
      | VList list =>
          match scanItems list mac_addr with
          | Done m => scanAddresses rest m
          | Failed e => Failed e
          | Crashed => Crashed
          end
      | _ => scanAddresses rest mac_addr
      end
  end.

(** The handler of lines 112-123; it captures [port]. *)
Definition firstPort (portList : list Port) (port : Port) : Port * Outcome bool :=
  match portList with
  | s :: _ => (s, Done true)
  | [] => (port, Done true)
  end.

(** [setAllowedAddressPair]. The error of [EachPage] is assigned to [err]
    and never read. *)
Definition setAllowedAddressPair (server : Server) (address : string)
    (ps : Ports) : Ports * Outcome unit :=
  match scanAddresses (server_Addresses server) "" with
  | Failed e => (ps, Failed e)
  | Crashed => (ps, Crashed)
  | Done mac_addr =>
      let pager := portsList ps mac_addr in
      let port := fst (EachPage pager firstPort (mkPort "" "" [])) in
      let addressPairs := AllowedAddressPairs port in
      if existsb (fun pair => String.eqb (IPAddress pair) address) addressPairs
      then (ps, Done tt)
      else portsUpdate ps (port_ID port) (addressPairs ++ [mkAddressPair address ""])
  end.

(** A fixed item whose [OS-EXT-IPS-MAC:mac_addr] is missing or no string. *)
Definition malformed (item : Value) : bool :=
  match item with
  | VMap props =>
      isFixed props
      && match lookup "OS-EXT-IPS-MAC:mac_addr" props with
         | Some (VString _) => false
         | _ => true
         end
  | _ => false
  end.

Definition malformedNetwork (entry : string * Value) : bool :=
  match snd entry with
  | VList list => existsb malformed list
  | _ => false
  end.

(** The item is no fixed address item, or it is one that carries the MAC
    address [m]. *)
Definition fixedAt (m : string) (item : Value) : bool :=
  match item with
  | VMap props =>
      if isFixed props then
        match lookup "OS-EXT-IPS-MAC:mac_addr" props with
        | Some (VString x) => String.eqb x m
        | _ => false
        end
      else true
  | _ => true
  end.

Definition isFixedItem (item : Value) : bool :=
  match item with
  | VMap props => isFixed props
  | _ => false
  end.

(** The fixed address items of the network all carry the MAC address [m];
    the network has a fixed address item. *)
Definition networkAt (m : string) (entry : string * Value) : bool :=
  match snd entry with
  | VList list => forallb (fixedAt m) list
  | _ => true
  end.

Definition networkHasFixed (entry : string * Value) : bool :=
  match snd entry with
  | VList list => existsb isFixedItem list
  | _ => false
  end.

(** The port that the walk of lines 112-123 leaves in [port]: the first
    port of the last page handed to the handler, if a page was. *)
Fixpoint pickedPort (pages : list (Page Port)) : option Port :=
  match pages with
  | [] => None
  | PageError _ :: _ => None
  | PageOf [] :: _ => None
  | PageOf (p :: _) :: rest =>
      match pickedPort rest with
      | Some q => Some q
      | None => Some p
      end
  end.

(** The port with the pairs [pairs], if it is the port [id]. *)
Definition withPairs (id : string) (pairs : list AddressPair) (q : Port) : Port :=
  if String.eqb (port_ID q) id then mkPort (port_ID q) (port_MACAddress q) pairs
  else q.

Definition allows (address : string) (p : Port) : bool :=
  existsb (fun pair => String.eqb (IPAddress pair) address) (AllowedAddressPairs p).

(** ** routes.go *)

(** [cloudprovider.Instance] and [cloudprovider.Route]. *)
Record Instance : Type := mkInstance {
  inst_Name : string;
  inst_ID : string
}.

Record Route : Type := mkRoute {
  Name : string;
  TargetInstance : Instance;
  DestinationCIDR : string
}.

(** The route as [OpenStack.DeleteRoute] takes it. *)
Definition asCloudRoute (route : Route) : OpenStack.CloudRoute :=
  OpenStack.mkCloudRoute (Name route) (inst_Name (TargetInstance route))
                         (DestinationCIDR route).

(** [api.NodeAddress]. *)
Record NodeAddress : Type := mkNodeAddress {
  na_Type : string;
  na_Address : string
}.

(** What the provider holds: the compute client, and the networking client
    with the router of [os.routeOpts.RouterId] and the ports. *)
Record Cloud : Type := mkCloud {
  compute : Compute;
  network : OpenStack.Network;
  ports : Ports
}.

Definition setCompute (c : Compute) (os : Cloud) : Cloud :=
  mkCloud c (network os) (ports os).
Definition setNetwork (n : OpenStack.Network) (os : Cloud) : Cloud :=
  mkCloud (compute os) n (ports os).
Definition setPorts (p : Ports) (os : Cloud) : Cloud :=
  mkCloud (compute os) (network os) p.

Section Routes.

(** [getServerByAddress] and [getAddresses] are defined in another file of
    the package; the routes are embedded for any two such functions.
    [getAddresses] answers with its two results, of which [CreateRoute]
    reads the first only. *)
Variable getServerByAddress : Compute -> string -> Outcome Server.
Variable getAddresses : Server -> list NodeAddress * option CloudError.

(** Lines 52-69, the loop of [ListRoutes]; [routes] is the slice built so
    far. *)
Fixpoint listRoutesLoop (c : Compute) (rs : list OpenStack.Route)
    (routes : list Route) : Outcome (list Route) :=
  match rs with
  | [] => Done routes
  | r :: rest =>
      match getServerByAddress c (OpenStack.NextHop r) with
      | Failed e => Failed e
      | Crashed => Crashed
      | Done server =>
          let target :=
            match getKubernetesMetaData c (server_ID server) with
            | Done target => target
            | _ => server_Name server
            end in
          let route := mkRoute (OpenStack.DestinationCIDR r)
                               (mkInstance target "")
                               (OpenStack.DestinationCIDR r) in
          listRoutesLoop c rest (routes ++ [route])
      end
  end.

(** [ListRoutes]. The [err] returned at the end is that of [routers.Get],
    which is nil there: the loop declares its own. *)
Definition ListRoutes (clusterName : string) (os : Cloud) : Outcome (list Route) :=
  match OpenStack.routersGet (network os) with
  | Err e => Failed (ServiceError e)
  | Panic => Crashed
  | Ok router => listRoutesLoop (compute os) (OpenStack.Routes router) []
  end.

(** [CreateRoute]. The error of [getAddresses] is overwritten unread, and
    [addrs[0]] panics on an empty slice. *)
Definition CreateRoute (clusterName nameHint : string) (route : Route)
    (os : Cloud) : Cloud * Outcome unit :=
  if String.eqb (inst_ID (TargetInstance route)) "" then (os, Failed ErrRouteWithoutID)
  else
    match getInstanceIDFromProviderID (inst_ID (TargetInstance route)) with
    | Err e => (os, Failed (ServiceError e))
    | Panic => (os, Crashed)
    | Ok id =>
    match serversGet (compute os) id with
    | Failed e => (os, Failed e)
    | Crashed => (os, Crashed)
    | Done server =>
    match createKubernetesMetaData (server_ID server)
                                   (inst_Name (TargetInstance route)) (compute os) with
    | (c1, Failed e) => (setCompute c1 os, Failed e)
    | (c1, Crashed) => (setCompute c1 os, Crashed)
    | (c1, Done _) =>
    let os1 := setCompute c1 os in
    match OpenStack.routersGet (network os1) with
    | Err e => (os1, Failed (ServiceError e))
    | Panic => (os1, Crashed)
    | Ok router =>
    match fst (getAddresses server) with
    | [] => (os1, Crashed)
    | a :: _ =>
    let addr := na_Address a in
    match setAllowedAddressPair server (DestinationCIDR route) (ports os1) with
    | (p2, Failed e) => (setPorts p2 os1, Failed e)
    | (p2, Crashed) => (setPorts p2 os1, Crashed)
    | (p2, Done _) =>
    let os2 := setPorts p2 os1 in
    let routes := OpenStack.Routes router
                  ++ [OpenStack.mkRoute (DestinationCIDR route) addr] in
    match OpenStack.routersUpdate (network os2) routes with
    | (n3, Ok _) => (setNetwork n3 os2, Done tt)
    | (n3, Err e) => (setNetwork n3 os2, Failed (ServiceError e))
    | (n3, Panic) => (setNetwork n3 os2, Crashed)
    end end end end end end end.

End Routes.

(** The entry of [ListRoutes] for the route [r] of the router: name and
    destination are the destination of [r], the instance is named after
    the server of the next hop and carries no identifier. *)
Definition listedAs (getServerByAddress : Compute -> string -> Outcome Server)
    (c : Compute) (r : OpenStack.Route) (route : Route) : Prop :=
  Name route = OpenStack.DestinationCIDR r
  /\ DestinationCIDR route = OpenStack.DestinationCIDR r
  /\ inst_ID (TargetInstance route) = ""%string
  /\ exists server,
       getServerByAddress c (OpenStack.NextHop r) = Done server
       /\ inst_Name (TargetInstance route)
          = match getKubernetesMetaData c (server_ID server) with
            | Done name => name
            | _ => server_Name server
            end.

(** ** An example cloud *)

Definition noFault {C : Type} : C -> option Error := fun _ => None.

Definition fixedAddress (mac addr : string) : Value :=
  VMap [("OS-EXT-IPS:type"%string, VString "fixed");
        ("OS-EXT-IPS-MAC:mac_addr"%string, VString mac);
        ("addr"%string, VString addr)].

(** Two nodes of a cluster, the second named already, and a server that is
    shut off. *)
Definition node1 : Server :=
  mkServer "7c9e6679" "node-1" "ACTIVE"
           [("private"%string, VList [fixedAddress "fa:16:3e:00:00:01" "192.168.199.5"])]
           [].
Definition node2 : Server :=
  mkServer "1b4e28ba" "node-2" "ACTIVE"
           [("private"%string, VList [fixedAddress "fa:16:3e:00:00:02" "192.168.199.6"])]
           [("KubernetesName"%string, "node-2.cluster"%string)].
Definition node3 : Server :=
  mkServer "9f8d7c6b" "node-3" "SHUTOFF" []
           [("KubernetesName"%string, "node-3.cluster"%string)].

(** A server whose fixed address item carries no MAC address. *)
Definition oddServer : Server :=
  mkServer "0a1b2c3d" "odd" "ACTIVE"
           [("private"%string,
             VList [VMap [("OS-EXT-IPS:type"%string, VString "fixed")]])]
           [].

(** A server with a fixed address on each of two networks, and the same
    server with its networks visited in the other order. *)
Definition twoNetworks : Server :=
  mkServer "5e6f7a8b" "gateway" "ACTIVE"
           [("private"%string, VList [fixedAddress "fa:16:3e:00:00:01" "192.168.199.5"]);
            ("storage"%string, VList [fixedAddress "fa:16:3e:00:00:02" "10.10.0.5"])]
           [].
Definition twoNetworksAgain : Server :=
  mkServer "5e6f7a8b" "gateway" "ACTIVE"
           [("storage"%string, VList [fixedAddress "fa:16:3e:00:00:02" "10.10.0.5"]);
            ("private"%string, VList [fixedAddress "fa:16:3e:00:00:01" "192.168.199.5"])]
           [].

Definition nova : Compute := mkCompute [node1; node2; node3] 1 noFault.

(** The same service with a second page of listings that fails, and with
    metadata calls that fail. *)
Definition novaSecondPageFails : Compute :=
  mkCompute [node1; node2; node3] 1
            (fun call => match call with
                         | ServersList 1 => Some TransientStoreError
                         | _ => None
                         end).
Definition novaMetadataFails : Compute :=
  mkCompute [node1; node2; node3] 1
            (fun call => match call with
                         | ServersMetadata _ => Some TransientStoreError
                         | _ => None
                         end).

Definition port1 : Port := mkPort "port-1" "fa:16:3e:00:00:01" [].
Definition port2 : Port :=
  mkPort "port-2" "fa:16:3e:00:00:02" [mkAddressPair "10.0.2.0/24" ""].

Definition neutronPorts : Ports := mkPorts [port1; port2] 0 noFault.

(** Two ports with the MAC address of the first node, listed one a
    page. *)
Definition port1b : Port := mkPort "port-1b" "fa:16:3e:00:00:01" [].
Definition portsOnePerPage : Ports := mkPorts [port1; port1b; port2] 1 noFault.

(** The same ports behind a listing that fails. *)
Definition portsListingFails : Ports :=
  mkPorts [port1; port2] 0
          (fun call => match call with
                       | PortsList _ => Some TransientStoreError
                       | _ => None
                       end).

(** A router with one route, through the second node. *)
Definition neutronRouter : OpenStack.Network :=
  OpenStack.mkNetwork
    (OpenStack.mkRouter "r1" [OpenStack.mkRoute "10.0.2.0/24" "192.168.199.6"])
    None None.

Definition cloud : Cloud := mkCloud nova neutronRouter neutronPorts.

(** The route of the provider's test, to the first node. *)
Definition newroute : Route :=
  mkRoute "" (mkInstance "node-1.cluster" "openstack:///7c9e6679") "10.164.2.0/24".

(** Addresses of the nodes, for the two functions of the package that the
    routes call. *)
Definition nodeAddresses (s : Server) : list NodeAddress * option CloudError :=
  if String.eqb (server_ID s) "7c9e6679"
  then ([mkNodeAddress "InternalIP" "192.168.199.5"], None)
  else if String.eqb (server_ID s) "1b4e28ba"
  then ([mkNodeAddress "InternalIP" "192.168.199.6"], None)
  else ([], Some ErrNotFound).

Definition serverAt (c : Compute) (address : string) : Outcome Server :=
  match filter (fun s => match fst (nodeAddresses s) with
                         | a :: _ => String.eqb (na_Address a) address
                         | [] => false
                         end) (servers c) with
  | [] => Failed ErrNotFound
  | [s] => Done s
  | _ :: _ :: _ => Failed ErrMultipleResults
  end.

(** No address is known for any server. *)
Definition noAddresses (s : Server) : list NodeAddress * option CloudError :=
  ([], Some ErrNotFound).

End OpenStackCloud.

(* ================================================================== *)
(** * The helpers of the provider's tests *)

Module OpenStackTest.

#[local] Open Scope string_scope.

(** The fields of [Config] that [configFromEnv] assigns; the others keep
    their zero value. *)
Record Global : Type := mkGlobal {
  AuthUrl : string;
  TenantId : string;
  TenantName : string;
  Username : string;
  Password : string;
  ApiKey : string;
  Region : string;
  DomainId : string;
  DomainName : string
}.

Record Config : Type := mkConfig {
  cfg_Global : Global;
  FloatingNetworkId : string
}.

Definition nonEmpty (s : string) : bool := negb (String.eqb s "").

(** [configFromEnv]; [Getenv] is [os.Getenv], which answers the empty
    string for a variable that is not set. *)
Definition configFromEnv (Getenv : string -> string) : Config * bool :=
  let authUrl := Getenv "OS_AUTH_URL" in
  let tenantId := Getenv "OS_TENANT_ID" in
  let tenantName := if String.eqb tenantId "" then Getenv "OS_TENANT_NAME" else "" in
  let username := Getenv "OS_USERNAME" in
  let password := Getenv "OS_PASSWORD" in
  let apiKey := Getenv "OS_API_KEY" in
  let region := Getenv "OS_REGION_NAME" in
  let domainId := Getenv "OS_DOMAIN_ID" in
  let domainName := Getenv "OS_DOMAIN_NAME" in
  let floatingNetworkId := Getenv "OS_FLOATING_NETWORK_ID" in
  let ok := nonEmpty authUrl
            && nonEmpty username
            && (nonEmpty password || nonEmpty apiKey)
            && (nonEmpty tenantId || nonEmpty tenantName
                || nonEmpty domainId || nonEmpty domainName) in
  (mkConfig (mkGlobal authUrl tenantId tenantName username password apiKey
                      region domainId domainName)
            floatingNetworkId,
   ok).

(** How a call of [WaitForVolumeStatus] ends: the timeout branch, the
    [t.Fatalf] after a failing [getVolume], the status reached, or a panic
    of [getVolume]. *)
Inductive WaitEnd : Type :=
| TimedOut
| Fatal (e : Error)
| StatusReached
| Panicked.

(** The loop of [WaitForVolumeStatus]. [clock t] is what the [t]-th call
    of [time.Now().Second()] returns and [getVolume k] the status that the
    [k]-th call of [os.getVolume] returns; [&&] does not read the clock
    when [timeout] is negative. The loop has no bound of its own: [None]
    is a loop still running when [fuel] rounds are over. *)
Fixpoint waitLoop (fuel : nat) (clock : nat -> Z) (getVolume : nat -> Result string)
    (status : string) (timeout start : Z) (t k : nat) : option WaitEnd :=
  match fuel with
  | O => None
  | S fuel' =>
      let expired := if timeout >=? 0 then clock t - start >=? timeout else false in
      let t' := if timeout >=? 0 then S t else t in
      if expired then Some TimedOut
      else
        match getVolume k with
        | Err e => Some (Fatal e)
        | Panic => Some Panicked
        | Ok volStatus =>
            if String.eqb volStatus status then Some StatusReached
            else waitLoop fuel' clock getVolume status timeout start t' (S k)
        end
  end.

(** [WaitForVolumeStatus]. *)
Definition WaitForVolumeStatus (fuel : nat) (clock : nat -> Z)
    (getVolume : nat -> Result string) (status : string) (timeoutSeconds : Z)
  : option WaitEnd :=
  let timeout := timeoutSeconds in
  let start := clock 0%nat in
  waitLoop fuel clock getVolume status timeout start 1 0.

(** [volumeCreateTimeoutSeconds]. *)
Definition volumeCreateTimeoutSeconds : Z := 30.

(** An environment with the variables of a password login, and one
    that also names the tenant. *)
Definition passwordEnv (name : string) : string :=
  if String.eqb name "OS_AUTH_URL" then "http://auth.url"
  else if String.eqb name "OS_USERNAME" then "user"
  else if String.eqb name "OS_PASSWORD" then "secret"
  else if String.eqb name "OS_TENANT_ID" then "t-1"
  else if String.eqb name "OS_TENANT_NAME" then "tenant"
  else "".

(** A clock read once a second from second [start] of a minute on. *)
Definition clockFrom (start : nat) (t : nat) : Z :=
  Z.of_nat (Nat.modulo (start + t) 60).

(** A volume that stays in the status [creating]. *)
Definition creating (k : nat) : Result string := Ok "creating".

End OpenStackTest.

(* ================================================================== *)
(** * Reasoning about runs *)

Import DeploymentController.

Ltac splits := repeat match goal with |- _ /\ _ => split end.

(** Discharges [uniqueNames] of a store written out. *)
Ltac unique_names :=
  unfold uniqueNames; simpl;
  repeat (constructor; [simpl; intuition discriminate|]); constructor.

(** Discharges the distinctness of identifiers written out. *)
Ltac distinct_ids :=
  simpl; repeat (constructor; [simpl; intuition discriminate|]); constructor.

(** A bound computation is its first part alone when that fails or panics,
    and the sequence of both otherwise. *)
Lemma bind_ok {A B} (m : M A) (f : A -> M B) (w : World) (a : A) :
  result (m w) = Ok a ->
  bind m f w = mkRun (world (f a (world (m w))))
                     (calls (m w) ++ calls (f a (world (m w))))
                     (result (f a (world (m w)))).
Proof.
  intros E. unfold bind. destruct (m w) as [w1 c1 r1]. simpl in E. subst r1.
  simpl. destruct (f a w1); reflexivity.
Qed.

Lemma bind_err {A B} (m : M A) (f : A -> M B) (w : World) (e : Error) :
  result (m w) = Err e ->
  bind m f w = mkRun (world (m w)) (calls (m w)) (Err e).
Proof.
  intros E. unfold bind. destruct (m w) as [w1 c1 r1]. simpl in E. subst r1.
  reflexivity.
Qed.

Lemma bind_panic {A B} (m : M A) (f : A -> M B) (w : World) :
  result (m w) = Panic ->
  bind m f w = mkRun (world (m w)) (calls (m w)) Panic.
Proof.
  intros E. unfold bind. destruct (m w) as [w1 c1 r1]. simpl in E. subst r1.
  reflexivity.
Qed.

Lemma run_eta {A} (r : Run A) : mkRun (world r) (calls r) (result r) = r.
Proof. destruct r; reflexivity. Qed.

(* ------------------------------------------------------------------ *)
(** ** The scaling executor at its target *)

Lemma scale_at_target (rs : ReplicaSet) (d : Deployment) (w : World) :
  scaleReplicaSetAndRecordEvent (Some rs) (Spec_Replicas rs) d w
  = mkRun w [] (Ok (false, Some rs)).
Proof.
  unfold scaleReplicaSetAndRecordEvent. rewrite Z.eqb_refl. reflexivity.
Qed.

Lemma scaleDownLoop_at_zero (oldRSs : list (option ReplicaSet)) (d : Deployment) (scaled : bool)
    (w : World) :
  Forall atZero oldRSs ->
  scaleDownLoop oldRSs d scaled w = mkRun w [] (Ok scaled).
Proof.
  induction 1 as [|p l [r [-> Hr]] _ IH]; simpl.
  - reflexivity.
  - rewrite Hr. simpl. exact IH.
Qed.

Lemma repeatM_fixed_point {A} (m : M A) (w : World) (cs : list Call) (res : Result A)
    (n : nat) :
  m w = mkRun w cs res ->
  repeatM n m w = (w, repeat (cs, res) n).
Proof.
  intros E. induction n as [|n IH]; simpl.
  - reflexivity.
  - rewrite E. simpl. rewrite IH. reflexivity.
Qed.

(** C5. Scaling no-op anchor: a replica set whose desired count already
    equals the target is left alone by [scaleReplicaSetAndRecordEvent],
    which issues nothing, leaves the world as it is and returns
    [didScale = false]; the scale-down skips every old replica set at zero
    desired replicas and the scale-up a new one at the Deployment's count;
    invoked any number of times in a row at the target, none reports a
    scale. *)
Theorem scaling_noop_at_target :
  forall (rs : ReplicaSet) (target : Z) (oldRSs : list (option ReplicaSet))
         (d : Deployment) (w : World) (n : nat),
    Spec_Replicas rs = target ->
    Forall atZero oldRSs ->
    scaleReplicaSetAndRecordEvent (Some rs) target d w
      = mkRun w [] (Ok (false, Some rs))
    /\ scaleDownOldReplicaSetsForRecreate oldRSs d w = mkRun w [] (Ok false)
    /\ (target = d_Spec_Replicas d ->
        scaleUpNewReplicaSetForRecreate (Some rs) d w = mkRun w [] (Ok false))
    /\ repeatM n (scaleReplicaSetAndRecordEvent (Some rs) target d) w
       = (w, repeat ([], Ok (false, Some rs)) n)
    /\ repeatM n (scaleDownOldReplicaSetsForRecreate oldRSs d) w
       = (w, repeat ([], Ok false) n).
Proof.
  intros rs target oldRSs d w n <- Hold.
  assert (E1 := scale_at_target rs d w).
  assert (E2 : scaleDownOldReplicaSetsForRecreate oldRSs d w = mkRun w [] (Ok false))
    by (apply scaleDownLoop_at_zero; exact Hold).
  repeat split.
  - exact E1.
  - exact E2.
  - intros Ht. unfold scaleUpNewReplicaSetForRecreate.
    rewrite <- Ht. unfold bind. rewrite E1. reflexivity.
  - apply repeatM_fixed_point. exact E1.
  - apply repeatM_fixed_point. exact E2.
Qed.

Lemma scaling_noop_at_target_witness :
  let rs := mkRS "web-v1" "v1" 10 0 2 2 in
  let d := mkDeployment "web" "v2" 0 1 None in
  let w := mkWorld [rs] None [] 100 [] [] [Some ConflictError] [] [] [] in
  scaleReplicaSetAndRecordEvent (Some rs) 0 d w = mkRun w [] (Ok (false, Some rs))
  /\ scaleDownOldReplicaSetsForRecreate [Some rs] d w = mkRun w [] (Ok false)
  /\ scaleUpNewReplicaSetForRecreate (Some rs) d w = mkRun w [] (Ok false).
Proof.
  intros rs d w.
  assert (Hz : Forall atZero [Some rs])
    by (constructor; [exists rs; split; reflexivity | constructor]).
  destruct (scaling_noop_at_target rs 0 [Some rs] d w 2 eq_refl Hz)
    as (H1 & H2 & H3 & _).
  split; [exact H1 | split; [exact H2 | exact (H3 eq_refl)]].
Defined.


(* ------------------------------------------------------------------ *)
(** ** What each collaborator does to the world *)

Lemma resolve_no_create_run (d : Deployment) (w : World) :
  getAllReplicaSetsAndSyncRevision d false w
  = mkRun (setListFaults (snd (nextOutcome (listFaults w))) w)
          [GetAllReplicaSets false]
          (match fst (nextOutcome (listFaults w)) with
           | Some e => Err e
           | None => Ok (classify d (store w))
           end).
Proof.
  destruct w as [st sts ev ck lf cf uf ef sf df].
  unfold getAllReplicaSetsAndSyncRevision, storeList, consult.
  destruct lf as [|[e|] lf]; cbn.
  all: try reflexivity.
  all: destruct (classify d st) as [[n|] o]; reflexivity.
Qed.

Lemma storeCreate_run (rs : ReplicaSet) (w : World) :
  let w1 := setCreateFaults (snd (nextOutcome (createFaults w))) w in
  storeCreate rs w
  = match fst (nextOutcome (createFaults w)) with
    | Some e => mkRun w1 [StoreCreate rs] (Err e)
    | None =>
        if existsb (hasName (Name rs)) (store w)
        then mkRun w1 [StoreCreate rs] (Err AlreadyExistsError)
        else mkRun (setClock (clock w + 1) (setStore (store w ++ [stamped rs w]) w1))
                   [StoreCreate rs] (Ok (stamped rs w))
    end.
Proof.
  destruct w as [st sts ev ck lf cf uf ef sf df].
  unfold storeCreate, consult, stamped.
  destruct cf as [|[e|] cf]; cbn; try reflexivity.
  all: destruct (existsb (hasName (Name rs)) st); reflexivity.
Qed.

Lemma resolve_create_run (d : Deployment) (w : World) :
  let w1 := setListFaults (snd (nextOutcome (listFaults w))) w in
  getAllReplicaSetsAndSyncRevision d true w
  = match fst (nextOutcome (listFaults w)) with
    | Some e => mkRun w1 [GetAllReplicaSets true] (Err e)
    | None =>
        match fst (classify d (store w)) with
        | Some n => mkRun w1 [GetAllReplicaSets true] (Ok (classify d (store w)))
        | None =>
            let rc := storeCreate (newReplicaSet d) w1 in
            mkRun (world rc) (GetAllReplicaSets true :: calls rc)
                  (match result rc with
                   | Ok c => Ok (Some c, snd (classify d (store w)))
                   | Err e => Err e
                   | Panic => Panic
                   end)
        end
    end.
Proof.
  intros w1. subst w1.
  unfold getAllReplicaSetsAndSyncRevision at 1.
  unfold storeList, consult.
  destruct w as [st sts ev ck lf cf uf ef sf df].
  destruct lf as [|[e|] lf]; cbn -[storeCreate].
  all: try reflexivity.
  all: destruct (classify d st) as [[n|] o]; cbn -[storeCreate]; try reflexivity.
  all: unfold bind; cbn -[storeCreate].
  all: match goal with |- context [storeCreate ?a ?b] => destruct (storeCreate a b) as [wc cc [c|e|]] end.
  all: cbn; rewrite ?app_nil_r; reflexivity.
Qed.

Lemma sameStatus_refl (w : World) : sameStatus w w.
Proof. split; reflexivity. Qed.

Lemma sameStatus_trans (w1 w2 w3 : World) :
  sameStatus w1 w2 -> sameStatus w2 w3 -> sameStatus w1 w3.
Proof. intros [A B] [C D]. split; congruence. Qed.

(** A scaling that has something to do issues one conditional update; it
    either writes the count and reports the scale, or fails and leaves the
    store as it was. *)
Lemma scale_run (r : ReplicaSet) (n : Z) (d : Deployment) (w : World) :
  Spec_Replicas r <> n ->
  let run := scaleReplicaSetAndRecordEvent (Some r) n d w in
  calls run = [StoreUpdate (Name r) (Spec_Replicas r) n]
  /\ sameStatus w (world run)
  /\ ((result run = Ok (true, Some (setReplicas r n))
       /\ store (world run) = withReplicas (Name r) n (store w)
       /\ existsb (hasName (Name r)) (store w) = true)
      \/ (exists e, result run = Err e /\ store (world run) = store w)).
Proof.
  intros Hne run. subst run.
  unfold scaleReplicaSetAndRecordEvent.
  destruct (Z.eqb_spec (Spec_Replicas r) n) as [E|_]; [contradiction|].
  destruct w as [st sts ev ck lf cf uf ef sf df].
  unfold withReplicas.
  unfold storeUpdateReplicas, recordEvent, consult.
  unfold bind, call, get, modify, ret, fail, discard.
  destruct (existsb (hasName (Name r)) st) eqn:Ex;
    destruct uf as [|[e|] uf]; destruct ef as [|[e'|] ef];
    cbn; rewrite ?Ex; cbn.
  all: (split; [reflexivity | split; [split; reflexivity | ]]).
  all: try (right; eexists; split; reflexivity).
  all: left; split; [reflexivity | split; reflexivity].
Qed.

Lemma status_write_run (c : Call) (st : DeploymentStatus) (w : World) :
  let run := (call c ;; storeWriteStatus st) w in
  calls run = [c; StoreWriteStatus st]
  /\ store (world run) = store w
  /\ result run = match fst (nextOutcome (statusFaults w)) with
                  | Some e => Err e
                  | None => Ok tt
                  end
  /\ (result run = Ok tt -> status (world run) = Some st)
  /\ (result run <> Ok tt -> status (world run) = status w).
Proof.
  destruct w as [s sts ev ck lf cf uf ef sf df].
  unfold storeWriteStatus, consult.
  destruct sf as [|[e|] sf]; cbn; splits; try reflexivity; congruence.
Qed.

Lemma updateDeploymentStatus_run (allRSs : list (option ReplicaSet)) (newRS : option ReplicaSet)
    (d : Deployment) (w : World) :
  let run := updateDeploymentStatus allRSs newRS d w in
  calls run = [UpdateDeploymentStatus allRSs newRS;
               StoreWriteStatus (calculateStatus allRSs newRS d)]
  /\ store (world run) = store w
  /\ result run = match fst (nextOutcome (statusFaults w)) with
                  | Some e => Err e
                  | None => Ok tt
                  end
  /\ (result run = Ok tt -> status (world run) = Some (calculateStatus allRSs newRS d))
  /\ (result run <> Ok tt -> status (world run) = status w).
Proof. apply status_write_run. Qed.

Lemma syncDeploymentStatus_run (allRSs : list (option ReplicaSet)) (newRS : option ReplicaSet)
    (d : Deployment) (w : World) :
  let run := syncDeploymentStatus allRSs newRS d w in
  calls run = [SyncDeploymentStatus allRSs newRS;
               StoreWriteStatus (calculateStatus allRSs newRS d)]
  /\ store (world run) = store w
  /\ result run = match fst (nextOutcome (statusFaults w)) with
                  | Some e => Err e
                  | None => Ok tt
                  end
  /\ (result run = Ok tt -> status (world run) = Some (calculateStatus allRSs newRS d))
  /\ (result run <> Ok tt -> status (world run) = status w).
Proof. apply status_write_run. Qed.

(* ------------------------------------------------------------------ *)
(** ** The scale-down loop *)

Lemma lowered_refl (s : list ReplicaSet) : lowered s s.
Proof. induction s; constructor; auto. Qed.

Lemma lowered_trans (s1 s2 s3 : list ReplicaSet) :
  lowered s1 s2 -> lowered s2 s3 -> lowered s1 s3.
Proof.
  intros H12. revert s3. induction H12 as [|a b l l' Hab _ IH]; intros s3 H23.
  - inversion H23. constructor.
  - inversion H23 as [|b' c l2 l3 Hbc Hrest]; subst. constructor.
    + destruct Hab as [->| ->]; destruct Hbc as [->| ->]; auto.
    + apply IH. assumption.
Qed.

Lemma withReplicas_lowered (name : string) (s : list ReplicaSet) :
  lowered s (withReplicas name 0 s).
Proof.
  induction s as [|r s IH]; simpl; constructor.
  - destruct (hasName name r); auto.
  - exact IH.
Qed.

Lemma scaleDownLoop_run (oldRSs : list (option ReplicaSet)) (d : Deployment) :
  Forall (fun p => p <> None) oldRSs ->
  forall (scaled : bool) (w : World),
    let run := scaleDownLoop oldRSs d scaled w in
    lowered (store w) (store (world run))
    /\ sameStatus w (world run)
    /\ Forall isScaleToZero (calls run)
    /\ result run <> Panic
    /\ (result run = Ok false ->
        scaled = false /\ world run = w /\ calls run = [] /\ Forall atZero oldRSs)
    /\ ((exists e, result run = Err e) -> calls run <> [])
    /\ (scaled = false -> result run = Ok true -> calls run <> []).
Proof.
  induction 1 as [|p rest Hp _ IH]; intros scaled w; simpl.
  - splits.
    + apply lowered_refl.
    + apply sameStatus_refl.
    + constructor.
    + discriminate.
    + intros E; injection E as <-; auto.
    + intros [e E]; discriminate.
    + intros -> E. discriminate.
  - destruct p as [r|]; [clear Hp | congruence].
    destruct (Z.eqb_spec (Spec_Replicas r) 0) as [Hz|Hnz].
    + destruct (IH scaled w) as (A & B & C & D & E & F & G).
      splits; try assumption.
      intros Hr; destruct (E Hr) as (E1 & E2 & E3 & E4); splits; try assumption.
      constructor; [exists r; auto | assumption].
    + destruct (scale_run r 0 d w Hnz) as (Hc & Hs & [(Hr & Hst & _) | (e & Hr & Hst)]).
      * rewrite (bind_ok _ _ _ _ Hr). cbn [world calls result].
        destruct (IH true (world (scaleReplicaSetAndRecordEvent (Some r) 0 d w)))
          as (A & B & C & D & E & F & G).
        rewrite Hc. splits.
        -- eapply lowered_trans; [|exact A]. rewrite Hst. apply withReplicas_lowered.
        -- eapply sameStatus_trans; eassumption.
        -- constructor; [do 2 eexists; reflexivity | exact C].
        -- exact D.
        -- intros Hr'. destruct (E Hr') as (E1 & _). discriminate.
        -- intros _. discriminate.
        -- intros _ _. discriminate.
      * rewrite (bind_err _ _ _ _ Hr). cbn [world calls result]. rewrite Hc.
        splits.
        -- rewrite Hst. apply lowered_refl.
        -- exact Hs.
        -- constructor; [do 2 eexists; reflexivity | constructor].
        -- discriminate.
        -- discriminate.
        -- intros _. discriminate.
        -- intros _. discriminate.
Qed.

(* ------------------------------------------------------------------ *)
(** ** Cleanup *)

Lemma removeNames_nil (rss : list ReplicaSet) : removeNames [] rss = rss.
Proof.
  unfold removeNames. induction rss as [|x l IH]; [reflexivity|].
  cbn [filter existsb negb]. f_equal. exact IH.
Qed.

Lemma removeNames_cons (name : string) (names : list string) (rss : list ReplicaSet) :
  removeNames names (filter (fun x => negb (hasName name x)) rss)
  = removeNames (name :: names) rss.
Proof.
  unfold removeNames. induction rss as [|x l IH]; simpl; [reflexivity|].
  destruct (hasName name x); simpl.
  - exact IH.
  - destruct (existsb (fun n => hasName n x) names); simpl; rewrite IH; reflexivity.
Qed.

Lemma storeDelete_run (name : string) (w : World) :
  let run := storeDelete name w in
  calls run = [StoreDelete name]
  /\ sameStatus w (world run)
  /\ ((result run = Ok tt
       /\ store (world run) = filter (fun x => negb (hasName name x)) (store w))
      \/ (exists e, result run = Err e /\ store (world run) = store w)).
Proof.
  destruct w as [st sts ev ck lf cf uf ef sf df].
  unfold storeDelete, consult.
  destruct df as [|[e|] df]; cbn.
  all: split; [reflexivity | split; [split; reflexivity|]].
  all: try (left; split; reflexivity).
  right; eexists; split; reflexivity.
Qed.

Lemma deleteAll_run (l : list (option ReplicaSet)) :
  forall w : World,
    let run := deleteAll l w in
    sameStatus w (world run)
    /\ result run <> Panic
    /\ Forall isStoreDelete (calls run)
    /\ exists names,
         (forall n, In n names -> exists r, In (Some r) l /\ Name r = n)
         /\ store (world run) = removeNames names (store w).
Proof.
  induction l as [|p l IH]; intros w; simpl.
  - splits; auto using sameStatus_refl; try discriminate.
    exists []. split; [intros n []|]. symmetry; apply removeNames_nil.
  - destruct p as [r|].
    + destruct (storeDelete_run (Name r) w) as (Hc & Hs & [(Hr & Hst) | (e & Hr & Hst)]).
      * rewrite (bind_ok _ _ _ _ Hr). simpl.
        destruct (IH (world (storeDelete (Name r) w))) as (A & B & C & names & Hn & D).
        rewrite Hc. splits; auto.
        -- eapply sameStatus_trans; eassumption.
        -- constructor; [eexists; reflexivity | exact C].
        -- exists (Name r :: names). split.
           ++ intros n [<-|Hin]; [exists r; auto|].
              destruct (Hn n Hin) as (r' & H1 & H2). exists r'; auto.
           ++ rewrite D, Hst. apply removeNames_cons.
      * rewrite (bind_err _ _ _ _ Hr). simpl. rewrite Hc.
        splits; auto; try discriminate.
        -- constructor; [eexists; reflexivity | constructor].
        -- exists []. split; [intros n []|]. rewrite Hst. symmetry; apply removeNames_nil.
    + destruct (IH w) as (A & B & C & names & Hn & D).
      splits; auto. exists names. split; [|exact D].
      intros n Hin. destruct (Hn n Hin) as (r' & H1 & H2). exists r'; auto.
Qed.

Lemma in_firstn {A} (x : A) (n : nat) (l : list A) :
  In x (firstn n l) -> In x l.
Proof.
  revert l. induction n as [|n IH]; intros [|y l]; simpl; try tauto.
  intros [E|H]; [left; exact E | right; apply IH, H].
Qed.

Lemma cleanupDeployment_run (oldRSs : list (option ReplicaSet)) (d : Deployment) (w : World) :
  let run := cleanupDeployment oldRSs d w in
  sameStatus w (world run)
  /\ result run <> Panic
  /\ (exists dels, calls run = CleanupDeployment oldRSs :: dels
                   /\ Forall isStoreDelete dels)
  /\ exists names,
       (forall n, In n names -> deletable oldRSs n)
       /\ store (world run) = removeNames names (store w).
Proof.
  unfold cleanupDeployment.
  destruct (d_RevisionHistoryLimit d) as [limit|].
  - erewrite bind_ok by reflexivity. simpl.
    match goal with |- context [deleteAll ?l w] =>
      destruct (deleteAll_run l w) as (A & B & C & names & Hn & D);
      assert (Hl : forall r, In (Some r) l ->
                     In (Some r) oldRSs /\ Spec_Replicas r = 0 /\ Status_Replicas r = 0)
    end.
    { intros r Hin. apply filter_In in Hin. destruct Hin as [Hin Hz].
      apply in_firstn in Hin. apply in_rev in Hin.
      simpl in Hz. apply andb_true_iff in Hz. destruct Hz as [Hz1 Hz2].
      apply Z.eqb_eq in Hz1, Hz2. auto. }
    splits; auto.
    + eexists; split; [reflexivity | exact C].
    + exists names. split; [|exact D].
      intros n Hin. destruct (Hn n Hin) as (r & H1 & H2).
      destruct (Hl r H1) as (H3 & H4 & H5). exists r; auto.
  - cbn. splits; auto using sameStatus_refl; try discriminate.
    + eexists; split; [reflexivity | constructor].
    + exists []. split; [intros n []|]. symmetry; apply removeNames_nil.
Qed.

(* ------------------------------------------------------------------ *)
(** ** The paths of a pass *)

Lemma rolloutRecreate_phases (d : Deployment) :
  rolloutRecreate d
  = ('(newRS, oldRSs) <- getAllReplicaSetsAndSyncRevision d false ;;
     scaledDown <- scaleDownOldReplicaSetsForRecreate
                     (FilterActiveReplicaSets oldRSs) d ;;
     if scaledDown : bool then updateDeploymentStatus (oldRSs ++ [newRS]) newRS d
     else
       '(newRS', oldRSs', allRSs') <-
          ensureNewReplicaSet d newRS oldRSs (oldRSs ++ [newRS]) ;;
       scaleUpPhase d newRS' oldRSs' allRSs').
Proof. reflexivity. Qed.

Lemma rolloutRecreate_eq (d : Deployment) (w : World) :
  rolloutRecreate d w
  = let r1 := getAllReplicaSetsAndSyncRevision d false w in
    match result r1 with
    | Ok (newRS, oldRSs) =>
        let r2 := scaleDownOldReplicaSetsForRecreate
                    (FilterActiveReplicaSets oldRSs) d (world r1) in
        match result r2 with
        | Ok true =>
            let r3 := updateDeploymentStatus (oldRSs ++ [newRS]) newRS d (world r2) in
            mkRun (world r3) (calls r1 ++ calls r2 ++ calls r3) (result r3)
        | Ok false =>
            let r3 := afterScaleDown d newRS oldRSs (world r2) in
            mkRun (world r3) (calls r1 ++ calls r2 ++ calls r3) (result r3)
        | Err e => mkRun (world r2) (calls r1 ++ calls r2) (Err e)
        | Panic => mkRun (world r2) (calls r1 ++ calls r2) Panic
        end
    | Err e => mkRun (world r1) (calls r1) (Err e)
    | Panic => mkRun (world r1) (calls r1) Panic
    end.
Proof.
  rewrite rolloutRecreate_phases. unfold afterScaleDown. cbv zeta.
  destruct (result (getAllReplicaSetsAndSyncRevision d false w)) as [[n o]|e|] eqn:E1.
  - rewrite (bind_ok _ _ _ _ E1). cbv beta iota.
    set (w1 := world (getAllReplicaSetsAndSyncRevision d false w)).
    destruct (result (scaleDownOldReplicaSetsForRecreate (FilterActiveReplicaSets o) d w1))
      as [[|]|e|] eqn:E2.
    + rewrite (bind_ok _ _ _ _ E2). reflexivity.
    + rewrite (bind_ok _ _ _ _ E2). reflexivity.
    + rewrite (bind_err _ _ _ _ E2). reflexivity.
    + rewrite (bind_panic _ _ _ E2). reflexivity.
  - rewrite (bind_err _ _ _ _ E1). reflexivity.
  - rewrite (bind_panic _ _ _ E1). reflexivity.
Qed.

Lemma scaleUp_run (newRS : option ReplicaSet) (d : Deployment) (w : World) :
  scaleUpNewReplicaSetForRecreate newRS d w
  = let r := scaleReplicaSetAndRecordEvent newRS (d_Spec_Replicas d) d w in
    mkRun (world r) (calls r)
          (match result r with
           | Ok (scaled, _) => Ok scaled
           | Err e => Err e
           | Panic => Panic
           end).
Proof.
  unfold scaleUpNewReplicaSetForRecreate, bind. cbv zeta.
  destruct (scaleReplicaSetAndRecordEvent newRS (d_Spec_Replicas d) d w)
    as [w1 c1 [[b p]|e|]]; simpl; rewrite ?app_nil_r; reflexivity.
Qed.

Lemma discard_run {A} (m : M A) (w : World) :
  discard m w
  = mkRun (world (m w)) (calls (m w))
          (match result (m w) with Panic => Panic | _ => Ok tt end).
Proof. unfold discard. destruct (m w) as [w1 c1 [a|e|]]; reflexivity. Qed.

Lemma scaleUpPhase_eq (d : Deployment) (newRS : option ReplicaSet) (oldRSs allRSs : list (option ReplicaSet))
    (w : World) :
  scaleUpPhase d newRS oldRSs allRSs w
  = let r1 := scaleReplicaSetAndRecordEvent newRS (d_Spec_Replicas d) d w in
    match result r1 with
    | Ok (true, _) =>
        let r2 := updateDeploymentStatus allRSs newRS d (world r1) in
        mkRun (world r2) (calls r1 ++ calls r2) (result r2)
    | Ok (false, _) =>
        let rc := cleanupDeployment oldRSs d (world r1) in
        match result rc with
        | Panic => mkRun (world rc) (calls r1 ++ calls rc) Panic
        | _ =>
            let rs := syncDeploymentStatus allRSs newRS d (world rc) in
            mkRun (world rs) (calls r1 ++ calls rc ++ calls rs) (result rs)
        end
    | Err e => mkRun (world r1) (calls r1) (Err e)
    | Panic => mkRun (world r1) (calls r1) Panic
    end.
Proof.
  unfold scaleUpPhase. cbv zeta.
  set (r1 := scaleReplicaSetAndRecordEvent newRS (d_Spec_Replicas d) d w).
  assert (Hu := scaleUp_run newRS d w). cbv zeta in Hu. fold r1 in Hu.
  destruct (result r1) as [[[|] p]|e|] eqn:E1.
  - erewrite bind_ok by (rewrite Hu; reflexivity). rewrite Hu. reflexivity.
  - erewrite bind_ok by (rewrite Hu; reflexivity). rewrite Hu. cbn [world calls result].
    set (rc := cleanupDeployment oldRSs d (world r1)).
    assert (Hd := discard_run (cleanupDeployment oldRSs d) (world r1)). fold rc in Hd.
    destruct (result rc) as [[]|e|] eqn:Ec.
    + erewrite bind_ok by (rewrite Hd; reflexivity). rewrite Hd. reflexivity.
    + erewrite bind_ok by (rewrite Hd; reflexivity). rewrite Hd. reflexivity.
    + erewrite bind_panic by (rewrite Hd; reflexivity). rewrite Hd. reflexivity.
  - erewrite bind_err by (rewrite Hu; reflexivity). rewrite Hu. reflexivity.
  - erewrite bind_panic by (rewrite Hu; reflexivity). rewrite Hu. reflexivity.
Qed.

Lemma filter_active_not_nil (l : list (option ReplicaSet)) :
  Forall (fun p => p <> None) (FilterActiveReplicaSets l).
Proof.
  unfold FilterActiveReplicaSets. apply Forall_forall. intros p Hin.
  apply filter_In in Hin. destruct Hin as [_ Ha]. destruct p; [discriminate|].
  simpl in Ha. discriminate.
Qed.

(* ------------------------------------------------------------------ *)
(** ** Errors during the scale-down *)

Lemma scaleDownLoop_abort (finished : list (option ReplicaSet)) (rs : ReplicaSet)
    (pending : list (option ReplicaSet)) (d : Deployment) (e : Error) :
  Spec_Replicas rs <> 0 ->
  forall (scaled b : bool) (w : World),
    let r0 := scaleDownLoop finished d scaled w in
    let rf := scaleReplicaSetAndRecordEvent (Some rs) 0 d (world r0) in
    result r0 = Ok b ->
    result rf = Err e ->
    scaleDownLoop (finished ++ Some rs :: pending) d scaled w
    = mkRun (world rf) (calls r0 ++ calls rf) (Err e).
Proof.
  intros Hnz. induction finished as [|p l IH]; intros scaled b w; cbv zeta.
  - cbn [app scaleDownLoop ret world calls result]. intros _ Hf.
    destruct (Z.eqb_spec (Spec_Replicas rs) 0); [contradiction|].
    rewrite (bind_err _ _ _ _ Hf). reflexivity.
  - cbn [app scaleDownLoop]. destruct p as [r|]; [|cbn; discriminate].
    destruct (Spec_Replicas r =? 0); [apply IH|].
    destruct (result (scaleReplicaSetAndRecordEvent (Some r) 0 d w))
      as [[s p]|e1|] eqn:Er.
    + rewrite !(bind_ok _ _ _ _ Er). cbn [world calls result]. intros H0 Hf.
      rewrite (IH _ b _ H0 Hf). cbn [world calls result].
      rewrite app_assoc. reflexivity.
    + rewrite !(bind_err _ _ _ _ Er). cbn [world calls result]. discriminate.
    + rewrite !(bind_panic _ _ _ Er). cbn [world calls result]. discriminate.
Qed.

Lemma existsb_none {A} (P : A -> Prop) (f : A -> bool) (l : list A) :
  (forall x, P x -> f x = false) -> Forall P l -> existsb f l = false.
Proof.
  intros Hf. induction 1 as [|x l Hx _ IH]; simpl; [reflexivity|].
  rewrite (Hf x Hx). exact IH.
Qed.

(** C4. Abort on scale-down error. When the scaling of an old replica set
    to zero fails, [scaleDownOldReplicaSetsForRecreate] returns that error
    and its run ends with the failed update: nothing is attempted on the
    old replica sets that come after. [rolloutRecreate] then returns the
    error with the world and the calls of the scale-down phase: no second
    resolution, no creation, no scale-up, no status call, and the persisted
    status is the one before the pass. *)
Theorem scale_down_error_aborts_pass :
  (forall (finished : list (option ReplicaSet)) (rs : ReplicaSet) (pending : list (option ReplicaSet))
          (d : Deployment) (w : World) (b : bool) (e : Error),
      let r0 := scaleDownOldReplicaSetsForRecreate finished d w in
      let rf := scaleReplicaSetAndRecordEvent (Some rs) 0 d (world r0) in
      result r0 = Ok b ->
      Spec_Replicas rs <> 0 ->
      result rf = Err e ->
      scaleDownOldReplicaSetsForRecreate (finished ++ Some rs :: pending) d w
        = mkRun (world rf) (calls r0 ++ calls rf) (Err e)
      /\ calls rf = [StoreUpdate (Name rs) (Spec_Replicas rs) 0]
      /\ store (world rf) = store (world r0))
  /\
  (forall (d : Deployment) (w : World) (newRS : option ReplicaSet) (oldRSs : list (option ReplicaSet))
          (e : Error),
      let r1 := getAllReplicaSetsAndSyncRevision d false w in
      let r2 := scaleDownOldReplicaSetsForRecreate
                  (FilterActiveReplicaSets oldRSs) d (world r1) in
      let r := rolloutRecreate d w in
      result r1 = Ok (newRS, oldRSs) ->
      result r2 = Err e ->
      r = mkRun (world r2) (GetAllReplicaSets false :: calls r2) (Err e)
      /\ Forall isScaleToZero (calls r2)
      /\ existsb isResolveWithCreate (calls r) = false
      /\ existsb isStoreCreate (calls r) = false
      /\ existsb isStatusCall (calls r) = false
      /\ status (world r) = status w).
Proof.
  split.
  - intros finished rs pending d w b e r0 rf H0 Hnz Hf.
    split; [|split].
    + apply (scaleDownLoop_abort finished rs pending d e Hnz false b w H0 Hf).
    + apply (scale_run rs 0 d (world r0) Hnz).
    + destruct (scale_run rs 0 d (world r0) Hnz) as (_ & _ & [(Hr & _) | (e' & _ & Hst)]).
      * subst rf. congruence.
      * exact Hst.
  - intros d w newRS oldRSs e r1 r2 r H1 H2.
    assert (Hr : r = mkRun (world r2) (GetAllReplicaSets false :: calls r2) (Err e)).
    { subst r. rewrite rolloutRecreate_eq. cbv zeta. fold r1. rewrite H1.
      fold r2. rewrite H2. subst r1. rewrite resolve_no_create_run. reflexivity. }
    destruct (scaleDownLoop_run (FilterActiveReplicaSets oldRSs) d
                (filter_active_not_nil oldRSs) false (world r1))
      as (_ & [Hs _] & Hc & _).
    fold (scaleDownOldReplicaSetsForRecreate (FilterActiveReplicaSets oldRSs) d (world r1)) in Hs, Hc.
    fold r2 in Hs, Hc.
    assert (Hnone : forall f : Call -> bool,
               (forall c, isScaleToZero c -> f c = false) ->
               existsb f (calls r2) = false)
      by (intros f Hf; apply (existsb_none _ _ _ Hf Hc)).
    split; [exact Hr|]. split; [exact Hc|].
    rewrite Hr. simpl.
    splits.
    + apply Hnone. intros c (n & f & ->). reflexivity.
    + apply Hnone. intros c (n & f & ->). reflexivity.
    + apply Hnone. intros c (n & f & ->). reflexivity.
    + rewrite Hs. subst r1. rewrite resolve_no_create_run. destruct w; reflexivity.
Qed.

(* ------------------------------------------------------------------ *)
(** ** After the scale-down phase *)

Lemma statusOutcome_same (w w' : World) :
  sameStatus w w' -> statusOutcome w' = statusOutcome w.
Proof. intros [_ H]. unfold statusOutcome. rewrite H. reflexivity. Qed.

(** The three ways of lines 53-66 with a new replica set at hand: at the
    target (cleanup, then status sync), scaled up (status update), or the
    scale-up failed. *)
Lemma scaleUpPhase_some (d : Deployment) (n : ReplicaSet) (oldRSs allRSs : list (option ReplicaSet))
    (w : World) :
  let r := scaleUpPhase d (Some n) oldRSs allRSs w in
  let st := calculateStatus allRSs (Some n) d in
  (Spec_Replicas n = d_Spec_Replicas d
   /\ (exists dels,
          calls r = CleanupDeployment oldRSs :: dels
                    ++ [SyncDeploymentStatus allRSs (Some n); StoreWriteStatus st]
          /\ Forall isStoreDelete dels)
   /\ result r = statusOutcome w
   /\ (exists names, (forall x, In x names -> deletable oldRSs x)
                     /\ store (world r) = removeNames names (store w)))
  \/ (Spec_Replicas n <> d_Spec_Replicas d
      /\ calls r = [StoreUpdate (Name n) (Spec_Replicas n) (d_Spec_Replicas d);
                    UpdateDeploymentStatus allRSs (Some n); StoreWriteStatus st]
      /\ result r = statusOutcome w
      /\ store (world r) = withReplicas (Name n) (d_Spec_Replicas d) (store w)
      /\ existsb (hasName (Name n)) (store w) = true)
  \/ (Spec_Replicas n <> d_Spec_Replicas d
      /\ calls r = [StoreUpdate (Name n) (Spec_Replicas n) (d_Spec_Replicas d)]
      /\ (exists e, result r = Err e)
      /\ store (world r) = store w
      /\ sameStatus w (world r)).
Proof.
  intros r st. subst r. rewrite scaleUpPhase_eq. cbv zeta.
  destruct (Z.eq_dec (Spec_Replicas n) (d_Spec_Replicas d)) as [E|Hne].
  - left. split; [exact E|]. rewrite <- E. rewrite scale_at_target. cbn [result world calls].
    destruct (cleanupDeployment_run oldRSs d w) as (Hs & Hp & (dels & Hc & Hd) & names & Hn & Hst).
    destruct (syncDeploymentStatus_run allRSs (Some n) d (world (cleanupDeployment oldRSs d w)))
      as (Sc & Sst & Sr & _).
    assert (Hgoal :
      let rs := syncDeploymentStatus allRSs (Some n) d (world (cleanupDeployment oldRSs d w)) in
      let r := mkRun (world rs) ([] ++ calls (cleanupDeployment oldRSs d w) ++ calls rs) (result rs) in
      (exists dels, calls r = CleanupDeployment oldRSs :: dels
                    ++ [SyncDeploymentStatus allRSs (Some n); StoreWriteStatus st]
                    /\ Forall isStoreDelete dels)
      /\ result r = statusOutcome w
      /\ (exists names, (forall x, In x names -> deletable oldRSs x)
                        /\ store (world r) = removeNames names (store w))).
    { cbn [world calls result app]. split; [|split].
      - exists dels. rewrite Hc, Sc. split; [reflexivity | exact Hd].
      - rewrite Sr. apply (statusOutcome_same _ _ Hs).
      - exists names. rewrite Sst. auto. }
    destruct (result (cleanupDeployment oldRSs d w)) as [[]|e|]; [exact Hgoal | exact Hgoal | congruence].
  - right.
    destruct (scale_run n (d_Spec_Replicas d) d w Hne)
      as (Hc & Hs & [(Hr & Hst & Hex) | (e & Hr & Hst)]).
    + left. rewrite Hr. cbn [world calls result].
      destruct (updateDeploymentStatus_run allRSs (Some n) d
                  (world (scaleReplicaSetAndRecordEvent (Some n) (d_Spec_Replicas d) d w)))
        as (Uc & Ust & Ur & _).
      rewrite Hc, Uc, Ur, Ust, Hst. splits; auto.
      apply (statusOutcome_same _ _ Hs).
    + right. rewrite Hr. cbn [world calls result].
      splits; auto; try apply Hs. exists e; reflexivity.
Qed.

Lemma afterScaleDown_some (d : Deployment) (n : ReplicaSet) (oldRSs : list (option ReplicaSet))
    (w : World) :
  afterScaleDown d (Some n) oldRSs w
  = scaleUpPhase d (Some n) oldRSs (oldRSs ++ [Some n]) w.
Proof.
  unfold afterScaleDown, ensureNewReplicaSet.
  erewrite bind_ok by reflexivity. cbn [ret world calls result app].
  apply run_eta.
Qed.

Lemma ensureNew_none_run (d : Deployment) (oldRSs allRSs : list (option ReplicaSet)) (w : World) :
  ensureNewReplicaSet d None oldRSs allRSs w
  = let r := getAllReplicaSetsAndSyncRevision d true w in
    mkRun (world r) (calls r)
          (match result r with
           | Ok (n, o) => Ok (n, o, o ++ [n])
           | Err e => Err e
           | Panic => Panic
           end).
Proof.
  unfold ensureNewReplicaSet, bind. cbv zeta.
  destruct (getAllReplicaSetsAndSyncRevision d true w) as [w1 c1 [[n o]|e|]];
    simpl; rewrite ?app_nil_r; reflexivity.
Qed.

(** With no new replica set at hand the second resolution is made: it
    fails, or the creation fails, or the created replica set goes through
    lines 53-66. *)
Lemma afterScaleDown_none (d : Deployment) (w : World) :
  fst (classify d (store w)) = None ->
  let oldRSs := snd (classify d (store w)) in
  let r := afterScaleDown d None oldRSs w in
  let w2 := setListFaults (snd (nextOutcome (listFaults w))) w in
  let c := stamped (newReplicaSet d) w2 in
  (exists e, r = mkRun w2 [GetAllReplicaSets true] (Err e))
  \/ (exists e wc, r = mkRun wc [GetAllReplicaSets true; StoreCreate (newReplicaSet d)] (Err e)
                   /\ store wc = store w /\ sameStatus w wc)
  \/ (exists w3, store w3 = store w ++ [c]
                 /\ sameStatus w w3
                 /\ existsb (hasName (Name c)) (store w) = false
                 /\ let ru := scaleUpPhase d (Some c) oldRSs (oldRSs ++ [Some c]) w3 in
                    r = mkRun (world ru)
                              (GetAllReplicaSets true :: StoreCreate (newReplicaSet d)
                               :: calls ru)
                              (result ru)).
Proof.
  intros Hnone oldRSs r w2 c. subst r. unfold afterScaleDown.
  set (m := ensureNewReplicaSet d None oldRSs (oldRSs ++ [None])).
  assert (He := ensureNew_none_run d oldRSs (oldRSs ++ [None]) w).
  fold m in He.
  rewrite resolve_create_run in He. cbv zeta in He. fold w2 in He.
  rewrite Hnone in He. fold oldRSs in He.
  assert (Hst2 : store w2 = store w) by (destruct w; reflexivity).
  destruct (fst (nextOutcome (listFaults w))) as [e|] eqn:El.
  - left. exists e.
    assert (Hr : result (m w) = Err e) by (rewrite He; reflexivity).
    rewrite (bind_err _ _ _ _ Hr), He. reflexivity.
  - rewrite storeCreate_run in He. cbv zeta in He. rewrite Hst2 in He.
    destruct (fst (nextOutcome (createFaults w2))) as [e|] eqn:Ec.
    + right; left. exists e. eexists.
      assert (Hr : result (m w) = Err e) by (rewrite He; reflexivity).
      rewrite (bind_err _ _ _ _ Hr), He. cbn [world calls result].
      split; [reflexivity|].
      split; [destruct w; reflexivity | destruct w; split; reflexivity].
    + destruct (existsb (hasName (Name (newReplicaSet d))) (store w)) eqn:Ex.
      * right; left. exists AlreadyExistsError. eexists.
        assert (Hr : result (m w) = Err AlreadyExistsError) by (rewrite He; reflexivity).
        rewrite (bind_err _ _ _ _ Hr), He. cbn [world calls result].
        split; [reflexivity|].
        split; [destruct w; reflexivity | destruct w; split; reflexivity].
      * right; right. fold c in He.
        assert (Hr : result (m w) = Ok (Some c, oldRSs, oldRSs ++ [Some c]))
          by (rewrite He; reflexivity).
        rewrite (bind_ok _ _ _ _ Hr), He. cbn [world calls result].
        eexists. split; [|split; [|split; [|reflexivity]]].
        -- destruct w; reflexivity.
        -- destruct w; split; reflexivity.
        -- exact Ex.
Qed.

(* ------------------------------------------------------------------ *)
(** ** Classification of stores *)

Lemma insertByCreation_perm (x : ReplicaSet) (l : list ReplicaSet) :
  Permutation (insertByCreation x l) (x :: l).
Proof.
  induction l as [|y l IH]; simpl.
  - apply Permutation_refl.
  - destruct (CreationTimestamp y <=? CreationTimestamp x).
    + apply Permutation_refl.
    + eapply Permutation_trans; [apply perm_skip, IH | apply perm_swap].
Qed.

Lemma sortByCreationDesc_perm (l : list ReplicaSet) :
  Permutation (sortByCreationDesc l) l.
Proof.
  induction l as [|x l IH]; simpl.
  - apply Permutation_refl.
  - eapply Permutation_trans; [apply insertByCreation_perm | apply perm_skip, IH].
Qed.

Lemma in_sorted (r : ReplicaSet) (l : list ReplicaSet) :
  In r (sortByCreationDesc l) <-> In r l.
Proof.
  split; apply Permutation_in;
    [apply sortByCreationDesc_perm | apply Permutation_sym, sortByCreationDesc_perm].
Qed.

Lemma splitNew_perm (d : Deployment) (s : list ReplicaSet) :
  forall n o, splitNew d s = (Some n, o) -> Permutation s (n :: o).
Proof.
  induction s as [|x l IH]; simpl; intros n o H; [discriminate|].
  destruct (matchesTemplate d x).
  - injection H as <- <-. apply Permutation_refl.
  - destruct (splitNew d l) as [n' o'] eqn:E. injection H as -> <-.
    eapply Permutation_trans; [apply perm_skip, (IH n o' eq_refl) | apply perm_swap].
Qed.

Lemma splitNew_none (d : Deployment) (s : list ReplicaSet) :
  forall o, splitNew d s = (None, o) ->
            o = s /\ Forall (fun r => matchesTemplate d r = false) s.
Proof.
  induction s as [|x l IH]; simpl; intros o H.
  - injection H as <-. auto.
  - destruct (matchesTemplate d x) eqn:Ex; [discriminate|].
    destruct (splitNew d l) as [n' o'] eqn:E. injection H as -> <-.
    destruct (IH o' eq_refl) as [-> Hf]. auto.
Qed.

Lemma splitNew_no_match (d : Deployment) (s : list ReplicaSet) :
  Forall (fun r => matchesTemplate d r = false) s -> splitNew d s = (None, s).
Proof.
  induction 1 as [|x l Hx _ IH]; simpl; [reflexivity|].
  rewrite Hx, IH. reflexivity.
Qed.

Lemma splitNew_incl (d : Deployment) (s : list ReplicaSet) :
  forall n o, splitNew d s = (n, o) -> incl o s.
Proof.
  induction s as [|x l IH]; simpl; intros n o H.
  - injection H as <- <-. apply incl_refl.
  - destruct (matchesTemplate d x).
    + injection H as <- <-. apply incl_tl, incl_refl.
    + destruct (splitNew d l) as [n' o'] eqn:E. injection H as <- <-.
      apply incl_cons; [left; reflexivity | apply incl_tl, (IH n' o' eq_refl)].
Qed.

Lemma splitNew_created (d : Deployment) (s : list ReplicaSet) (c : ReplicaSet) :
  Forall (fun r => matchesTemplate d r = false) s ->
  matchesTemplate d c = true ->
  splitNew d (s ++ [c]) = (Some c, s).
Proof.
  intros Hs Hc. induction Hs as [|x l Hx _ IH]; simpl.
  - rewrite Hc. reflexivity.
  - rewrite Hx, IH. reflexivity.
Qed.

Lemma splitNew_filter (d : Deployment) (keep : ReplicaSet -> bool)
    (s : list ReplicaSet) :
  forall n o, splitNew d s = (Some n, o) -> keep n = true ->
              splitNew d (filter keep s) = (Some n, filter keep o).
Proof.
  induction s as [|x l IH]; simpl; intros n o H Hk; [discriminate|].
  destruct (matchesTemplate d x) eqn:Ex.
  - injection H as <- <-. rewrite Hk. simpl. rewrite Ex. reflexivity.
  - destruct (splitNew d l) as [n' o'] eqn:E. injection H as -> <-.
    simpl. destruct (keep x); simpl.
    + rewrite Ex, (IH n o' eq_refl Hk). reflexivity.
    + apply (IH n o' eq_refl Hk).
Qed.

Lemma splitNew_filter_incl (d : Deployment) (keep : ReplicaSet -> bool)
    (s : list ReplicaSet) :
  forall n o n' o',
    splitNew d s = (n, o) -> splitNew d (filter keep s) = (n', o') -> incl o' o.
Proof.
  induction s as [|x l IH]; simpl; intros n o n' o' H H'.
  - injection H as <- <-. injection H' as <- <-. apply incl_refl.
  - destruct (matchesTemplate d x) eqn:Ex.
    + injection H as <- <-. destruct (keep x); simpl in H'.
      * rewrite Ex in H'. injection H' as <- <-. apply incl_filter.
      * eapply incl_tran; [apply (splitNew_incl _ _ _ _ H') | apply incl_filter].
    + destruct (splitNew d l) as [n1 o1] eqn:E. injection H as <- <-.
      destruct (keep x); simpl in H'.
      * rewrite Ex in H'. destruct (splitNew d (filter keep l)) as [n2 o2] eqn:E2.
        injection H' as <- <-.
        apply incl_cons; [left; reflexivity | apply incl_tl, (IH n1 o1 n2 o2 eq_refl eq_refl)].
      * apply incl_tl, (IH n1 o1 n' o' eq_refl H').
Qed.

Lemma splitNew_lowered (d : Deployment) (s s' : list ReplicaSet) :
  lowered s s' ->
  forall n o, splitNew d s = (n, o) ->
  exists n' o', splitNew d s' = (n', o') /\ lowered o o'
                /\ (forall a', n' = Some a' -> 0 < Spec_Replicas a' -> n = Some a').
Proof.
  induction 1 as [|x x' l l' Hx Hl IH]; simpl; intros n o H.
  - injection H as <- <-. exists None, [].
    splits; [reflexivity | constructor | intros a' Ha'; discriminate].
  - assert (Em : matchesTemplate d x' = matchesTemplate d x)
      by (destruct Hx as [->| ->]; reflexivity).
    rewrite Em. destruct (matchesTemplate d x).
    + injection H as <- <-. exists (Some x'), l'.
      splits; [reflexivity | exact Hl |].
      intros a' Ha' Hpos. injection Ha' as <-.
      destruct Hx as [->| ->]; [reflexivity | simpl in Hpos; lia].
    + destruct (splitNew d l) as [n1 o1] eqn:E. injection H as <- <-.
      destruct (IH n1 o1 eq_refl) as (n' & o' & E' & Hlo & Hn).
      rewrite E'. exists n', (x' :: o').
      splits; [reflexivity | constructor; assumption | exact Hn].
Qed.

Lemma withReplicas_other (name : string) (n : Z) (l : list ReplicaSet) :
  ~ In name (map Name l) -> withReplicas name n l = l.
Proof.
  induction l as [|x l IH]; simpl; intros Hn; [reflexivity|].
  unfold hasName at 1. destruct (String.eqb_spec (Name x) name) as [E|_].
  - exfalso. apply Hn. left. exact E.
  - f_equal. apply IH. intros Hin. apply Hn. right. exact Hin.
Qed.

Lemma splitNew_withReplicas (d : Deployment) (v : Z) (s : list ReplicaSet) :
  uniqueNames s ->
  forall n o, splitNew d s = (Some n, o) ->
              splitNew d (withReplicas (Name n) v s) = (Some (setReplicas n v), o).
Proof.
  unfold uniqueNames.
  induction s as [|x l IH]; intros Hu n o H; [discriminate|].
  simpl in Hu. inversion Hu as [|? ? Hx Hl]; subst.
  assert (Em : matchesTemplate d (setReplicas x v) = matchesTemplate d x) by reflexivity.
  cbn [splitNew] in H. unfold withReplicas. cbn [map]. fold (withReplicas (Name n) v l).
  destruct (matchesTemplate d x) eqn:Ex.
  - injection H as <- <-.
    assert (Hh : hasName (Name x) x = true) by (unfold hasName; apply String.eqb_refl).
    rewrite Hh. cbn [splitNew]. rewrite Em.
    rewrite (withReplicas_other _ _ _ Hx). reflexivity.
  - destruct (splitNew d l) as [n' o'] eqn:E. injection H as -> <-.
    assert (Hin : In n l).
    { apply (Permutation_in n (Permutation_sym (splitNew_perm d l n o' E))). left; reflexivity. }
    assert (Hh : hasName (Name n) x = false).
    { unfold hasName. destruct (String.eqb_spec (Name x) (Name n)) as [En|_]; [|reflexivity].
      exfalso. apply Hx. rewrite En. apply in_map. exact Hin. }
    rewrite Hh. cbn [splitNew]. rewrite Ex.
    rewrite (IH Hl n o' eq_refl). reflexivity.
Qed.

Lemma splitNew_old_names (d : Deployment) (s : list ReplicaSet) (n : ReplicaSet)
    (o : list ReplicaSet) :
  uniqueNames s -> splitNew d s = (Some n, o) ->
  forall r, In r o -> Name r <> Name n.
Proof.
  unfold uniqueNames. intros Hu H r Hin E.
  assert (Hp := Permutation_map Name (splitNew_perm d s n o H)).
  apply (Permutation_NoDup Hp) in Hu. simpl in Hu.
  inversion Hu as [|? ? Hn _]; subst. apply Hn. rewrite <- E. apply in_map. exact Hin.
Qed.

(* ------------------------------------------------------------------ *)
(** ** The no-overlap property *)

Lemma existsb_above_sorted (o : list ReplicaSet) :
  existsb desiredAboveZero (map Some (sortByCreationDesc o)) = false
  <-> Forall (fun r => Spec_Replicas r <= 0) o.
Proof.
  split.
  - intros H. apply Forall_forall. intros r Hin.
    destruct (Z.ltb_spec 0 (Spec_Replicas r)) as [Hpos|]; [|assumption].
    exfalso. assert (Hex : existsb desiredAboveZero (map Some (sortByCreationDesc o)) = true).
    { apply existsb_exists. exists (Some r). split.
      - apply in_map, (proj2 (in_sorted _ _)), Hin.
      - simpl. apply Z.ltb_lt. exact Hpos. }
    congruence.
  - intros H. destruct (existsb _ _) eqn:E; [|reflexivity].
    apply existsb_exists in E. destruct E as (p & Hin & Hp).
    apply in_map_iff in Hin. destruct Hin as (r & <- & Hin).
    apply (proj1 (in_sorted _ _)) in Hin. rewrite Forall_forall in H. specialize (H r Hin).
    simpl in Hp. apply Z.ltb_lt in Hp. lia.
Qed.

Lemma noOverlap_spec (d : Deployment) (s : list ReplicaSet) :
  noOverlap d s = true
  <-> (forall n o, splitNew d s = (Some n, o) -> 0 < Spec_Replicas n ->
                   Forall (fun r => Spec_Replicas r <= 0) o).
Proof.
  unfold noOverlap, classify. destruct (splitNew d s) as [[n|] o]; simpl.
  - destruct (Z.ltb_spec 0 (Spec_Replicas n)) as [Hpos|Hle]; simpl.
    + rewrite negb_true_iff, existsb_above_sorted. split.
      * intros H n' o' E _. injection E as <- <-. exact H.
      * intros H. apply (H n o eq_refl Hpos).
    + split; [|reflexivity]. intros _ n' o' E Hpos. injection E as <- <-. lia.
  - split; [|reflexivity]. intros _ n' o' E. discriminate.
Qed.

Lemma oldsDown_noOverlap (d : Deployment) (s : list ReplicaSet) :
  oldsDown d s -> noOverlap d s = true.
Proof.
  unfold oldsDown. intros H. apply noOverlap_spec. intros n o E _.
  rewrite E in H. exact H.
Qed.

Lemma lowered_names (s s' : list ReplicaSet) :
  lowered s s' -> map Name s' = map Name s.
Proof.
  induction 1 as [|x x' l l' Hx _ IH]; simpl; [reflexivity|].
  rewrite IH. destruct Hx as [->| ->]; reflexivity.
Qed.

Lemma lowered_down (o o' : list ReplicaSet) :
  lowered o o' ->
  Forall (fun r => Spec_Replicas r <= 0) o ->
  Forall (fun r => Spec_Replicas r <= 0) o'.
Proof.
  induction 1 as [|x x' l l' Hx _ IH]; intros H; [constructor|].
  inversion H; subst. constructor; [|auto].
  destruct Hx as [->| ->]; simpl; [assumption | lia].
Qed.

Lemma lowered_noOverlap (d : Deployment) (s s' : list ReplicaSet) :
  lowered s s' -> noOverlap d s = true -> noOverlap d s' = true.
Proof.
  intros Hl Hn. apply noOverlap_spec. intros n' o' E' Hpos.
  destruct (splitNew d s) as [n o] eqn:E.
  destruct (splitNew_lowered d s s' Hl n o E) as (n1 & o1 & E1 & Hlo & Hnew).
  rewrite E' in E1. injection E1 as <- <-.
  apply (lowered_down o o' Hlo).
  rewrite noOverlap_spec in Hn. apply (Hn n' o); [|exact Hpos].
  rewrite (Hnew n' eq_refl Hpos) in E. exact E.
Qed.

Lemma withReplicas_names (name : string) (v : Z) (s : list ReplicaSet) :
  map Name (withReplicas name v s) = map Name s.
Proof.
  induction s as [|x l IH]; simpl; [reflexivity|].
  fold (withReplicas name v l). rewrite IH. destruct (hasName name x); reflexivity.
Qed.

Lemma uniqueNames_filter (keep : ReplicaSet -> bool) (s : list ReplicaSet) :
  uniqueNames s -> uniqueNames (filter keep s).
Proof.
  unfold uniqueNames. induction s as [|x l IH]; simpl; intros H; [constructor|].
  inversion H as [|? ? Hx Hl]; subst. destruct (keep x); simpl; [|auto].
  constructor; [|auto]. intros Hin. apply Hx.
  apply in_map_iff in Hin. destruct Hin as (y & Ey & Hy).
  apply filter_In in Hy. rewrite <- Ey. apply in_map. apply Hy.
Qed.

Lemma existsb_hasName_false (name : string) (s : list ReplicaSet) :
  existsb (hasName name) s = false -> ~ In name (map Name s).
Proof.
  intros H Hin. apply in_map_iff in Hin. destruct Hin as (x & Ex & Hx).
  assert (Ht : existsb (hasName name) s = true).
  { apply existsb_exists. exists x. split; [exact Hx|].
    unfold hasName. rewrite Ex. apply String.eqb_refl. }
  congruence.
Qed.

Lemma uniqueNames_created (s : list ReplicaSet) (c : ReplicaSet) :
  uniqueNames s -> existsb (hasName (Name c)) s = false -> uniqueNames (s ++ [c]).
Proof.
  unfold uniqueNames. intros Hu Hc. rewrite map_app. simpl.
  apply NoDup_app.
  - exact Hu.
  - constructor; [intros [] | constructor].
  - intros a Ha [<-|[]]. exact (existsb_hasName_false _ _ Hc Ha).
Qed.

(* ------------------------------------------------------------------ *)
(** ** The four ways of a pass *)

Lemma classify_eta (d : Deployment) (s : list ReplicaSet) :
  classify d s = (fst (classify d s), snd (classify d s)).
Proof. destruct (classify d s); reflexivity. Qed.

(** A pass ends at the failed first resolution, at a failed scale-down,
    at the barrier, or goes on after a scale-down phase that issued
    nothing. *)
Lemma rolloutRecreate_cases (d : Deployment) (w : World) :
  let r := rolloutRecreate d w in
  let w1 := setListFaults (snd (nextOutcome (listFaults w))) w in
  let newRS := fst (classify d (store w)) in
  let oldRSs := snd (classify d (store w)) in
  let r2 := scaleDownOldReplicaSetsForRecreate (FilterActiveReplicaSets oldRSs) d w1 in
  (exists e, fst (nextOutcome (listFaults w)) = Some e
             /\ r = mkRun w1 [GetAllReplicaSets false] (Err e))
  \/ (fst (nextOutcome (listFaults w)) = None
      /\ ((exists e, result r2 = Err e
                     /\ r = mkRun (world r2) (GetAllReplicaSets false :: calls r2) (Err e))
          \/ (result r2 = Ok true
              /\ let r3 := updateDeploymentStatus (oldRSs ++ [newRS]) newRS d (world r2) in
                 r = mkRun (world r3) (GetAllReplicaSets false :: calls r2 ++ calls r3)
                           (result r3))
          \/ (result r2 = Ok false
              /\ world r2 = w1 /\ calls r2 = []
              /\ Forall atZero (FilterActiveReplicaSets oldRSs)
              /\ let rt := afterScaleDown d newRS oldRSs w1 in
                 r = mkRun (world rt) (GetAllReplicaSets false :: calls rt) (result rt)))).
Proof.
  intros r w1 newRS oldRSs r2. subst r.
  rewrite rolloutRecreate_eq. cbv zeta. rewrite resolve_no_create_run.
  cbn [world calls result]. fold w1.
  destruct (fst (nextOutcome (listFaults w))) as [e|] eqn:El.
  - left. exists e. split; reflexivity.
  - right. split; [reflexivity|].
    rewrite (classify_eta d (store w)). fold newRS oldRSs.
    assert (Hst1 : store w1 = store w) by (destruct w; reflexivity).
    fold r2.
    destruct (scaleDownLoop_run (FilterActiveReplicaSets oldRSs) d
                (filter_active_not_nil oldRSs) false w1)
      as (_ & _ & _ & Hp & Hf & _).
    fold (scaleDownOldReplicaSetsForRecreate (FilterActiveReplicaSets oldRSs) d w1) in Hp, Hf.
    fold r2 in Hp, Hf.
    destruct (result r2) as [[|]|e|] eqn:E2.
    + right; left. split; reflexivity.
    + right; right. destruct (Hf eq_refl) as (_ & Hw & Hc & Hz).
      rewrite Hw, Hc. splits; auto.
    + left. exists e. split; reflexivity.
    + congruence.
Qed.

Lemma classify_split (d : Deployment) (s : list ReplicaSet) :
  classify d s = (fst (splitNew d s), map Some (sortByCreationDesc (snd (splitNew d s)))).
Proof. unfold classify. destruct (splitNew d s); reflexivity. Qed.

Lemma in_classified_olds (d : Deployment) (s : list ReplicaSet) (r : ReplicaSet) :
  In (Some r) (snd (classify d s)) <-> In r (snd (splitNew d s)).
Proof.
  rewrite classify_split. simpl. rewrite <- in_sorted. split.
  - intros H. apply in_map_iff in H. destruct H as (x & E & Hx). congruence.
  - apply in_map.
Qed.

(** When the active old replica sets are all at zero, no old replica set
    has a desired replica. *)
Lemma active_at_zero_olds_down (d : Deployment) (s : list ReplicaSet) :
  Forall atZero (FilterActiveReplicaSets (snd (classify d s))) -> oldsDown d s.
Proof.
  intros H. unfold oldsDown. apply Forall_forall. intros r Hin.
  apply in_classified_olds in Hin.
  destruct (isActive (Some r)) eqn:Ea.
  - rewrite Forall_forall in H.
    destruct (H (Some r)) as (r' & E & Hz).
    + apply filter_In. auto.
    + injection E as <-. lia.
  - simpl in Ea. apply orb_false_iff in Ea. destruct Ea as [Ea _].
    apply Z.ltb_ge in Ea. exact Ea.
Qed.

(** Lines 53-66 keep names unique and the old replica sets down. *)
Lemma scaleUpPhase_keeps_olds_down (d : Deployment) (n : ReplicaSet)
    (o : list ReplicaSet) (oldRSs allRSs : list (option ReplicaSet)) (w : World) :
  splitNew d (store w) = (Some n, o) ->
  uniqueNames (store w) ->
  oldsDown d (store w) ->
  let r := scaleUpPhase d (Some n) oldRSs allRSs w in
  uniqueNames (store (world r)) /\ oldsDown d (store (world r)).
Proof.
  intros E Hu Hd r.
  destruct (scaleUpPhase_some d n oldRSs allRSs w)
    as [(_ & _ & _ & names & _ & Hst) | [(_ & _ & _ & Hst & _) | (_ & _ & _ & Hst & _)]];
    fold r in Hst; rewrite Hst.
  - split; [apply uniqueNames_filter, Hu|].
    unfold oldsDown, removeNames.
    destruct (splitNew d (filter _ (store w))) as [n' o'] eqn:E'.
    simpl. unfold oldsDown in Hd. rewrite E in Hd. simpl in Hd.
    rewrite Forall_forall in *. intros x Hx. apply Hd.
    apply (splitNew_filter_incl d _ (store w) (Some n) o n' o' E E' x Hx).
  - split.
    + unfold uniqueNames. rewrite withReplicas_names. exact Hu.
    + unfold oldsDown. rewrite (splitNew_withReplicas d _ (store w) Hu n o E).
      unfold oldsDown in Hd. rewrite E in Hd. exact Hd.
  - auto.
Qed.

(** What follows a scale-down phase that found every active old replica
    set at zero keeps names unique and the old replica sets down. *)
Lemma afterScaleDown_keeps_olds_down (d : Deployment) (w : World) :
  uniqueNames (store w) ->
  oldsDown d (store w) ->
  let r := afterScaleDown d (fst (classify d (store w))) (snd (classify d (store w))) w in
  uniqueNames (store (world r)) /\ oldsDown d (store (world r)).
Proof.
  intros Hu Hd r. subst r.
  destruct (fst (classify d (store w))) as [n|] eqn:En.
  - rewrite afterScaleDown_some.
    rewrite classify_split in En. simpl in En.
    apply (scaleUpPhase_keeps_olds_down d n (snd (splitNew d (store w)))); auto.
    rewrite <- En. destruct (splitNew d (store w)); reflexivity.
  - destruct (afterScaleDown_none d w En)
      as [(e & ->) | [(e & wc & -> & Hst & _) | (w3 & Hst & _ & Hfresh & ->)]];
      cbn [world].
    + split; (destruct w; assumption).
    + rewrite Hst. auto.
    + rewrite classify_split in En. simpl in En.
      destruct (splitNew d (store w)) as [n0 o0] eqn:E0. simpl in En. subst n0.
      destruct (splitNew_none d (store w) o0 E0) as [-> Hno].
      set (c := stamped (newReplicaSet d) (setListFaults (snd (nextOutcome (listFaults w))) w)) in *.
      assert (Hc : matchesTemplate d c = true)
        by (unfold matchesTemplate; simpl; apply String.eqb_refl).
      assert (E3 : splitNew d (store w3) = (Some c, store w))
        by (rewrite Hst; apply splitNew_created; assumption).
      apply (scaleUpPhase_keeps_olds_down d c (store w)); auto.
      * rewrite Hst. apply uniqueNames_created; assumption.
      * unfold oldsDown. rewrite E3. simpl.
        unfold oldsDown in Hd. rewrite E0 in Hd. exact Hd.
Qed.

(** A pass keeps the names of the store unique and the store free of
    overlap. *)
Lemma rolloutRecreate_keeps_noOverlap (d : Deployment) (w : World) :
  uniqueNames (store w) ->
  noOverlap d (store w) = true ->
  uniqueNames (store (world (rolloutRecreate d w)))
  /\ noOverlap d (store (world (rolloutRecreate d w))) = true.
Proof.
  intros Hu Hn.
  set (w1 := setListFaults (snd (nextOutcome (listFaults w))) w).
  assert (Hst1 : store w1 = store w) by (destruct w; reflexivity).
  destruct (scaleDownLoop_run (FilterActiveReplicaSets (snd (classify d (store w)))) d
              (filter_active_not_nil _) false w1) as (Hl & _).
  rewrite Hst1 in Hl.
  destruct (rolloutRecreate_cases d w)
    as [(e & _ & ->) | (_ & [(e & _ & ->) | [(_ & ->) | (_ & _ & _ & Hz & ->)]])];
    cbn [world]; fold w1; unfold scaleDownOldReplicaSetsForRecreate.
  - rewrite Hst1. auto.
  - split.
    + unfold uniqueNames. rewrite (lowered_names _ _ Hl). exact Hu.
    + apply (lowered_noOverlap d _ _ Hl Hn).
  - match goal with |- context [updateDeploymentStatus ?a ?b d ?x] =>
      destruct (updateDeploymentStatus_run a b d x) as (_ & Hs & _) end.
    rewrite Hs. split.
    + unfold uniqueNames. rewrite (lowered_names _ _ Hl). exact Hu.
    + apply (lowered_noOverlap d _ _ Hl Hn).
  - assert (Hd : oldsDown d (store w1))
      by (rewrite Hst1; apply active_at_zero_olds_down; exact Hz).
    rewrite <- Hst1 in Hu |- *.
    destruct (afterScaleDown_keeps_olds_down d w1 Hu Hd) as [A B].
    split; [exact A | apply oldsDown_noOverlap; exact B].
Qed.

(* ------------------------------------------------------------------ *)
(** ** What a finished scale-down phase leaves behind *)

Lemma lowered_in (s s' : list ReplicaSet) (x : ReplicaSet) :
  lowered s s' -> In x s' ->
  exists y, In y s /\ (x = y \/ x = setReplicas y 0).
Proof.
  induction 1 as [|a a' l l' Ha _ IH]; simpl; intros Hin; [contradiction|].
  destruct Hin as [<-|Hin].
  - exists a. split; [left; reflexivity | exact Ha].
  - destruct (IH Hin) as (y & Hy & Hxy). exists y. split; [right; exact Hy | exact Hxy].
Qed.

Lemma withReplicas_named (name : string) (v : Z) (s : list ReplicaSet) (x : ReplicaSet) :
  In x (withReplicas name v s) -> Name x = name -> Spec_Replicas x = v.
Proof.
  unfold withReplicas. intros Hin Hn. apply in_map_iff in Hin.
  destruct Hin as (y & Hy & _). unfold hasName in Hy.
  destruct (String.eqb_spec (Name y) name) as [E|Hne].
  - subst x. reflexivity.
  - subst x. contradiction.
Qed.

(** After a scale-down loop that returned without error, each replica set
    of the list either was at zero when listed or is at zero in the store
    under its name. *)
Lemma scaleDownLoop_zeroes (oldRSs : list (option ReplicaSet)) (d : Deployment) :
  forall (scaled b : bool) (w : World),
    let run := scaleDownLoop oldRSs d scaled w in
    result run = Ok b ->
    forall r, In (Some r) oldRSs ->
      Spec_Replicas r = 0
      \/ (forall x, In x (store (world run)) -> Name x = Name r -> Spec_Replicas x = 0).
Proof.
  induction oldRSs as [|p rest IH]; intros scaled b w run Hok r Hin; [contradiction|].
  subst run. cbn [scaleDownLoop] in *.
  destruct p as [r0|]; [|discriminate].
  destruct (Z.eqb_spec (Spec_Replicas r0) 0) as [Hz|Hnz].
  - destruct Hin as [E|Hin]; [injection E as <-; left; exact Hz|].
    apply (IH scaled b w Hok r Hin).
  - destruct (scale_run r0 0 d w Hnz) as (_ & _ & [(Hr & Hst & _) | (e & Hr & _)]).
    + rewrite (bind_ok _ _ _ _ Hr) in Hok |- *. cbn [world calls result] in Hok |- *.
      set (w1 := world (scaleReplicaSetAndRecordEvent (Some r0) 0 d w)) in *.
      destruct Hin as [E|Hin]; [|apply (IH true b w1 Hok r Hin)].
      injection E as <-. right. intros x Hx Hn.
      assert (Hall : Forall (fun p => p <> None) rest).
      { clear - Hok. revert Hok. generalize true. generalize w1.
        induction rest as [|q l IHl]; intros w0 s Hok; constructor.
        - destruct q; [discriminate|]. cbn in Hok. discriminate.
        - cbn [scaleDownLoop] in Hok. destruct q as [q|]; [|discriminate].
          destruct (Spec_Replicas q =? 0); [apply (IHl _ _ Hok)|].
          destruct (result (scaleReplicaSetAndRecordEvent (Some q) 0 d w0))
            as [[s' p']|e|] eqn:Eq.
          + rewrite (bind_ok _ _ _ _ Eq) in Hok. apply (IHl _ _ Hok).
          + rewrite (bind_err _ _ _ _ Eq) in Hok. discriminate.
          + rewrite (bind_panic _ _ _ Eq) in Hok. discriminate. }
      destruct (scaleDownLoop_run rest d Hall true w1) as (Hl & _).
      destruct (lowered_in _ _ x Hl Hx) as (y & Hy & [-> | ->]).
      * subst w1. rewrite Hst in Hy. apply (withReplicas_named _ _ _ _ Hy Hn).
      * reflexivity.
    + rewrite (bind_err _ _ _ _ Hr) in Hok. discriminate.
Qed.

(** A scale-down phase that returns without error leaves no old replica
    set with a desired replica. *)
Lemma scaleDown_done_olds_down (d : Deployment) (w : World) (b : bool) :
  let run := scaleDownOldReplicaSetsForRecreate
               (FilterActiveReplicaSets (snd (classify d (store w)))) d w in
  result run = Ok b -> oldsDown d (store (world run)).
Proof.
  intros run Hok. unfold oldsDown. apply Forall_forall. intros x Hx.
  destruct (scaleDownLoop_run (FilterActiveReplicaSets (snd (classify d (store w)))) d
              (filter_active_not_nil _) false w) as (Hl & _).
  fold (scaleDownOldReplicaSetsForRecreate
          (FilterActiveReplicaSets (snd (classify d (store w)))) d w) in Hl.
  fold run in Hl.
  destruct (splitNew d (store w)) as [n o] eqn:E.
  destruct (splitNew_lowered d _ _ Hl n o E) as (n' & o' & E' & Hlo & _).
  rewrite E' in Hx. simpl in Hx.
  destruct (lowered_in _ _ x Hlo Hx) as (y & Hy & [-> | ->]); [|simpl; lia].
  assert (Hyold : In (Some y) (snd (classify d (store w))))
    by (apply in_classified_olds; rewrite E; exact Hy).
  destruct (isActive (Some y)) eqn:Ea.
  - assert (Hyf : In (Some y) (FilterActiveReplicaSets (snd (classify d (store w)))))
      by (apply filter_In; auto).
    destruct (scaleDownLoop_zeroes _ d false b w Hok y Hyf) as [Hz|Hz]; [lia|].
    fold (scaleDownOldReplicaSetsForRecreate
            (FilterActiveReplicaSets (snd (classify d (store w)))) d w) in Hz.
    fold run in Hz. rewrite (Hz y); [lia | | reflexivity].
    apply (splitNew_incl d _ n' o' E'). exact Hx.
  - simpl in Ea. apply orb_false_iff in Ea. destruct Ea as [Ea _].
    apply Z.ltb_ge in Ea. exact Ea.
Qed.

(** Over unique names, a pass that gets through its scale-down phase
    leaves no old replica set with a desired replica. *)
Lemma rolloutRecreate_success_olds_down (d : Deployment) (w : World) :
  uniqueNames (store w) ->
  result (rolloutRecreate d w) = Ok tt ->
  noOverlap d (store (world (rolloutRecreate d w))) = true.
Proof.
  intros Hu Hok.
  set (w1 := setListFaults (snd (nextOutcome (listFaults w))) w).
  assert (Hst1 : store w1 = store w) by (destruct w; reflexivity).
  assert (Hdone := scaleDown_done_olds_down d w1 true).
  cbv zeta in Hdone. rewrite Hst1 in Hdone.
  destruct (rolloutRecreate_cases d w)
    as [(e & _ & Hr) | (_ & [(e & _ & Hr) | [(H2 & Hr) | (_ & _ & _ & Hz & Hr)]])];
    cbv zeta in Hr; fold w1 in Hr; rewrite Hr in Hok |- *; cbn [world result] in *.
  - discriminate.
  - discriminate.
  - fold w1 in H2.
    match goal with |- context [updateDeploymentStatus ?a ?b d ?x] =>
      destruct (updateDeploymentStatus_run a b d x) as (_ & Hs & _) end.
    rewrite Hs. apply oldsDown_noOverlap. apply Hdone. exact H2.
  - assert (Hd : oldsDown d (store w1))
      by (rewrite Hst1; apply active_at_zero_olds_down; exact Hz).
    rewrite <- Hst1 in Hu |- *.
    destruct (afterScaleDown_keeps_olds_down d w1 Hu Hd) as [_ B].
    apply oldsDown_noOverlap; exact B.
Qed.

Lemma rolloutRecreate_keeps_names (d : Deployment) (w : World) :
  uniqueNames (store w) -> uniqueNames (store (world (rolloutRecreate d w))).
Proof.
  intros Hu.
  set (w1 := setListFaults (snd (nextOutcome (listFaults w))) w).
  assert (Hst1 : store w1 = store w) by (destruct w; reflexivity).
  destruct (scaleDownLoop_run (FilterActiveReplicaSets (snd (classify d (store w)))) d
              (filter_active_not_nil _) false w1) as (Hl & _).
  rewrite Hst1 in Hl.
  destruct (rolloutRecreate_cases d w)
    as [(e & _ & ->) | (_ & [(e & _ & ->) | [(_ & ->) | (_ & _ & _ & Hz & ->)]])];
    cbn [world]; fold w1; unfold scaleDownOldReplicaSetsForRecreate.
  - rewrite Hst1. exact Hu.
  - unfold uniqueNames. rewrite (lowered_names _ _ Hl). exact Hu.
  - match goal with |- context [updateDeploymentStatus ?a ?b d ?x] =>
      destruct (updateDeploymentStatus_run a b d x) as (_ & Hs & _) end.
    rewrite Hs. unfold uniqueNames. rewrite (lowered_names _ _ Hl). exact Hu.
  - assert (Hd : oldsDown d (store w1))
      by (rewrite Hst1; apply active_at_zero_olds_down; exact Hz).
    rewrite <- Hst1 in Hu.
    apply (afterScaleDown_keeps_olds_down d w1 Hu Hd).
Qed.

Lemma repeatM_world {A} (n : nat) (m : M A) (w : World) :
  fst (repeatM (S n) m w) = fst (repeatM n m (world (m w))).
Proof. simpl. destruct (repeatM n m (world (m w))); reflexivity. Qed.

Lemma passes_keep_noOverlap (d : Deployment) (n : nat) :
  forall w, uniqueNames (store w) -> noOverlap d (store w) = true ->
            noOverlap d (store (fst (repeatM n (rolloutRecreate d) w))) = true.
Proof.
  induction n as [|n IH]; intros w Hu Hn; [exact Hn|].
  rewrite repeatM_world.
  destruct (rolloutRecreate_keeps_noOverlap d w Hu Hn) as [Hu' Hn'].
  apply IH; assumption.
Qed.

(** C1 (amended). The barrier. When the first resolution succeeds and the
    scale-down phase reports a scale-down, the pass ends with the status
    update, returns what the status write returns and writes nothing else.
    Whenever the scale-down phase changed the store, be it that it then
    failed, the pass issues after that phase nothing but status calls: it
    makes no resolution with creation, creates nothing and leaves the
    store as the scale-down phase left it; when the phase failed the pass
    returns its error right after it, with no status write. Consequently,
    over a store with unique names, a pass keeps the store free of overlap,
    also when it fails, and a pass that returns success leaves it free of
    overlap whatever it was; so a store free of overlap stays so after any
    number of passes. *)
Theorem recreate_barrier_and_no_overlap :
  forall (d : Deployment) (w : World),
    let r := rolloutRecreate d w in
    let w1 := setListFaults (snd (nextOutcome (listFaults w))) w in
    let newRS := fst (classify d (store w)) in
    let oldRSs := snd (classify d (store w)) in
    let allRSs := oldRSs ++ [newRS] in
    let r2 := scaleDownOldReplicaSetsForRecreate
                (FilterActiveReplicaSets oldRSs) d w1 in
    (fst (nextOutcome (listFaults w)) = None ->
     (result r2 = Ok true ->
      calls r = GetAllReplicaSets false :: calls r2
                ++ [UpdateDeploymentStatus allRSs newRS;
                    StoreWriteStatus (calculateStatus allRSs newRS d)]
      /\ result r = statusOutcome w
      /\ store (world r) = store (world r2))
     /\ (store (world r2) <> store w ->
         (result r2 = Ok true
          \/ exists e, result r2 = Err e
                       /\ r = mkRun (world r2) (GetAllReplicaSets false :: calls r2) (Err e))
         /\ (exists statusCalls,
                calls r = GetAllReplicaSets false :: calls r2 ++ statusCalls
                /\ Forall (fun c => isStatusCall c = true) statusCalls)
         /\ existsb isResolveWithCreate (calls r) = false
         /\ existsb isStoreCreate (calls r) = false
         /\ store (world r) = store (world r2)))
    /\ (uniqueNames (store w) ->
        noOverlap d (store w) = true \/ result r = Ok tt ->
        uniqueNames (store (world r)) /\ noOverlap d (store (world r)) = true)
    /\ (uniqueNames (store w) ->
        noOverlap d (store w) = true ->
        forall n, noOverlap d (store (fst (repeatM n (rolloutRecreate d) w))) = true).
Proof.
  intros d w r w1 newRS oldRSs allRSs r2.
  assert (Hst1 : store w1 = store w) by (destruct w; reflexivity).
  assert (Hss1 : sameStatus w w1) by (destruct w; split; reflexivity).
  destruct (scaleDownLoop_run (FilterActiveReplicaSets oldRSs) d
              (filter_active_not_nil oldRSs) false w1) as (_ & Hs2 & Hc2 & _).
  fold (scaleDownOldReplicaSetsForRecreate (FilterActiveReplicaSets oldRSs) d w1) in Hs2, Hc2.
  fold r2 in Hs2, Hc2.
  assert (Hbarrier : result r2 = Ok true ->
            r = mkRun (world (updateDeploymentStatus allRSs newRS d (world r2)))
                      (GetAllReplicaSets false :: calls r2
                       ++ calls (updateDeploymentStatus allRSs newRS d (world r2)))
                      (result (updateDeploymentStatus allRSs newRS d (world r2))) ->
            calls r = GetAllReplicaSets false :: calls r2
                      ++ [UpdateDeploymentStatus allRSs newRS;
                          StoreWriteStatus (calculateStatus allRSs newRS d)]
            /\ result r = statusOutcome w
            /\ store (world r) = store (world r2)).
  { intros _ Hr.
    destruct (updateDeploymentStatus_run allRSs newRS d (world r2)) as (Uc & Ust & Ur & _).
    rewrite Hr. cbn [world calls result]. rewrite Uc, Ur, Ust.
    splits; try reflexivity.
    fold (statusOutcome (world r2)).
    rewrite (statusOutcome_same _ _ Hs2). apply (statusOutcome_same _ _ Hss1). }
  assert (Hnone : forall f : Call -> bool,
             (forall c, isScaleToZero c -> f c = false) ->
             existsb f (calls r2) = false)
    by (intros f Hf; apply (existsb_none _ _ _ Hf Hc2)).
  split; [|split].
  - intros Hlist.
    destruct (rolloutRecreate_cases d w)
      as [(e & He & _) | (_ & [(e & H2 & Hr) | [(H2 & Hr) | (H2 & Hw2 & _ & _ & Hr)]])];
      [congruence | | | ];
      cbv zeta in Hr; fold w1 newRS oldRSs allRSs r2 in Hr, H2; fold r in Hr.
    + split; [intros Ht; congruence|]. intros _.
      split; [right; exists e; split; assumption|].
      rewrite Hr. cbn [world calls existsb isResolveWithCreate isStoreCreate orb].
      splits; try reflexivity.
      * exists []. rewrite app_nil_r. split; [reflexivity | constructor].
      * apply Hnone. intros c (n & f & ->). reflexivity.
      * apply Hnone. intros c (n & f & ->). reflexivity.
    + destruct (Hbarrier H2 Hr) as (Bc & Br & Bs).
      split; [intros _; splits; assumption|]. intros _.
      split; [left; exact H2|].
      rewrite Bc. cbn [existsb isResolveWithCreate isStoreCreate orb].
      rewrite !existsb_app. cbn [existsb isResolveWithCreate isStoreCreate orb].
      splits.
      * eexists. split; [reflexivity | repeat constructor].
      * rewrite Hnone; [reflexivity|]. intros c (n & f & ->). reflexivity.
      * rewrite Hnone; [reflexivity|]. intros c (n & f & ->). reflexivity.
      * exact Bs.
    + split; [intros Ht; congruence|]. intros Hchg. exfalso. apply Hchg.
      fold w1 oldRSs in Hw2. fold r2 in Hw2. rewrite Hw2. exact Hst1.
  - intros Hu [Hn|Hok].
    + apply rolloutRecreate_keeps_noOverlap; assumption.
    + split; [apply rolloutRecreate_keeps_names; assumption|].
      apply rolloutRecreate_success_olds_down; assumption.
  - intros Hu Hn n. apply passes_keep_noOverlap; assumption.
Qed.

Lemma recreate_barrier_and_no_overlap_witness :
  result (rolloutRecreate web threeOld) = statusOutcome threeOld
  /\ existsb isStoreCreate (calls (rolloutRecreate web threeOld)) = false
  /\ noOverlap web (store (world (rolloutRecreate web threeOld))) = true
  /\ noOverlap web (store (fst (repeatM 3 (rolloutRecreate web) threeOld))) = true.
Proof.
  destruct (recreate_barrier_and_no_overlap web threeOld) as (H1 & H2 & H3).
  destruct (H1 eq_refl) as (Ha & Hb).
  destruct (Ha eq_refl) as (_ & Hr & _).
  assert (Hchg : store (world (scaleDownOldReplicaSetsForRecreate
                   (FilterActiveReplicaSets (snd (classify web (store threeOld)))) web
                   (setListFaults (snd (nextOutcome (listFaults threeOld))) threeOld)))
                 <> store threeOld) by (vm_compute; discriminate).
  destruct (Hb Hchg) as (_ & _ & _ & Hc & _).
  assert (Hu : uniqueNames (store threeOld)) by unique_names.
  destruct (H2 Hu (or_introl eq_refl)) as (_ & Hn).
  split; [exact Hr | split; [exact Hc | split; [exact Hn | exact (H3 Hu eq_refl 3%nat)]]].
Defined.

(** C1 (as stated) fails. With three old replica sets running and the
    second conditional update hitting a conflict, the first old replica set
    is scaled down, yet the pass returns the conflict and makes no status
    call. With a failing status write, the old replica set is scaled down
    and the pass returns the error of the write. From a store where an old
    and the new replica set both run, a pass whose scale-down fails leaves
    the overlap in the store. *)
Lemma barrier_as_stated_fails :
  (store (world (rolloutRecreate web secondScaleFails))
     = [setReplicas webV2 0; webV1; webV0]
   /\ result (rolloutRecreate web secondScaleFails) = Err ConflictError
   /\ existsb isStatusCall (calls (rolloutRecreate web secondScaleFails)) = false
   /\ status (world (rolloutRecreate web secondScaleFails)) = None)
  /\ (store (world (rolloutRecreate web statusWriteFails)) = [setReplicas webV2 0]
      /\ result (rolloutRecreate web statusWriteFails) = Err TransientStoreError
      /\ status (world (rolloutRecreate web statusWriteFails)) = None)
  /\ (noOverlap web (store overlapping) = false
      /\ noOverlap web (store (world (rolloutRecreate web overlapping))) = false).
Proof. vm_compute. repeat split. Qed.

Lemma scale_down_error_aborts_pass_witness :
  result (scaleDownOldReplicaSetsForRecreate
            ([Some webV2] ++ Some webV1 :: [Some webV0]) web secondScaleFails)
    = Err ConflictError
  /\ store (world (scaleDownOldReplicaSetsForRecreate
                     ([Some webV2] ++ Some webV1 :: [Some webV0]) web secondScaleFails))
     = [setReplicas webV2 0; webV1; webV0]
  /\ result (rolloutRecreate web secondScaleFails) = Err ConflictError
  /\ existsb isStatusCall (calls (rolloutRecreate web secondScaleFails)) = false
  /\ existsb isStoreCreate (calls (rolloutRecreate web secondScaleFails)) = false
  /\ status (world (rolloutRecreate web secondScaleFails)) = status secondScaleFails.
Proof.
  destruct scale_down_error_aborts_pass as [H1 H2].
  assert (Hnz : Spec_Replicas webV1 <> 0) by (simpl; lia).
  destruct (H1 [Some webV2] webV1 [Some webV0] web secondScaleFails true ConflictError
              eq_refl Hnz eq_refl) as (Ha & _ & _).
  destruct (H2 web secondScaleFails None [Some webV2; Some webV1; Some webV0] ConflictError
              eq_refl eq_refl) as (Hb & _ & _ & Hc & Hd & He).
  rewrite Ha, Hb.
  split; [reflexivity | split; [reflexivity | split; [reflexivity|]]].
  rewrite Hb in Hc, Hd, He.
  split; [exact Hd | split; [exact Hc | exact He]].
Defined.

(* ------------------------------------------------------------------ *)
(** ** The three kinds of pass *)

Lemma existsb_some {A} (P : A -> Prop) (f : A -> bool) (l : list A) :
  (forall x, P x -> f x = true) -> Forall P l -> l <> [] -> existsb f l = true.
Proof.
  intros Hf Hall Hne. destruct Hall as [|x l Hx _]; [congruence|].
  simpl. rewrite (Hf x Hx). reflexivity.
Qed.

Lemma scale_to_zero_is_update (c : Call) : isScaleToZero c -> isStoreUpdate c = true.
Proof. intros (n & f & ->). reflexivity. Qed.

Lemma scale_to_zero_not_cleanup (c : Call) : isScaleToZero c -> isCleanup c = false.
Proof. intros (n & f & ->). reflexivity. Qed.

Lemma scale_to_zero_not_status (c : Call) : isScaleToZero c -> isStatusCall c = false.
Proof. intros (n & f & ->). reflexivity. Qed.

Lemma scale_to_zero_not_sync (c : Call) : isScaleToZero c -> isSyncStatus c = false.
Proof. intros (n & f & ->). reflexivity. Qed.

Lemma delete_not_update (c : Call) : isStoreDelete c -> isStoreUpdate c = false.
Proof. intros (n & ->). reflexivity. Qed.

Lemma delete_not_status (c : Call) : isStoreDelete c -> isStatusCall c = false.
Proof. intros (n & ->). reflexivity. Qed.

(** Lines 53-66 with a new replica set at hand, by kind; [pre] is what the
    pass issued before, none of it a cleanup, an update or a status
    call. *)
Lemma scaleUpPhase_kinds (d : Deployment) (n : ReplicaSet) (oldRSs allRSs : list (option ReplicaSet))
    (w0 w : World) (pre : list Call) :
  sameStatus w0 w ->
  existsb isCleanup pre = false ->
  existsb isStoreUpdate pre = false ->
  existsb isStatusCall pre = false ->
  let ru := scaleUpPhase d (Some n) oldRSs allRSs w in
  let r := mkRun (world ru) (pre ++ calls ru) (result ru) in
  aborted r \/ progressed w0 r \/ steady d w0 r.
Proof.
  intros Hs Hp1 Hp2 Hp3 ru r.
  destruct (scaleUpPhase_some d n oldRSs allRSs w)
    as [(_ & (dels & Hc & Hd) & Hr & _) | [(_ & Hc & Hr & _) | (_ & Hc & (e & Hr) & _)]];
    fold ru in Hc, Hr.
  - right; right. unfold steady, r. cbn [calls result]. rewrite Hc, Hr.
    rewrite !existsb_app. cbn [existsb isCleanup isStoreUpdate orb].
    rewrite !existsb_app. cbn [existsb isCleanup isStoreUpdate orb].
    rewrite Hp1, Hp2, (existsb_none _ _ _ delete_not_update Hd).
    splits; try reflexivity.
    + apply (statusOutcome_same _ _ Hs).
    + exists (pre ++ CleanupDeployment oldRSs :: dels), allRSs, (Some n). split.
      * rewrite <- app_assoc. reflexivity.
      * rewrite existsb_app. cbn [existsb isStatusCall orb].
        rewrite Hp3, (existsb_none _ _ _ delete_not_status Hd). reflexivity.
  - right; left. unfold progressed, r. cbn [calls result]. rewrite Hc, Hr.
    rewrite !existsb_app.
    cbn [existsb isCleanup isStoreUpdate isSyncStatus isStatusCall orb].
    rewrite Hp1. splits; try reflexivity.
    + apply orb_true_r.
    + rewrite orb_false_r. clear - Hp3. induction pre as [|c l IH]; [reflexivity|].
      simpl in *. apply orb_false_iff in Hp3. destruct Hp3 as [Hc Hl].
      rewrite (IH Hl). destruct c; simpl in *; congruence.
    + apply orb_true_r.
    + apply (statusOutcome_same _ _ Hs).
  - left. unfold aborted, r. cbn [calls result]. rewrite Hc, Hr.
    rewrite !existsb_app. cbn [existsb isCleanup isStatusCall orb].
    rewrite Hp1, Hp3. splits; try reflexivity. exists e; reflexivity.
Qed.

Lemma rolloutRecreate_kinds (d : Deployment) (w : World) :
  let r := rolloutRecreate d w in
  aborted r \/ progressed w r \/ steady d w r.
Proof.
  intros r.
  set (w1 := setListFaults (snd (nextOutcome (listFaults w))) w).
  assert (Hss1 : sameStatus w w1) by (destruct w; split; reflexivity).
  set (oldRSs := snd (classify d (store w))).
  destruct (scaleDownLoop_run (FilterActiveReplicaSets oldRSs) d
              (filter_active_not_nil oldRSs) false w1) as (_ & Hs2 & Hc2 & _ & _ & He2 & Ht2).
  fold (scaleDownOldReplicaSetsForRecreate (FilterActiveReplicaSets oldRSs) d w1)
    in Hs2, Hc2, He2, Ht2.
  destruct (rolloutRecreate_cases d w)
    as [(e & _ & Hr) | (_ & [(e & H2 & Hr) | [(H2 & Hr) | (_ & _ & _ & _ & Hr)]])];
    cbv zeta in Hr; fold w1 oldRSs in Hr; fold r in Hr.
  - left. rewrite Hr. unfold aborted. cbn [calls result].
    splits; try reflexivity. exists e; reflexivity.
  - fold w1 oldRSs in H2. left. rewrite Hr. unfold aborted. cbn [calls result existsb isCleanup isStatusCall orb].
    rewrite (existsb_none _ _ _ scale_to_zero_not_cleanup Hc2),
            (existsb_none _ _ _ scale_to_zero_not_status Hc2).
    splits; try reflexivity. exists e; reflexivity.
  - fold w1 oldRSs in H2. right; left. rewrite Hr. unfold progressed. cbn [calls result].
    match goal with |- context [updateDeploymentStatus ?a ?b d ?x] =>
      destruct (updateDeploymentStatus_run a b d x) as (Uc & _ & Ur & _) end.
    rewrite Uc, Ur. cbn [existsb isCleanup isStoreUpdate isSyncStatus isStatusCall orb].
    rewrite !existsb_app.
    cbn [existsb isCleanup isStoreUpdate isSyncStatus isStatusCall orb].
    rewrite (existsb_none _ _ _ scale_to_zero_not_cleanup Hc2),
            (existsb_none _ _ _ scale_to_zero_not_sync Hc2),
            (existsb_some _ _ _ scale_to_zero_is_update Hc2 (Ht2 eq_refl H2)).
    splits; try reflexivity; try apply orb_true_r.
    fold (statusOutcome (world (scaleDownOldReplicaSetsForRecreate
                                  (FilterActiveReplicaSets oldRSs) d w1))).
    rewrite (statusOutcome_same _ _ Hs2). apply (statusOutcome_same _ _ Hss1).
  - assert (Hst1 : store w1 = store w) by (destruct w; reflexivity).
    destruct (fst (classify d (store w))) as [n|] eqn:En.
    + rewrite afterScaleDown_some in Hr. rewrite Hr.
      apply (scaleUpPhase_kinds d n oldRSs (oldRSs ++ [Some n]) w w1 [GetAllReplicaSets false]);
        auto.
    + assert (En1 : fst (classify d (store w1)) = None) by (rewrite Hst1; exact En).
      assert (Ho1 : snd (classify d (store w1)) = oldRSs) by (rewrite Hst1; reflexivity).
      destruct (afterScaleDown_none d w1 En1)
        as [(e & Ha) | [(e & wc & Ha & _) | (w3 & _ & Hs3 & _ & Ha)]];
        cbv zeta in Ha; rewrite Ho1 in Ha; rewrite Ha in Hr; cbn [world calls result] in Hr.
      * left. rewrite Hr. unfold aborted. cbn [calls result].
        splits; try reflexivity. exists e; reflexivity.
      * left. rewrite Hr. unfold aborted. cbn [calls result].
        splits; try reflexivity. exists e; reflexivity.
      * rewrite Hr.
        match goal with |- context [scaleUpPhase d (Some ?c) oldRSs ?a w3] =>
          apply (scaleUpPhase_kinds d c oldRSs a w w3
                   [GetAllReplicaSets false; GetAllReplicaSets true;
                    StoreCreate (newReplicaSet d)]) end;
          auto; eapply sameStatus_trans; eassumption.
Qed.

(* ------------------------------------------------------------------ *)
(** ** Passes over a stable store *)

Lemma filter_keeps_at_zero (l : list (option ReplicaSet)) :
  Forall atZero l -> Forall atZero (FilterActiveReplicaSets l).
Proof.
  intros H. apply Forall_forall. intros p Hin.
  apply filter_In in Hin. rewrite Forall_forall in H. apply H, Hin.
Qed.

(** Over a stable store a pass either fails at its resolution or issues
    the resolution, the cleanup with its deletes and the status sync, and
    only removes deletable old replica sets. *)
Lemma stable_pass (d : Deployment) (w : World) (n : ReplicaSet) :
  fst (classify d (store w)) = Some n ->
  Spec_Replicas n = d_Spec_Replicas d ->
  Forall atZero (snd (classify d (store w))) ->
  let r := rolloutRecreate d w in
  let oldRSs := snd (classify d (store w)) in
  let allRSs := oldRSs ++ [Some n] in
  (exists e, fst (nextOutcome (listFaults w)) = Some e
             /\ r = mkRun (setListFaults (snd (nextOutcome (listFaults w))) w)
                          [GetAllReplicaSets false] (Err e))
  \/ (fst (nextOutcome (listFaults w)) = None
      /\ exists dels names,
           calls r = GetAllReplicaSets false :: CleanupDeployment oldRSs :: dels
                     ++ [SyncDeploymentStatus allRSs (Some n);
                         StoreWriteStatus (calculateStatus allRSs (Some n) d)]
           /\ Forall isStoreDelete dels
           /\ result r = statusOutcome w
           /\ (forall x, In x names -> deletable oldRSs x)
           /\ store (world r) = removeNames names (store w)).
Proof.
  intros En Hn Hz r oldRSs allRSs.
  set (w1 := setListFaults (snd (nextOutcome (listFaults w))) w).
  assert (Hst1 : store w1 = store w) by (destruct w; reflexivity).
  assert (Hss1 : sameStatus w w1) by (destruct w; split; reflexivity).
  assert (H2 : scaleDownOldReplicaSetsForRecreate (FilterActiveReplicaSets oldRSs) d w1
               = mkRun w1 [] (Ok false))
    by (apply scaleDownLoop_at_zero, filter_keeps_at_zero, Hz).
  destruct (rolloutRecreate_cases d w)
    as [(e & He & Hr) | (Hl & [(e & H2' & Hr) | [(H2' & Hr) | (H2' & _ & _ & _ & Hr)]])];
    cbv zeta in Hr; fold w1 oldRSs in Hr; fold r in Hr; try (fold w1 oldRSs in H2').
  - left. exists e. split; assumption.
  - rewrite H2 in H2'. discriminate.
  - rewrite H2 in H2'. discriminate.
  - right. split; [exact Hl|].
    rewrite En, afterScaleDown_some in Hr. fold allRSs in Hr.
    destruct (scaleUpPhase_some d n oldRSs allRSs w1)
      as [(_ & (dels & Hc & Hd) & Hres & names & Hnames & Hst)
         | [(Hne & _) | (Hne & _)]]; [|contradiction|contradiction].
    exists dels, names. rewrite Hr. cbn [world calls result].
    rewrite Hc, Hres, Hst, Hst1.
    splits; try reflexivity; try assumption.
Qed.



(* ------------------------------------------------------------------ *)
(** ** Computations that do not look at the delete outcomes *)

Lemma ignoresDeletes_bind {A B} (m : M A) (f : A -> M B) :
  ignoresDeletes m -> (forall a, ignoresDeletes (f a)) -> ignoresDeletes (bind m f).
Proof.
  intros Hm Hf fs w. unfold bind. rewrite Hm. unfold withDeletes.
  destruct (m w) as [w1 c1 [a|e|]]; cbn [world calls result]; try reflexivity.
  rewrite Hf. unfold withDeletes. destruct (f a w1); reflexivity.
Qed.

Lemma ignoresDeletes_ret {A} (a : A) : ignoresDeletes (ret a).
Proof. intros fs w. reflexivity. Qed.

Lemma ignoresDeletes_call (c : Call) : ignoresDeletes (call c).
Proof. intros fs w. reflexivity. Qed.

Lemma ignoresDeletes_storeList : ignoresDeletes storeList.
Proof.
  intros fs [st sts ev ck lf cf uf ef sf df].
  destruct lf as [|[e|] lf]; reflexivity.
Qed.

Lemma ignoresDeletes_storeCreate (rs : ReplicaSet) : ignoresDeletes (storeCreate rs).
Proof.
  intros fs w. rewrite !storeCreate_run. cbv zeta.
  destruct w as [st sts ev ck lf cf uf ef sf df]. cbn.
  destruct cf as [|[e|] cf]; cbn; try reflexivity.
  all: destruct (existsb (hasName (Name rs)) st); reflexivity.
Qed.

Lemma ignoresDeletes_resolve (d : Deployment) (create : bool) :
  ignoresDeletes (getAllReplicaSetsAndSyncRevision d create).
Proof.
  unfold getAllReplicaSetsAndSyncRevision.
  apply ignoresDeletes_bind; [apply ignoresDeletes_call|]. intros _.
  apply ignoresDeletes_bind; [apply ignoresDeletes_storeList|]. intros rss.
  destruct (classify d rss) as [[n|] o]; [apply ignoresDeletes_ret|].
  destruct create; [|apply ignoresDeletes_ret].
  apply ignoresDeletes_bind; [apply ignoresDeletes_storeCreate|]. intros c.
  apply ignoresDeletes_ret.
Qed.

Lemma ignoresDeletes_scale (rs : option ReplicaSet) (n : Z) (d : Deployment) :
  ignoresDeletes (scaleReplicaSetAndRecordEvent rs n d).
Proof.
  intros fs w. unfold scaleReplicaSetAndRecordEvent.
  destruct rs as [r|]; [|reflexivity].
  destruct (Spec_Replicas r =? n); [reflexivity|].
  destruct w as [st sts ev ck lf cf uf ef sf df].
  unfold storeUpdateReplicas, recordEvent, consult.
  unfold bind, call, get, modify, ret, fail, discard.
  destruct (existsb (hasName (Name r)) st) eqn:Ex;
    destruct uf as [|[e|] uf]; destruct ef as [|[e'|] ef];
    cbn; rewrite ?Ex; reflexivity.
Qed.

Lemma ignoresDeletes_scaleDownLoop (oldRSs : list (option ReplicaSet)) (d : Deployment) :
  forall scaled, ignoresDeletes (scaleDownLoop oldRSs d scaled).
Proof.
  induction oldRSs as [|p l IH]; intros scaled; cbn [scaleDownLoop].
  - apply ignoresDeletes_ret.
  - destruct p as [r|]; [|intros fs w; reflexivity].
    destruct (Spec_Replicas r =? 0); [apply IH|].
    apply ignoresDeletes_bind; [apply ignoresDeletes_scale|].
    intros [s p]. apply IH.
Qed.

Lemma resultIgnoresDeletes_bind {A B} (m : M A) (f : A -> M B) :
  ignoresDeletes m -> (forall a, resultIgnoresDeletes (f a)) ->
  resultIgnoresDeletes (bind m f).
Proof.
  intros Hm Hf fs w. unfold bind. rewrite Hm. unfold withDeletes.
  destruct (m w) as [w1 c1 [a|e|]]; cbn [world calls result]; try reflexivity.
  specialize (Hf a fs w1).
  destruct (f a (setDeleteFaults fs w1)), (f a w1). exact Hf.
Qed.

Lemma statusOutcome_deletes (fs : Script) (w : World) :
  statusOutcome (setDeleteFaults fs w) = statusOutcome w.
Proof. destruct w; reflexivity. Qed.

Lemma resultIgnoresDeletes_update (allRSs : list (option ReplicaSet))
    (newRS : option ReplicaSet) (d : Deployment) :
  resultIgnoresDeletes (updateDeploymentStatus allRSs newRS d).
Proof.
  intros fs w.
  destruct (updateDeploymentStatus_run allRSs newRS d w) as (_ & _ & -> & _).
  destruct (updateDeploymentStatus_run allRSs newRS d (setDeleteFaults fs w))
    as (_ & _ & -> & _).
  apply statusOutcome_deletes.
Qed.

(** Cleanup and status sync return what the status write returns. *)
Lemma cleanup_then_sync_result (oldRSs allRSs : list (option ReplicaSet))
    (newRS : option ReplicaSet) (d : Deployment) (w : World) :
  result ((discard (cleanupDeployment oldRSs d) ;;
           syncDeploymentStatus allRSs newRS d) w) = statusOutcome w.
Proof.
  destruct (cleanupDeployment_run oldRSs d w) as (Hs & Hp & _).
  assert (Hd := discard_run (cleanupDeployment oldRSs d) w).
  assert (Hr : result (discard (cleanupDeployment oldRSs d) w) = Ok tt).
  { rewrite Hd. cbn [result].
    destruct (result (cleanupDeployment oldRSs d w)) as [[]|e|]; [reflexivity..|congruence]. }
  rewrite (bind_ok _ _ _ _ Hr). cbn [result]. rewrite Hd. cbn [world].
  destruct (syncDeploymentStatus_run allRSs newRS d (world (cleanupDeployment oldRSs d w)))
    as (_ & _ & -> & _).
  apply (statusOutcome_same _ _ Hs).
Qed.

Lemma resultIgnoresDeletes_scaleUpPhase (d : Deployment) (newRS : option ReplicaSet)
    (oldRSs allRSs : list (option ReplicaSet)) :
  resultIgnoresDeletes (scaleUpPhase d newRS oldRSs allRSs).
Proof.
  unfold scaleUpPhase. apply resultIgnoresDeletes_bind.
  - unfold scaleUpNewReplicaSetForRecreate.
    apply ignoresDeletes_bind; [apply ignoresDeletes_scale|].
    intros [s p]. apply ignoresDeletes_ret.
  - intros [|]; [apply resultIgnoresDeletes_update|].
    intros fs w. rewrite !cleanup_then_sync_result. apply statusOutcome_deletes.
Qed.

Lemma resultIgnoresDeletes_rollout (d : Deployment) :
  resultIgnoresDeletes (rolloutRecreate d).
Proof.
  rewrite rolloutRecreate_phases.
  apply resultIgnoresDeletes_bind; [apply ignoresDeletes_resolve|]. intros [newRS oldRSs].
  apply resultIgnoresDeletes_bind; [apply ignoresDeletes_scaleDownLoop|]. intros [|].
  - apply resultIgnoresDeletes_update.
  - apply resultIgnoresDeletes_bind.
    + unfold ensureNewReplicaSet. destruct newRS as [n|]; [apply ignoresDeletes_ret|].
      apply ignoresDeletes_bind; [apply ignoresDeletes_resolve|].
      intros [n o]. apply ignoresDeletes_ret.
    + intros [[n o] a]. apply resultIgnoresDeletes_scaleUpPhase.
Qed.

(** C8. Cleanup failure is swallowed. In lines 53-66, when the scale-up
    reports no change and [cleanupDeployment] returns an error, the pass
    goes on to the status sync in the world the cleanup left and returns
    what the sync returns. A pass that invoked the cleanup returns what its
    status write returns. And the result of a pass is the same however the
    deletes of the cleanup come out. *)
Theorem cleanup_failure_is_swallowed :
  (forall (d : Deployment) (newRS : option ReplicaSet)
          (oldRSs allRSs : list (option ReplicaSet)) (w : World) (e : Error),
      let ru := scaleUpNewReplicaSetForRecreate newRS d w in
      let rc := cleanupDeployment oldRSs d (world ru) in
      let rs := syncDeploymentStatus allRSs newRS d (world rc) in
      result ru = Ok false ->
      result rc = Err e ->
      scaleUpPhase d newRS oldRSs allRSs w
      = mkRun (world rs) (calls ru ++ calls rc ++ calls rs) (result rs))
  /\ (forall (d : Deployment) (w : World),
         existsb isCleanup (calls (rolloutRecreate d w)) = true ->
         result (rolloutRecreate d w) = statusOutcome w)
  /\ (forall (d : Deployment) (w : World) (fs : Script),
         result (rolloutRecreate d (setDeleteFaults fs w))
         = result (rolloutRecreate d w)).
Proof.
  split; [|split].
  - intros d newRS oldRSs allRSs w e ru rc rs Hu Hc.
    unfold scaleUpPhase. fold ru. rewrite (bind_ok _ _ _ _ Hu).
    assert (Hd := discard_run (cleanupDeployment oldRSs d) (world ru)).
    fold rc in Hd. rewrite Hc in Hd.
    assert (Hr : result (discard (cleanupDeployment oldRSs d) (world ru)) = Ok tt)
      by (rewrite Hd; reflexivity).
    rewrite (bind_ok _ _ _ _ Hr). rewrite Hd. reflexivity.
  - intros d w Hc.
    destruct (rolloutRecreate_kinds d w)
      as [(Hc' & _) | [(Hc' & _) | (_ & _ & Hr & _)]]; [congruence | congruence | exact Hr].
  - intros d w fs. apply resultIgnoresDeletes_rollout.
Qed.

(* ------------------------------------------------------------------ *)
(** ** The nil entry of the aggregated list *)

Lemma classify_no_match (d : Deployment) (s : list ReplicaSet) :
  Forall (fun rs => matchesTemplate d rs = false) s ->
  fst (classify d s) = None.
Proof.
  intros H. rewrite classify_split, (splitNew_no_match d s H). reflexivity.
Qed.

Lemma in_calls_existsb (f : Call -> bool) (c : Call) (l : list Call) :
  In c l -> f c = true -> existsb f l = true.
Proof. intros Hin Hf. apply existsb_exists. exists c. auto. Qed.

(** C9. Nil entry in the aggregated list. When no replica set of the store
    matches the current template and the first resolution succeeds, a pass
    whose scale-down reports a change ends with the status update called
    on the old replica sets followed by one nil entry, with nil as new
    replica set; and every status update of a pass that made no resolution
    with creation is that call. *)
Theorem nil_entry_in_barrier_status_update :
  forall (d : Deployment) (w : World),
    let r := rolloutRecreate d w in
    let w1 := setListFaults (snd (nextOutcome (listFaults w))) w in
    let oldRSs := snd (classify d (store w)) in
    let r2 := scaleDownOldReplicaSetsForRecreate
                (FilterActiveReplicaSets oldRSs) d w1 in
    Forall (fun rs => matchesTemplate d rs = false) (store w) ->
    (fst (nextOutcome (listFaults w)) = None ->
     result r2 = Ok true ->
     calls r = GetAllReplicaSets false :: calls r2
               ++ [UpdateDeploymentStatus (oldRSs ++ [None]) None;
                   StoreWriteStatus (calculateStatus (oldRSs ++ [None]) None d)])
    /\ (forall allRSs newRS,
           In (UpdateDeploymentStatus allRSs newRS) (calls r) ->
           existsb isResolveWithCreate (calls r) = false ->
           allRSs = oldRSs ++ [None] /\ newRS = None /\ In None allRSs).
Proof.
  intros d w r w1 oldRSs r2 Hno.
  assert (En : fst (classify d (store w)) = None) by (apply classify_no_match, Hno).
  assert (Hst1 : store w1 = store w) by (destruct w; reflexivity).
  destruct (scaleDownLoop_run (FilterActiveReplicaSets oldRSs) d
              (filter_active_not_nil oldRSs) false w1) as (_ & _ & Hc2 & _).
  fold (scaleDownOldReplicaSetsForRecreate (FilterActiveReplicaSets oldRSs) d w1) in Hc2.
  fold r2 in Hc2.
  assert (Hnot : forall a b, ~ In (UpdateDeploymentStatus a b) (calls r2)).
  { intros a b Hin. rewrite Forall_forall in Hc2.
    destruct (Hc2 _ Hin) as (n & f & E). discriminate. }
  split.
  - intros Hl H2.
    destruct (rolloutRecreate_cases d w)
      as [(e & He & _) | (_ & [(e & H2' & _) | [(_ & Hr) | (H2' & _)]])];
      try (fold w1 oldRSs r2 in H2'); [congruence | congruence | | congruence].
    cbv zeta in Hr. fold w1 oldRSs r2 in Hr. fold r in Hr. rewrite Hr, En.
    destruct (updateDeploymentStatus_run (oldRSs ++ [None]) None d (world r2))
      as (Uc & _).
    cbn [calls]. rewrite Uc. reflexivity.
  - intros allRSs newRS Hin Hnc.
    destruct (rolloutRecreate_cases d w)
      as [(e & _ & Hr) | (_ & [(e & _ & Hr) | [(_ & Hr) | (_ & _ & _ & _ & Hr)]])];
      cbv zeta in Hr; fold w1 oldRSs r2 in Hr; fold r in Hr; rewrite Hr in Hin, Hnc;
      cbn [calls] in Hin, Hnc.
    + destruct Hin as [E|[]]. discriminate.
    + destruct Hin as [E|Hin]; [discriminate|]. exfalso. apply (Hnot _ _ Hin).
    + rewrite En in Hin.
      destruct (updateDeploymentStatus_run (oldRSs ++ [None]) None d (world r2))
        as (Uc & _).
      rewrite Uc in Hin. destruct Hin as [E|Hin]; [discriminate|].
      apply in_app_or in Hin. destruct Hin as [Hin|Hin]; [exfalso; apply (Hnot _ _ Hin)|].
      destruct Hin as [E|[E|[]]]; [|discriminate].
      injection E as <- <-. splits; try reflexivity.
      apply in_or_app. right. left. reflexivity.
    + exfalso. rewrite En in Hnc.
      assert (En1 : fst (classify d (store w1)) = None) by (rewrite Hst1; exact En).
      assert (Ho1 : snd (classify d (store w1)) = oldRSs) by (rewrite Hst1; reflexivity).
      destruct (afterScaleDown_none d w1 En1)
        as [(e & Ha) | [(e & wc & Ha & _) | (w3 & _ & _ & _ & Ha)]];
        cbv zeta in Ha; rewrite Ho1 in Ha; rewrite Ha in Hnc;
        cbn [calls existsb isResolveWithCreate orb] in Hnc; discriminate.
Qed.

(* ------------------------------------------------------------------ *)
(** ** Creation of the new replica set *)

Lemma scale_to_zero_not_create (c : Call) : isScaleToZero c -> isStoreCreate c = false.
Proof. intros (n & f & ->). reflexivity. Qed.

Lemma delete_not_create (c : Call) : isStoreDelete c -> isStoreCreate c = false.
Proof. intros (n & ->). reflexivity. Qed.

Lemma scaleUpPhase_no_create (d : Deployment) (n : ReplicaSet)
    (oldRSs allRSs : list (option ReplicaSet)) (w : World) :
  existsb isStoreCreate (calls (scaleUpPhase d (Some n) oldRSs allRSs w)) = false.
Proof.
  destruct (scaleUpPhase_some d n oldRSs allRSs w)
    as [(_ & (dels & Hc & Hd) & _) | [(_ & Hc & _) | (_ & Hc & _)]]; rewrite Hc.
  - cbn [existsb isStoreCreate orb]. rewrite existsb_app.
    rewrite (existsb_none _ _ _ delete_not_create Hd). reflexivity.
  - reflexivity.
  - reflexivity.
Qed.

Lemma removeNames_keeps (names : list string) (s : list ReplicaSet) (x : ReplicaSet) :
  In x s -> ~ In (Name x) names -> In x (removeNames names s).
Proof.
  intros Hin Hn. apply filter_In. split; [exact Hin|].
  apply negb_true_iff. destruct (existsb _ names) eqn:E; [|reflexivity].
  apply existsb_exists in E. destruct E as (n & Hnin & Hh).
  unfold hasName in Hh. apply String.eqb_eq in Hh. subst n. contradiction.
Qed.

(** Lines 53-66 on a replica set just created at zero: unless the
    Deployment asks for zero replicas they issue its conditional update from
    zero to the desired count, and when they return success it is in the
    store with that count. *)
Lemma scaleUpPhase_created (d : Deployment) (c : ReplicaSet)
    (s : list ReplicaSet) (w3 : World) :
  Spec_Replicas c = 0 ->
  store w3 = s ++ [c] ->
  existsb (hasName (Name c)) s = false ->
  let oldRSs := snd (classify d s) in
  let ru := scaleUpPhase d (Some c) oldRSs (oldRSs ++ [Some c]) w3 in
  (d_Spec_Replicas d <> 0 ->
   In (StoreUpdate (Name c) 0 (d_Spec_Replicas d)) (calls ru))
  /\ (result ru = Ok tt ->
      exists created, In created (store (world ru))
                      /\ Name created = Name c
                      /\ TemplateHash created = TemplateHash c
                      /\ Spec_Replicas created = d_Spec_Replicas d).
Proof.
  intros Hc0 Hst Hfresh oldRSs ru.
  destruct (scaleUpPhase_some d c oldRSs (oldRSs ++ [Some c]) w3)
    as [(Ht & _ & _ & names & Hnames & Hs)
       | [(Hne & Hc & _ & Hs & _) | (_ & Hc & (e & He) & _)]];
    try (fold ru in Hs); try (fold ru in Hc).
  - split; [intros Hnz; congruence|]. intros _.
    exists c. splits; try reflexivity; [|exact Ht].
    rewrite Hs, Hst. apply removeNames_keeps.
    + apply in_or_app. right. left. reflexivity.
    + intros Hin. destruct (Hnames _ Hin) as (r & Hr & Hn & _).
      apply in_classified_olds in Hr.
      apply (existsb_hasName_false _ _ Hfresh). rewrite <- Hn. apply in_map.
      destruct (splitNew d s) as [n0 o0] eqn:E0.
      apply (splitNew_incl d s n0 o0 E0). exact Hr.
  - split; [intros _; rewrite Hc, Hc0; left; reflexivity|]. intros _.
    exists (setReplicas c (d_Spec_Replicas d)). splits; try reflexivity.
    rewrite Hs, Hst. unfold withReplicas. apply in_map_iff. exists c. split.
    + unfold hasName. rewrite String.eqb_refl. reflexivity.
    + apply in_or_app. right. left. reflexivity.
  - fold ru in He. split; [intros _; rewrite Hc, Hc0; left; reflexivity|].
    intros Hok. congruence.
Qed.

(** C6. Deferred creation. The first resolution of a pass asks for no
    creation, issues no create and leaves the store as it is. A create is
    issued only for the replica set of the current template, at zero
    desired replicas, in a pass over a store in which no replica set
    matches the template and whose scale-down phase issued nothing and
    reported no change; it comes right after the second resolution, which
    asks for creation, and is the only create of the pass. Once the replica
    set is created (the store holds one that matches the template), its
    conditional update from zero to the Deployment's desired count is
    issued, unless that count is zero; and when the pass returns success
    the created replica set is in the store with the Deployment's desired
    count. *)
Theorem creation_is_deferred :
  forall (d : Deployment) (w : World),
    let r := rolloutRecreate d w in
    let r1 := getAllReplicaSetsAndSyncRevision d false w in
    let r2 := scaleDownOldReplicaSetsForRecreate
                (FilterActiveReplicaSets (snd (classify d (store w)))) d (world r1) in
    (calls r1 = [GetAllReplicaSets false]
     /\ store (world r1) = store w
     /\ exists rest, calls r = GetAllReplicaSets false :: rest)
    /\ (forall c, In (StoreCreate c) (calls r) ->
          c = newReplicaSet d
          /\ Spec_Replicas c = 0
          /\ Forall (fun rs => matchesTemplate d rs = false) (store w)
          /\ r2 = mkRun (world r1) [] (Ok false)
          /\ (exists rest,
                 calls r = GetAllReplicaSets false :: GetAllReplicaSets true
                           :: StoreCreate c :: rest
                 /\ existsb isStoreCreate rest = false)
          /\ ((exists x, In x (store (world r)) /\ matchesTemplate d x = true) ->
              d_Spec_Replicas d <> 0 ->
              In (StoreUpdate (Name c) 0 (d_Spec_Replicas d)) (calls r))
          /\ (result r = Ok tt ->
              exists created, In created (store (world r))
                              /\ Name created = Name c
                              /\ matchesTemplate d created = true
                              /\ Spec_Replicas created = d_Spec_Replicas d)).
Proof.
  intros d w r r1 r2.
  assert (E1 := resolve_no_create_run d w). fold r1 in E1.
  set (w1 := setListFaults (snd (nextOutcome (listFaults w))) w) in *.
  assert (Hw1 : world r1 = w1) by (rewrite E1; reflexivity).
  assert (Hst1 : store w1 = store w) by (destruct w; reflexivity).
  subst r2. rewrite Hw1.
  set (oldRSs := snd (classify d (store w))) in *.
  set (r2 := scaleDownOldReplicaSetsForRecreate (FilterActiveReplicaSets oldRSs) d w1).
  destruct (scaleDownLoop_run (FilterActiveReplicaSets oldRSs) d
              (filter_active_not_nil oldRSs) false w1) as (_ & _ & Hc2 & _).
  fold (scaleDownOldReplicaSetsForRecreate (FilterActiveReplicaSets oldRSs) d w1) in Hc2.
  fold r2 in Hc2.
  assert (Hr2 : existsb isStoreCreate (calls r2) = false)
    by (apply (existsb_none _ _ _ scale_to_zero_not_create Hc2)).
  assert (Hin_create : forall c l, In (StoreCreate c) l -> existsb isStoreCreate l = true)
    by (intros c l Hin; apply (in_calls_existsb _ _ _ Hin); reflexivity).
  destruct (rolloutRecreate_cases d w)
    as [(e & _ & Hr) | (_ & [(e & _ & Hr) | [(_ & Hr) | (H2 & Hw2 & Hcs2 & _ & Hr)]])];
    cbv zeta in Hr; fold w1 oldRSs r2 in Hr; fold r in Hr.
  - split.
    + rewrite E1, Hr. splits; try assumption; try reflexivity. eexists; reflexivity.
    + intros c Hin. rewrite Hr in Hin. destruct Hin as [E|[]]. discriminate.
  - split.
    + rewrite E1, Hr. splits; try assumption; try reflexivity. eexists; reflexivity.
    + intros c Hin. apply Hin_create in Hin. rewrite Hr in Hin.
      cbn [calls existsb isStoreCreate orb] in Hin. congruence.
  - split.
    + rewrite E1, Hr. splits; try assumption; try reflexivity. eexists; reflexivity.
    + intros c Hin. apply Hin_create in Hin. rewrite Hr in Hin.
      cbn [calls existsb isStoreCreate orb] in Hin. rewrite existsb_app, Hr2 in Hin.
      match type of Hin with context [updateDeploymentStatus ?a ?b d ?x] =>
        destruct (updateDeploymentStatus_run a b d x) as (Uc & _) end.
      rewrite Uc in Hin. discriminate.
  - fold w1 oldRSs r2 in H2, Hw2, Hcs2.
    split.
    + rewrite E1, Hr. splits; try assumption; try reflexivity. eexists; reflexivity.
    + intros c Hin.
      destruct (fst (classify d (store w))) as [n|] eqn:En.
      * exfalso. apply Hin_create in Hin. rewrite Hr in Hin.
        rewrite afterScaleDown_some in Hin.
        cbn [calls existsb isStoreCreate orb] in Hin.
        rewrite scaleUpPhase_no_create in Hin. discriminate.
      * assert (En1 : fst (classify d (store w1)) = None) by (rewrite Hst1; exact En).
        assert (Ho1 : snd (classify d (store w1)) = oldRSs) by (rewrite Hst1; reflexivity).
        assert (Hno : Forall (fun rs => matchesTemplate d rs = false) (store w)).
        { rewrite classify_split in En. simpl in En.
          destruct (splitNew d (store w)) as [n0 o0] eqn:E0. simpl in En. subst n0.
          apply (splitNew_none d _ o0 E0). }
        assert (Hr2eq : r2 = mkRun w1 [] (Ok false)).
        { rewrite <- (run_eta r2), Hw2, Hcs2, H2. reflexivity. }
        destruct (afterScaleDown_none d w1 En1)
          as [(e & Ha) | [(e & wc & Ha & Hstc & _) | (w3 & Hst3 & _ & Hfresh & Ha)]];
          cbv zeta in Ha; rewrite Ho1 in Ha; rewrite Ha in Hr; cbn [world calls result] in Hr.
        -- exfalso. rewrite Hr in Hin. cbn [calls] in Hin.
           destruct Hin as [E|[E|[]]]; discriminate.
        -- rewrite Hr in Hin |- *. cbn [calls result world] in Hin |- *.
           destruct Hin as [E|[E|[E|[]]]]; try discriminate.
           injection E as <-. splits; try reflexivity; try assumption.
           ++ exists []. split; reflexivity.
           ++ intros (x & Hx & Hm) _. exfalso.
              rewrite Hstc, Hst1 in Hx. rewrite Forall_forall in Hno.
              rewrite (Hno x Hx) in Hm. discriminate.
           ++ discriminate.
        -- rewrite Hst1 in Hst3, Hfresh.
           set (c' := stamped (newReplicaSet d)
                        (setListFaults (snd (nextOutcome (listFaults w1))) w1)) in *.
           set (ru := scaleUpPhase d (Some c') oldRSs (oldRSs ++ [Some c']) w3) in *.
           assert (Hnc : existsb isStoreCreate (calls ru) = false)
             by apply scaleUpPhase_no_create.
           assert (Hcc : c = newReplicaSet d).
           { rewrite Hr in Hin. cbn [calls] in Hin.
             destruct Hin as [E|[E|[E|Hin]]]; try discriminate.
             - injection E as <-. reflexivity.
             - apply Hin_create in Hin. congruence. }
           subst c. rewrite Hr. cbn [world calls result].
           destruct (scaleUpPhase_created d c' (store w) w3 eq_refl Hst3 Hfresh)
             as (Hupd & Hcreated).
           splits; try reflexivity; try assumption.
           ++ exists (calls ru). split; [reflexivity | exact Hnc].
           ++ intros _ Hnz. right. right. right. apply (Hupd Hnz).
           ++ intros Hok. destruct (Hcreated Hok) as (created & Hc1 & Hc2' & Hc3 & Hc4).
              exists created. splits; try assumption.
              unfold matchesTemplate. rewrite Hc3. apply String.eqb_refl.
Qed.

(* ------------------------------------------------------------------ *)
(** ** The status of a stable store *)

Lemma sumOver_total (f : ReplicaSet -> Z) (l : list ReplicaSet) (n : option ReplicaSet) :
  sumOver f (map Some l ++ [n]) = total f l + sumOver f [n].
Proof.
  induction l as [|x l IH].
  - unfold sumOver, total. simpl. lia.
  - change (f x + sumOver f (map Some l ++ [n]) = f x + total f l + sumOver f [n]).
    rewrite IH. lia.
Qed.

Lemma total_perm (f : ReplicaSet -> Z) (l l' : list ReplicaSet) :
  Permutation l l' -> total f l = total f l'.
Proof.
  induction 1 as [|x l l' _ IH|x y l|l1 l2 l3 _ IH1 _ IH2]; simpl; lia.
Qed.

Lemma total_filter (f : ReplicaSet -> Z) (keep : ReplicaSet -> bool)
    (l : list ReplicaSet) :
  (forall x, In x l -> keep x = false -> f x = 0) ->
  total f (filter keep l) = total f l.
Proof.
  induction l as [|x l IH]; intros H; simpl; [reflexivity|].
  destruct (keep x) eqn:Ek; simpl.
  - rewrite IH; [reflexivity|]. intros y Hy. apply H. right; exact Hy.
  - rewrite IH; [|intros y Hy; apply H; right; exact Hy].
    rewrite (H x (or_introl eq_refl) Ek). lia.
Qed.

Lemma unique_name_identifies (l : list ReplicaSet) (x y : ReplicaSet) :
  uniqueNames l -> In x l -> In y l -> Name x = Name y -> x = y.
Proof.
  unfold uniqueNames. induction l as [|a l IH]; simpl; intros Hu Hx Hy E; [contradiction|].
  inversion Hu as [|? ? Ha Hl]; subst.
  destruct Hx as [<-|Hx]; destruct Hy as [<-|Hy].
  - reflexivity.
  - exfalso. apply Ha. rewrite E. apply in_map, Hy.
  - exfalso. apply Ha. rewrite <- E. apply in_map, Hx.
  - apply IH; assumption.
Qed.

Lemma statusOutputs_app (l1 l2 : list Call) :
  statusOutputs (l1 ++ l2) = statusOutputs l1 ++ statusOutputs l2.
Proof.
  induction l1 as [|c l IH]; simpl; [reflexivity|].
  destruct c; simpl; rewrite IH; reflexivity.
Qed.

Lemma statusOutputs_deletes (l : list Call) :
  Forall isStoreDelete l -> statusOutputs l = [].
Proof.
  induction 1 as [|c l (n & ->) _ IH]; simpl; [reflexivity | exact IH].
Qed.

(** A pass over a stable store with unique names and consistent counts:
    the store it leaves is stable again with the same status, and the pass
    issued no scaling call and either put out that status or failed at its
    resolution. *)
Lemma stable_pass_again (d : Deployment) (w : World) :
  stable d (store w) ->
  uniqueNames (store w) ->
  countsConsistent (store w) ->
  let r := rolloutRecreate d w in
  stable d (store (world r))
  /\ uniqueNames (store (world r))
  /\ countsConsistent (store (world r))
  /\ statusOfStore d (store (world r)) = statusOfStore d (store w)
  /\ existsb isStoreUpdate (calls r) = false
  /\ ((statusOutputs (calls r) = [statusOfStore d (store w)]
       /\ result r = statusOutcome w)
      \/ (statusOutputs (calls r) = [] /\ exists e, result r = Err e)).
Proof.
  intros (n & En & Hn & Hz) Hu Hcc r.
  assert (Hstable : stable d (store w)) by (exists n; auto).
  destruct (stable_pass d w n En Hn Hz)
    as [(e & _ & Hr) | (_ & dels & names & Hc & Hd & Hres & Hnames & Hst)];
    fold r in Hr || fold r in Hc, Hres, Hst.
  - rewrite Hr. cbn [world calls result].
    assert (Hst1 : store (setListFaults (snd (nextOutcome (listFaults w))) w) = store w)
      by (destruct w; reflexivity).
    rewrite Hst1. splits; try assumption; try reflexivity.
    right. split; [reflexivity | exists e; reflexivity].
  - destruct (splitNew d (store w)) as [n0 o] eqn:E.
    assert (En0 : n0 = Some n).
    { rewrite classify_split, E in En. exact En. }
    subst n0.
    assert (Hold : forall x, In (Some x) (snd (classify d (store w))) <-> In x o).
    { intros x. rewrite in_classified_olds, E. reflexivity. }
    set (keep := fun x : ReplicaSet => negb (existsb (fun n' => hasName n' x) names)).
    assert (Huo : uniqueNames (n :: o)).
    { unfold uniqueNames in *. apply (Permutation_NoDup (Permutation_map Name (splitNew_perm d _ n o E))).
      exact Hu. }
    assert (Hremoved : forall x, In x o -> keep x = false ->
              Spec_Replicas x = 0 /\ Status_Replicas x = 0).
    { intros x Hx Hk. unfold keep in Hk. apply negb_false_iff in Hk.
      apply existsb_exists in Hk. destruct Hk as (nm & Hnm & Hh).
      unfold hasName in Hh. apply String.eqb_eq in Hh.
      destruct (Hnames nm Hnm) as (y & Hy & Hyn & Hy1 & Hy2).
      apply Hold in Hy.
      assert (x = y).
      { apply (unique_name_identifies (n :: o)); [exact Huo | right; exact Hx | right; exact Hy|].
        congruence. }
      subst y. auto. }
    assert (Hkeepn : keep n = true).
    { unfold keep. apply negb_true_iff. destruct (existsb _ names) eqn:Ex; [|reflexivity].
      exfalso. apply existsb_exists in Ex. destruct Ex as (nm & Hnm & Hh).
      unfold hasName in Hh. apply String.eqb_eq in Hh.
      destruct (Hnames nm Hnm) as (y & Hy & Hyn & _).
      apply Hold in Hy.
      apply (splitNew_old_names d (store w) n o Hu E y Hy). congruence. }
    assert (E' : splitNew d (store (world r)) = (Some n, filter keep o)).
    { rewrite Hst. apply (splitNew_filter d keep (store w) n o E Hkeepn). }
    assert (Hz' : forall x, In x o -> Spec_Replicas x = 0).
    { intros x Hx. rewrite Forall_forall in Hz.
      destruct (Hz (Some x) (proj2 (Hold x) Hx)) as (y & Ey & Hy0).
      injection Ey as <-. exact Hy0. }
    assert (Hstatus : statusOfStore d (store (world r)) = statusOfStore d (store w)).
    { unfold statusOfStore. rewrite !classify_split, E, E'. cbn [fst snd].
      unfold calculateStatus. rewrite !sumOver_total.
      rewrite !(total_perm _ _ _ (sortByCreationDesc_perm _)).
      rewrite (total_filter Status_Replicas keep o).
      2: { intros x Hx Hk. apply (Hremoved x Hx Hk). }
      rewrite (total_filter Status_AvailableReplicas keep o).
      2: { intros x Hx Hk. destruct (Hremoved x Hx Hk) as [_ H0].
           unfold countsConsistent in Hcc. rewrite Forall_forall in Hcc.
           assert (Hxs : In x (store w)) by (apply (splitNew_incl d _ _ _ E); exact Hx).
           specialize (Hcc x Hxs). lia. }
      reflexivity. }
    splits.
    + exists n. rewrite classify_split, E'. cbn [fst snd]. splits; try assumption; try reflexivity.
      apply Forall_forall. intros p Hp. apply in_map_iff in Hp.
      destruct Hp as (x & <- & Hx). apply (proj1 (in_sorted _ _)) in Hx.
      apply filter_In in Hx. exists x. split; [reflexivity | apply Hz', Hx].
    + rewrite Hst. apply uniqueNames_filter, Hu.
    + rewrite Hst. unfold countsConsistent in *. rewrite Forall_forall in *.
      intros x Hx. apply filter_In in Hx. apply Hcc, Hx.
    + exact Hstatus.
    + rewrite Hc. cbn [existsb isStoreUpdate orb]. rewrite existsb_app.
      rewrite (existsb_none _ _ _ delete_not_update Hd). reflexivity.
    + left. split; [|exact Hres]. rewrite Hc. cbn [statusOutputs].
      rewrite statusOutputs_app, (statusOutputs_deletes _ Hd). cbn [statusOutputs app].
      unfold statusOfStore. rewrite En. reflexivity.
Qed.

(** C2. Idempotent fixed point. From a stable state (the new replica set
    exists with the Deployment's desired count, every old one has zero
    desired replicas; names unique, available replicas among the observed
    ones), any number of further passes leaves a stable state, and each of
    them issues no scaling call and puts out one and the same status, that
    of the stable state, unless its resolution fails, in which case it puts
    out none. The first pass returns what its status write returns unless
    its resolution fails. *)
Theorem stable_state_is_fixed_point :
  forall (d : Deployment) (w : World) (n : nat),
    stable d (store w) ->
    uniqueNames (store w) ->
    countsConsistent (store w) ->
    stable d (store (fst (repeatM n (rolloutRecreate d) w)))
    /\ Forall (quietPass (statusOfStore d (store w)))
              (snd (repeatM n (rolloutRecreate d) w))
    /\ (fst (nextOutcome (listFaults w)) = None ->
        statusOutputs (calls (rolloutRecreate d w)) = [statusOfStore d (store w)]
        /\ result (rolloutRecreate d w) = statusOutcome w).
Proof.
  intros d w n Hs Hu Hc. split; [|split].
  - revert w Hs Hu Hc. induction n as [|n IH]; intros w Hs Hu Hc; [exact Hs|].
    rewrite repeatM_world.
    destruct (stable_pass_again d w Hs Hu Hc) as (A & B & C & _). apply IH; assumption.
  - revert w Hs Hu Hc. induction n as [|n IH]; intros w Hs Hu Hc; [constructor|].
    destruct (stable_pass_again d w Hs Hu Hc) as (A & B & C & D & E & F).
    cbn [repeatM]. specialize (IH _ A B C). rewrite D in IH.
    destruct (repeatM n (rolloutRecreate d) (world (rolloutRecreate d w))) as [w' rest].
    cbn [snd] in *. constructor; [|exact IH].
    split; [exact E|]. cbn [fst snd].
    destruct F as [(F1 & _) | F]; [left; exact F1 | right; exact F].
  - intros Hl.
    destruct (stable_pass_again d w Hs Hu Hc) as (_ & _ & _ & _ & _ & [F | (F1 & e & F2)]);
      [exact F|].
    exfalso. destruct Hs as (nw & En & Hn & Hz).
    destruct (stable_pass d w nw En Hn Hz) as [(e' & He' & _) | (_ & dels & names & Hcalls & _ & Hres & _)];
      [congruence|].
    rewrite Hcalls in F1. cbn [statusOutputs] in F1.
    rewrite statusOutputs_app in F1. destruct (statusOutputs dels); discriminate.
Qed.

(* ------------------------------------------------------------------ *)
(** ** Convergence on an example *)

(** C3. Monotonic convergence. From one old replica set with 5 desired and
    5 observed replicas and no new replica set, the first pass only scales
    the old replica set down to zero, the second only creates the new
    replica set and scales it up to 5, the third changes nothing; all
    three return success. After the first pass the store holds the old
    replica set at zero and no new one, after the second the old one at
    zero and the new one at 5, and from there every further pass leaves
    the world as it is, changes no replica set and returns success. *)
Theorem recreate_converges_in_two_progressing_passes :
  map (fun p => mutatingCalls (fst p)) (snd (repeatM 3 (rolloutRecreate api) apiStart))
    = [[StoreUpdate "api-v1" 5 0];
       [StoreCreate (newReplicaSet api); StoreUpdate "api-v2" 0 5];
       []]
  /\ map snd (snd (repeatM 3 (rolloutRecreate api) apiStart)) = [Ok tt; Ok tt; Ok tt]
  /\ store (fst (repeatM 1 (rolloutRecreate api) apiStart)) = [setReplicas apiV1 0]
  /\ store (fst (repeatM 2 (rolloutRecreate api) apiStart)) = [setReplicas apiV1 0; apiV2]
  /\ (forall k,
         fst (repeatM k (rolloutRecreate api)
                (fst (repeatM 2 (rolloutRecreate api) apiStart)))
         = fst (repeatM 2 (rolloutRecreate api) apiStart)
         /\ Forall (fun p => mutatingCalls (fst p) = [] /\ snd p = Ok tt)
                   (snd (repeatM k (rolloutRecreate api)
                           (fst (repeatM 2 (rolloutRecreate api) apiStart))))).
Proof.
  split; [vm_compute; reflexivity|].
  split; [vm_compute; reflexivity|].
  split; [vm_compute; reflexivity|].
  split; [vm_compute; reflexivity|].
  intros k.
  set (w2 := fst (repeatM 2 (rolloutRecreate api) apiStart)).
  assert (E : rolloutRecreate api w2
              = mkRun w2 (calls (rolloutRecreate api w2)) (Ok tt))
    by (vm_compute; reflexivity).
  rewrite (repeatM_fixed_point _ _ _ _ k E). cbn [fst snd]. split; [reflexivity|].
  apply Forall_forall. intros p Hp. apply repeat_spec in Hp. subst p.
  cbn [fst snd]. split; [vm_compute; reflexivity | reflexivity].
Qed.

(* ------------------------------------------------------------------ *)
(** ** The theorems on example clusters *)

Lemma settled_is_stable : stable web (store settled).
Proof.
  exists webV3. split; [reflexivity | split; [reflexivity|]].
  repeat constructor; eexists; split; reflexivity.
Qed.

Lemma settled_counts : countsConsistent (store settled).
Proof. repeat constructor; simpl; lia. Qed.

Lemma stable_state_is_fixed_point_witness :
  stable web (store (fst (repeatM 2 (rolloutRecreate web) settled)))
  /\ Forall (quietPass (statusOfStore web (store settled)))
            (snd (repeatM 2 (rolloutRecreate web) settled))
  /\ statusOutputs (calls (rolloutRecreate web settled))
     = [statusOfStore web (store settled)]
  /\ result (rolloutRecreate web settled) = statusOutcome settled.
Proof.
  assert (Hu : uniqueNames (store settled)) by unique_names.
  destruct (stable_state_is_fixed_point web settled 2 settled_is_stable Hu settled_counts)
    as (A & B & C).
  destruct (C eq_refl) as (C1 & C2).
  split; [exact A | split; [exact B | split; [exact C1 | exact C2]]].
Defined.

Lemma creation_is_deferred_witness :
  In (StoreUpdate (Name (newReplicaSet web)) 0 (d_Spec_Replicas web))
     (calls (rolloutRecreate web downNoNew))
  /\ exists created, In created (store (world (rolloutRecreate web downNoNew)))
                     /\ Name created = Name (newReplicaSet web)
                     /\ matchesTemplate web created = true
                     /\ Spec_Replicas created = d_Spec_Replicas web.
Proof.
  destruct (creation_is_deferred web downNoNew) as (_ & H).
  assert (Hin : In (StoreCreate (newReplicaSet web)) (calls (rolloutRecreate web downNoNew)))
    by (vm_compute; right; right; left; reflexivity).
  destruct (H (newReplicaSet web) Hin) as (_ & _ & _ & _ & _ & Hupd & Hok).
  assert (Hnz : d_Spec_Replicas web <> 0) by (simpl; lia).
  assert (Hc := Hok eq_refl).
  split; [|exact Hc].
  destruct Hc as (created & Hc1 & _ & Hc3 & _).
  exact (Hupd (ex_intro _ created (conj Hc1 Hc3)) Hnz).
Defined.


Lemma cleanup_failure_is_swallowed_witness :
  result (cleanupDeployment [Some webV2Down; Some webV1Down] web settledDeleteFails)
    = Err TransientStoreError
  /\ result (scaleUpPhase web (Some webV3) [Some webV2Down; Some webV1Down]
               [Some webV2Down; Some webV1Down; Some webV3] settledDeleteFails)
     = Ok tt
  /\ result (rolloutRecreate web settledDeleteFails) = statusOutcome settledDeleteFails.
Proof.
  destruct cleanup_failure_is_swallowed as (Ha & Hb & _).
  split; [reflexivity|]. split.
  - rewrite (Ha web (Some webV3) [Some webV2Down; Some webV1Down]
               [Some webV2Down; Some webV1Down; Some webV3] settledDeleteFails
               TransientStoreError eq_refl eq_refl).
    reflexivity.
  - apply Hb. reflexivity.
Defined.

Lemma nil_entry_in_barrier_status_update_witness :
  calls (rolloutRecreate web threeOld)
  = GetAllReplicaSets false
    :: calls (scaleDownOldReplicaSetsForRecreate
                (FilterActiveReplicaSets (snd (classify web (store threeOld)))) web
                (setListFaults (snd (nextOutcome (listFaults threeOld))) threeOld))
    ++ [UpdateDeploymentStatus (snd (classify web (store threeOld)) ++ [None]) None;
        StoreWriteStatus
          (calculateStatus (snd (classify web (store threeOld)) ++ [None]) None web)].
Proof.
  assert (Hno : Forall (fun rs => matchesTemplate web rs = false) (store threeOld))
    by (repeat constructor).
  destruct (nil_entry_in_barrier_status_update web threeOld Hno) as (H & _).
  exact (H eq_refl eq_refl).
Defined.
(* ------------------------------------------------------------------ *)
(** ** Route deletion *)

Lemma searchRoute_absent (routes : list OpenStack.Route) (cidr : string) (i index : Z) :
  Forall (fun r => OpenStack.DestinationCIDR r <> cidr) routes ->
  OpenStack.searchRoute routes cidr i index = index.
Proof.
  intros H. revert i. induction H as [|r l Hr _ IH]; intros i; simpl.
  - reflexivity.
  - destruct (String.eqb_spec (OpenStack.DestinationCIDR r) cidr) as [E|_].
    + contradiction.
    + apply IH.
Qed.

(** Whenever the router holds no route to the destination, [DeleteRoute]
    slices at index -1 and panics. *)
Lemma DeleteRoute_absent_panics (clusterName : string) (route : OpenStack.CloudRoute)
    (net : OpenStack.Network) :
  OpenStack.getFault net = None ->
  Forall (fun r => OpenStack.DestinationCIDR r <> OpenStack.cr_DestinationCIDR route)
         (OpenStack.Routes (OpenStack.router net)) ->
  OpenStack.DeleteRoute clusterName route net = (net, Panic).
Proof.
  intros Hget Habs. unfold OpenStack.DeleteRoute, OpenStack.routersGet.
  rewrite Hget. rewrite (searchRoute_absent _ _ 0 (-1) Habs). reflexivity.
Qed.

(** With the route in the router's list, [DeleteRoute] takes it out. *)
Lemma DeleteRoute_known_destination_removes :
  OpenStack.DeleteRoute "test" OpenStack.testRoute OpenStack.twoRoutes
  = (OpenStack.oneRoute, Ok tt).
Proof. reflexivity. Qed.

(** C10. The router holds one route, to another destination than the one
    asked for: the search leaves [index] at -1, [router.Routes[:index]]
    panics and so does [DeleteRoute]; the slice at a negative index is
    reached. *)
Theorem DeleteRoute_unknown_destination_panics :
  OpenStack.searchRoute (OpenStack.Routes (OpenStack.router OpenStack.oneRoute))
                        (OpenStack.cr_DestinationCIDR OpenStack.testRoute) 0 (-1) = -1
  /\ OpenStack.sliceTo (OpenStack.Routes (OpenStack.router OpenStack.oneRoute)) (-1)
     = Panic
  /\ OpenStack.DeleteRoute "test" OpenStack.testRoute OpenStack.oneRoute
     = (OpenStack.oneRoute, Panic).
Proof. repeat split; reflexivity. Qed.

(* ------------------------------------------------------------------ *)
(** ** Nil entries *)

Lemma scaleDownLoop_nil_entry (finished pending : list (option ReplicaSet))
    (d : Deployment) :
  forall (scaled b : bool) (w : World),
    let r0 := scaleDownLoop finished d scaled w in
    result r0 = Ok b ->
    scaleDownLoop (finished ++ None :: pending) d scaled w
    = mkRun (world r0) (calls r0) Panic.
Proof.
  induction finished as [|p l IH]; intros scaled b w; cbv zeta.
  - cbn [app scaleDownLoop ret world calls result]. intros _. reflexivity.
  - cbn [app scaleDownLoop]. destruct p as [r|]; [|cbn; discriminate].
    destruct (Spec_Replicas r =? 0); [apply IH|].
    destruct (result (scaleReplicaSetAndRecordEvent (Some r) 0 d w))
      as [[s p]|e1|] eqn:Er.
    + rewrite !(bind_ok _ _ _ _ Er). cbn [world calls result]. intros H0.
      rewrite (IH _ b _ H0). cbn [world calls result]. reflexivity.
    + rewrite !(bind_err _ _ _ _ Er). cbn [world calls result]. discriminate.
    + rewrite !(bind_panic _ _ _ Er). cbn [world calls result]. discriminate.
Qed.

(** X24. A nil entry is fatal to the scale-down loop:
    [scaleDownOldReplicaSetsForRecreate] panics at the first nil entry it
    reaches ([rs.Spec.Replicas], line 74). When the loop over the entries
    before the nil entry goes through, the loop over the whole list has
    done to the store what that loop does, has issued its calls and no
    other, and panics; the entries after the nil entry are not looked
    at. *)
Theorem scaleDown_panics_at_nil_entry
    (finished pending : list (option ReplicaSet)) (d : Deployment) (w : World)
    (b : bool) :
  result (scaleDownOldReplicaSetsForRecreate finished d w) = Ok b ->
  scaleDownOldReplicaSetsForRecreate (finished ++ None :: pending) d w
  = mkRun (world (scaleDownOldReplicaSetsForRecreate finished d w))
          (calls (scaleDownOldReplicaSetsForRecreate finished d w))
          Panic.
Proof. intros H. apply (scaleDownLoop_nil_entry finished pending d false b w H). Qed.

(* ------------------------------------------------------------------ *)
(** ** The one status write of a pass *)

Lemma statusOutputs_none (l : list Call) :
  existsb isStatusCall l = false -> statusOutputs l = [].
Proof.
  induction l as [|c l IH]; [reflexivity|]. cbn [existsb]. intros H.
  apply orb_false_iff in H. destruct H as [Hc Hl].
  destruct c; cbn [statusOutputs]; try (apply IH, Hl). discriminate.
Qed.

(** Lines 53-66 with a new replica set at hand: the scale-up fails and no
    status is written, or the phase ends with its one status write. *)
Lemma scaleUpPhase_written (d : Deployment) (n : ReplicaSet)
    (oldRSs allRSs : list (option ReplicaSet)) (w : World) :
  let r := scaleUpPhase d (Some n) oldRSs allRSs w in
  let st := calculateStatus allRSs (Some n) d in
  ((exists e, result r = Err e)
   /\ statusOutputs (calls r) = []
   /\ status (world r) = status w)
  \/ (exists pre,
        calls r = pre ++ [StoreWriteStatus st]
        /\ statusOutputs pre = []
        /\ (result r = Ok tt -> status (world r) = Some st)
        /\ (result r <> Ok tt -> (exists e, result r = Err e)
                                 /\ status (world r) = status w)).
Proof.
  cbv zeta. rewrite scaleUpPhase_eq. cbv zeta.
  destruct (Z.eq_dec (Spec_Replicas n) (d_Spec_Replicas d)) as [E | Hne].
  - rewrite <- E, scale_at_target. cbn [result world calls app].
    destruct (cleanupDeployment_run oldRSs d w) as ((Hs1 & Hs2) & Hnp & (dels & Hc & Hd) & _).
    destruct (syncDeploymentStatus_run allRSs (Some n) d (world (cleanupDeployment oldRSs d w)))
      as (Sc & _ & Sr & Sok & Serr).
    right. exists (CleanupDeployment oldRSs :: dels ++ [SyncDeploymentStatus allRSs (Some n)]).
    assert (Hshape : forall res : Result unit,
      let r := mkRun (world (syncDeploymentStatus allRSs (Some n) d
                               (world (cleanupDeployment oldRSs d w))))
                     (calls (cleanupDeployment oldRSs d w)
                      ++ calls (syncDeploymentStatus allRSs (Some n) d
                                  (world (cleanupDeployment oldRSs d w))))
                     (result (syncDeploymentStatus allRSs (Some n) d
                                (world (cleanupDeployment oldRSs d w)))) in
      calls r = (CleanupDeployment oldRSs :: dels ++ [SyncDeploymentStatus allRSs (Some n)])
                ++ [StoreWriteStatus (calculateStatus allRSs (Some n) d)]
      /\ statusOutputs (CleanupDeployment oldRSs :: dels
                        ++ [SyncDeploymentStatus allRSs (Some n)]) = []
      /\ (result r = Ok tt -> status (world r) = Some (calculateStatus allRSs (Some n) d))
      /\ (result r <> Ok tt -> (exists e, result r = Err e)
                               /\ status (world r) = status w)).
    { intros _. cbv zeta. cbn [world calls result]. splits.
      - rewrite Hc, Sc. cbn [app]. rewrite <- app_assoc. reflexivity.
      - cbn [statusOutputs]. rewrite statusOutputs_app, (statusOutputs_deletes _ Hd).
        reflexivity.
      - exact Sok.
      - intros Hne. split; [|rewrite (Serr Hne); exact Hs1].
        rewrite Sr in *. destruct (fst (nextOutcome _)) as [e|]; [exists e; reflexivity|].
        congruence. }
    destruct (result (cleanupDeployment oldRSs d w)); [ | | congruence];
      exact (Hshape (Ok tt)).
  - destruct (scale_run n (d_Spec_Replicas d) d w Hne) as (Hc & (Hs1 & Hs2) & Hres).
    destruct Hres as [(Hr & _ & _) | (e & Hr & _)].
    + rewrite Hr.
      destruct (updateDeploymentStatus_run allRSs (Some n) d
                  (world (scaleReplicaSetAndRecordEvent (Some n) (d_Spec_Replicas d) d w)))
        as (Uc & _ & Ur & Uok & Uerr).
      right. exists [StoreUpdate (Name n) (Spec_Replicas n) (d_Spec_Replicas d);
                     UpdateDeploymentStatus allRSs (Some n)].
      cbn [world calls result]. splits.
      * rewrite Hc, Uc. reflexivity.
      * reflexivity.
      * exact Uok.
      * intros Hn. split; [|rewrite (Uerr Hn); exact Hs1].
        rewrite Ur in *. destruct (fst (nextOutcome _)) as [e|]; [exists e; reflexivity|].
        congruence.
    + rewrite Hr. left. cbn [world calls result]. splits.
      * exists e. reflexivity.
      * rewrite Hc. reflexivity.
      * exact Hs1.
Qed.

(** X25. A pass writes the status at most once, as its last call, and
    returns nil only after this write: either the pass returns an error
    without any status write, and the persisted status is the one before
    the pass, or the last call of the pass is its only status write; then
    a pass that returns nil has persisted the status it wrote, and a pass
    that does not returns the error of the write and has left the
    persisted status as it was. *)
Theorem pass_writes_status_once (d : Deployment) (w : World) :
  let r := rolloutRecreate d w in
  ((exists e, result r = Err e)
   /\ statusOutputs (calls r) = []
   /\ status (world r) = status w)
  \/ (exists pre st,
        calls r = pre ++ [StoreWriteStatus st]
        /\ statusOutputs pre = []
        /\ (result r = Ok tt -> status (world r) = Some st)
        /\ (result r <> Ok tt -> (exists e, result r = Err e)
                                 /\ status (world r) = status w)).
Proof.
  intros r.
  set (w1 := setListFaults (snd (nextOutcome (listFaults w))) w).
  assert (Hst1 : store w1 = store w) by (destruct w; reflexivity).
  assert (Hss1 : status w1 = status w) by (destruct w; reflexivity).
  set (newRS := fst (classify d (store w))).
  set (oldRSs := snd (classify d (store w))).
  destruct (scaleDownLoop_run (FilterActiveReplicaSets oldRSs) d
              (filter_active_not_nil oldRSs) false w1) as (_ & (Hs2 & _) & Hc2 & _).
  fold (scaleDownOldReplicaSetsForRecreate (FilterActiveReplicaSets oldRSs) d w1)
    in Hs2, Hc2.
  assert (Hq2 : statusOutputs
                  (calls (scaleDownOldReplicaSetsForRecreate
                            (FilterActiveReplicaSets oldRSs) d w1)) = []).
  { apply statusOutputs_none.
    apply (existsb_none _ _ _ scale_to_zero_not_status Hc2). }
  destruct (rolloutRecreate_cases d w)
    as [(e & _ & Hr) | (_ & [(e & _ & Hr) | [(_ & Hr) | (_ & _ & _ & _ & Hr)]])];
    cbv zeta in Hr; fold w1 newRS oldRSs in Hr; fold r in Hr.
  - left. rewrite Hr. cbn [world calls result statusOutputs]. splits.
    + exists e. reflexivity.
    + reflexivity.
    + exact Hss1.
  - left. rewrite Hr. cbn [world calls result statusOutputs]. splits.
    + exists e. reflexivity.
    + exact Hq2.
    + rewrite Hs2. exact Hss1.
  - right.
    destruct (updateDeploymentStatus_run (oldRSs ++ [newRS]) newRS d
                (world (scaleDownOldReplicaSetsForRecreate
                          (FilterActiveReplicaSets oldRSs) d w1)))
      as (Uc & _ & Ur & Uok & Uerr).
    exists (GetAllReplicaSets false
            :: calls (scaleDownOldReplicaSetsForRecreate
                        (FilterActiveReplicaSets oldRSs) d w1)
            ++ [UpdateDeploymentStatus (oldRSs ++ [newRS]) newRS]),
           (calculateStatus (oldRSs ++ [newRS]) newRS d).
    rewrite Hr. cbn [world calls result]. splits.
    + rewrite Uc. cbn [app]. rewrite <- app_assoc. reflexivity.
    + cbn [statusOutputs]. rewrite statusOutputs_app, Hq2. reflexivity.
    + exact Uok.
    + intros Hn. split; [|rewrite (Uerr Hn), Hs2; exact Hss1].
      rewrite Ur in *. destruct (fst (nextOutcome _)) as [e|]; [exists e; reflexivity|].
      congruence.
  - assert (Hafter :
      let rt := afterScaleDown d newRS oldRSs w1 in
      ((exists e, result rt = Err e)
       /\ statusOutputs (calls rt) = []
       /\ status (world rt) = status w1)
      \/ (exists pre st,
            calls rt = pre ++ [StoreWriteStatus st]
            /\ statusOutputs pre = []
            /\ (result rt = Ok tt -> status (world rt) = Some st)
            /\ (result rt <> Ok tt -> (exists e, result rt = Err e)
                                      /\ status (world rt) = status w1))).
    { cbv zeta. destruct newRS as [n|] eqn:En.
      - rewrite afterScaleDown_some.
        destruct (scaleUpPhase_written d n oldRSs (oldRSs ++ [Some n]) w1)
          as [H | (pre & H)]; [left; exact H | right].
        exists pre, (calculateStatus (oldRSs ++ [Some n]) (Some n) d). exact H.
      - assert (En1 : fst (classify d (store w1)) = None) by (rewrite Hst1; exact En).
        assert (Eo : oldRSs = snd (classify d (store w1))) by (rewrite Hst1; reflexivity).
        rewrite Eo.
        destruct (afterScaleDown_none d w1 En1)
          as [(e & Hrt) | [(e & wc & Hrt & _ & (Hsc & _)) | (w3 & _ & (Hs3 & _) & _ & Hrt)]];
          cbv zeta in Hrt; rewrite Hrt; cbn [world calls result statusOutputs].
        + left. splits; [exists e; reflexivity | reflexivity |].
          destruct w1; reflexivity.
        + left. splits; [exists e; reflexivity | reflexivity | exact Hsc].
        + rewrite <- Eo.
          destruct (scaleUpPhase_written d (stamped (newReplicaSet d)
                      (setListFaults (snd (nextOutcome (listFaults w1))) w1))
                      oldRSs (oldRSs ++ [Some (stamped (newReplicaSet d)
                         (setListFaults (snd (nextOutcome (listFaults w1))) w1))]) w3)
            as [(He & Hq & Hs) | (pre & Hc & Hq & Hok & Herr)].
          * left. splits; [exact He | exact Hq | rewrite Hs; exact Hs3].
          * right. eexists (GetAllReplicaSets true :: StoreCreate (newReplicaSet d) :: pre), _.
            splits.
            -- rewrite Hc. reflexivity.
            -- exact Hq.
            -- intros Hk. apply Hok, Hk.
            -- intros Hk. destruct (Herr Hk) as [He Hs]. split; [exact He|].
               rewrite Hs. exact Hs3. }
    cbv zeta in Hafter. rewrite Hr. cbn [world calls result].
    destruct Hafter as [(He & Hq & Hs) | (pre & st & Hc & Hq & Hok & Herr)].
    + left. splits; [exact He | exact Hq | rewrite Hs; exact Hss1].
    + right. exists (GetAllReplicaSets false :: pre), st. splits.
      * rewrite Hc. reflexivity.
      * exact Hq.
      * exact Hok.
      * intros Hk. destruct (Herr Hk) as [He Hs]. split; [exact He|].
        rewrite Hs. exact Hss1.
Qed.

Lemma scaleDown_panics_at_nil_entry_witness :
  scaleDownOldReplicaSetsForRecreate ([Some webV2] ++ None :: [Some webV1]) web threeOld
  = mkRun (world (scaleDownOldReplicaSetsForRecreate [Some webV2] web threeOld))
          [StoreUpdate "web-v2" 3 0]
          Panic.
Proof.
  rewrite (scaleDown_panics_at_nil_entry [Some webV2] [Some webV1] web threeOld true
             eq_refl).
  reflexivity.
Defined.

Lemma pass_writes_status_once_witness :
  exists pre st,
    calls (rolloutRecreate web threeOld) = pre ++ [StoreWriteStatus st]
    /\ statusOutputs pre = []
    /\ status (world (rolloutRecreate web threeOld)) = Some st.
Proof.
  destruct (pass_writes_status_once web threeOld)
    as [([e He] & _) | (pre & st & Hc & Hq & Hok & _)].
  - vm_compute in He. discriminate.
  - exists pre, st. split; [exact Hc | split; [exact Hq | apply Hok; reflexivity]].
Defined.

(* ================================================================== *)
(** * The OpenStack provider *)

Import Ascii.
Import OpenStackCloud.

(** ** Instance identifiers *)

Lemma lastIndexFrom_append (p s : string) (sep : Ascii.ascii) (i found : Z) :
  lastIndexFrom (p ++ s)%string sep i found
  = lastIndexFrom s sep (i + Z.of_nat (String.length p)) (lastIndexFrom p sep i found).
Proof.
  revert i found. induction p as [|a p IH]; intros i found.
  - simpl. f_equal. lia.
  - cbn [String.append lastIndexFrom String.length]. rewrite IH. f_equal. lia.
Qed.

Lemma lastIndexFrom_no_slash (s : string) (i found : Z) :
  hasSlash s = false -> lastIndexFrom s "/" i found = found.
Proof.
  revert i found. induction s as [|a s IH]; intros i found H; simpl in *.
  - reflexivity.
  - apply orb_false_iff in H. destruct H as [Ha Hs]. rewrite Ha. apply IH, Hs.
Qed.

Lemma dropBytes_append (p s : string) :
  dropBytes (String.length p) (p ++ s)%string = s.
Proof. induction p as [|a p IH]; simpl; [destruct s; reflexivity | exact IH]. Qed.

Lemma length_append (p s : string) :
  String.length (p ++ s)%string = (String.length p + String.length s)%nat.
Proof. induction p as [|a p IH]; simpl; [reflexivity | now rewrite IH]. Qed.

(** Every string is free of [/] or splits at its last [/]. *)
Lemma split_at_last_slash (s : string) :
  hasSlash s = false
  \/ exists p id, s = (p ++ String "/" id)%string /\ hasSlash id = false.
Proof.
  induction s as [|a s IH].
  - left. reflexivity.
  - destruct IH as [Hs | (p & id & -> & Hid)].
    + destruct (Ascii.eqb_spec a "/") as [-> | Hne].
      * right. exists EmptyString, s. split; [reflexivity | exact Hs].
      * left. simpl. rewrite Hs. apply Ascii.eqb_neq in Hne. rewrite Hne. reflexivity.
    + right. exists (String a p), id. split; [reflexivity | exact Hid].
Qed.

Lemma getInstanceID_no_slash (s : string) :
  hasSlash s = false -> getInstanceIDFromProviderID s = Ok s.
Proof.
  intros H. unfold getInstanceIDFromProviderID, LastIndex.
  rewrite lastIndexFrom_no_slash by exact H. reflexivity.
Qed.

Lemma getInstanceID_split (p id : string) :
  hasSlash id = false ->
  getInstanceIDFromProviderID (p ++ String "/" id)%string = Ok id.
Proof.
  intros H. unfold getInstanceIDFromProviderID, LastIndex.
  rewrite lastIndexFrom_append. cbn [lastIndexFrom]. rewrite Ascii.eqb_refl.
  rewrite lastIndexFrom_no_slash by exact H.
  assert (E1 : (0 + Z.of_nat (String.length p) >=? 0) = true)
    by (apply Z.geb_le; lia).
  rewrite E1. unfold stringFrom. rewrite length_append. cbn [String.length].
  assert (E2 : (0 + Z.of_nat (String.length p) + 1 <? 0)
               || (Z.of_nat (String.length p + S (String.length id))
                   <? 0 + Z.of_nat (String.length p) + 1) = false)
    by (apply orb_false_iff; split; apply Z.ltb_ge; lia).
  rewrite E2.
  replace (Z.to_nat (0 + Z.of_nat (String.length p) + 1))
    with (String.length (p ++ "/")%string) by (rewrite length_append; simpl; lia).
  replace (p ++ String "/" id)%string with ((p ++ "/") ++ id)%string.
  - rewrite dropBytes_append. reflexivity.
  - clear. induction p as [|a p IH]; simpl; [reflexivity | now rewrite IH].
Qed.

(** X1. [getInstanceIDFromProviderID] takes off everything up to the last
    [/]: of a provider identifier made of any prefix, a [/] and an instance
    identifier without [/], it returns the instance identifier, as of
    [openstack:///<id>]. *)
Theorem getInstanceID_strips_prefix (prefix id : string) :
  hasSlash id = false ->
  getInstanceIDFromProviderID (prefix ++ "/" ++ id)%string = Ok id.
Proof. intros H. apply (getInstanceID_split prefix id H). Qed.

Lemma getInstanceID_strips_prefix_witness :
  getInstanceIDFromProviderID "openstack:///7c9e6679-7425-40de-944b-e07fc1f90ae7"
  = Ok "7c9e6679-7425-40de-944b-e07fc1f90ae7"%string.
Proof.
  apply (getInstanceID_strips_prefix "openstack://" "7c9e6679-7425-40de-944b-e07fc1f90ae7").
  reflexivity.
Defined.

(** X2. [getInstanceIDFromProviderID] never slices out of bounds: on every
    string it returns a suffix of it that holds no [/], what stands before
    the suffix is empty or ends with [/], a string without [/] comes back
    as it is, and the function applied to its own result changes nothing. *)
Theorem getInstanceID_total_suffix (providerID : string) :
  exists id before,
    getInstanceIDFromProviderID providerID = Ok id
    /\ hasSlash id = false
    /\ providerID = (before ++ id)%string
    /\ (before = EmptyString \/ exists p, before = (p ++ "/")%string)
    /\ (hasSlash providerID = false -> id = providerID)
    /\ getInstanceIDFromProviderID id = Ok id.
Proof.
  destruct (split_at_last_slash providerID) as [H | (p & id & -> & Hid)].
  - exists providerID, EmptyString. splits.
    + apply getInstanceID_no_slash, H.
    + exact H.
    + reflexivity.
    + left. reflexivity.
    + reflexivity.
    + apply getInstanceID_no_slash, H.
  - exists id, (p ++ "/")%string. splits.
    + apply getInstanceID_split, Hid.
    + exact Hid.
    + clear. induction p as [|a p IH]; simpl; [reflexivity | now rewrite <- IH].
    + right. exists p. reflexivity.
    + intros Hs. exfalso. clear - Hs. induction p as [|a p IH]; simpl in Hs.
      * discriminate.
      * apply orb_false_iff in Hs. apply IH, Hs.
    + apply getInstanceID_no_slash, Hid.
Qed.

(* ------------------------------------------------------------------ *)
(** ** Server metadata *)

Lemma lookup_setKey_same {V} (k : string) (v : V) (m : list (string * V)) :
  lookup k (setKey k v m) = Some v.
Proof.
  induction m as [|[k' v'] m IH]; simpl.
  - rewrite String.eqb_refl. reflexivity.
  - destruct (String.eqb k' k) eqn:E; simpl.
    + rewrite String.eqb_refl. reflexivity.
    + rewrite E. exact IH.
Qed.

Lemma lookup_setKey_other {V} (k k0 : string) (v : V) (m : list (string * V)) :
  k0 <> k -> lookup k0 (setKey k v m) = lookup k0 m.
Proof.
  intros Hne. induction m as [|[k' v'] m IH]; simpl.
  - destruct (String.eqb_spec k k0); [congruence | reflexivity].
  - destruct (String.eqb_spec k' k) as [-> | Hk]; simpl.
    + destruct (String.eqb_spec k k0); [congruence | reflexivity].
    + destruct (String.eqb k' k0); [reflexivity | exact IH].
Qed.

Lemma findServer_id (id : string) (l : list Server) (s : Server) :
  findServer id l = Some s -> server_ID s = id /\ In s l.
Proof.
  induction l as [|x l IH]; simpl; [discriminate|].
  destruct (String.eqb_spec (server_ID x) id) as [E | _].
  - intros [= <-]. split; [exact E | left; reflexivity].
  - intros H. destruct (IH H). split; [assumption | right; assumption].
Qed.

Lemma findServer_replace (l : list Server) (s s' : Server) :
  findServer (server_ID s') l = Some s ->
  findServer (server_ID s') (replaceServer s' l) = Some s'.
Proof.
  induction l as [|x l IH]; simpl; [discriminate|].
  destruct (String.eqb (server_ID x) (server_ID s')) eqn:E; simpl.
  - intros _. rewrite String.eqb_refl. reflexivity.
  - rewrite E. exact IH.
Qed.

Lemma findServer_replaced (id : string) (l : list Server) (s s' : Server) :
  findServer id l = Some s ->
  server_ID s' = id ->
  findServer id (replaceServer s' l) = Some s'.
Proof. intros F <-. apply (findServer_replace l s s' F). Qed.

Lemma findServer_replace_other (id : string) (l : list Server) (s' : Server) :
  id <> server_ID s' ->
  findServer id (replaceServer s' l) = findServer id l.
Proof.
  intros Hne. induction l as [|x l IH]; simpl; [reflexivity|].
  destruct (String.eqb_spec (server_ID x) (server_ID s')) as [E | _]; simpl.
  - destruct (String.eqb_spec (server_ID s') id); [congruence|].
    destruct (String.eqb_spec (server_ID x) id); [congruence | reflexivity].
  - destruct (String.eqb (server_ID x) id); [reflexivity | exact IH].
Qed.

(** What a successful [createKubernetesMetaData] has done. *)
Lemma createKubernetesMetaData_done (serverID name : string) (c c' : Compute) :
  createKubernetesMetaData serverID name c = (c', Done tt) ->
  exists s,
    findServer serverID (servers c) = Some s
    /\ c' = mkCompute
              (replaceServer
                 (withMetadata (setKey "KubernetesName" name (server_Metadata s)) s)
                 (servers c))
              (serversPerPage c) (computeFault c).
Proof.
  unfold createKubernetesMetaData, serversUpdateMetadata.
  destruct (computeFault c (ServersUpdateMetadata serverID)); [discriminate|].
  destruct (findServer serverID (servers c)) as [s|] eqn:F; [|discriminate].
  cbn [fold_left fst snd]. intros [= <-]. exists s. split; reflexivity.
Qed.

Lemma written_name_is_read (serverID name : string) (c c' : Compute) :
  createKubernetesMetaData serverID name c = (c', Done tt) ->
  computeFault c (ServersMetadata serverID) = None ->
  getKubernetesMetaData c' serverID = Done name.
Proof.
  intros H Hf. destruct (createKubernetesMetaData_done _ _ _ _ H) as (s & F & ->).
  destruct (findServer_id _ _ _ F) as [Hid _].
  unfold getKubernetesMetaData, serversMetadata. cbn [computeFault servers].
  rewrite Hf, (findServer_replaced serverID _ s) by (try exact F; exact Hid).
  cbn [withMetadata server_Metadata]. rewrite lookup_setKey_same. reflexivity.
Qed.

Lemma written_name_keeps_others (serverID name : string) (c c' : Compute) (other : string) :
  createKubernetesMetaData serverID name c = (c', Done tt) ->
  other <> serverID ->
  serversMetadata c' other = serversMetadata c other.
Proof.
  intros H Hne. destruct (createKubernetesMetaData_done _ _ _ _ H) as (s & F & ->).
  destruct (findServer_id _ _ _ F) as [Hid _].
  unfold serversMetadata. cbn [computeFault servers].
  rewrite findServer_replace_other by (cbn [withMetadata server_ID]; congruence).
  reflexivity.
Qed.

(** X3. The name written by [createKubernetesMetaData] is the name read by
    [getKubernetesMetaData]: after a successful write for a server, the
    read for this server returns the name written, unless the metadata
    call itself fails; the metadata of the other servers and the other
    items of this server are as before, and so are the faults and the page
    size of the service. *)
Theorem metadata_write_then_read (serverID name : string) (c c' : Compute) :
  createKubernetesMetaData serverID name c = (c', Done tt) ->
  (computeFault c (ServersMetadata serverID) = None ->
   getKubernetesMetaData c' serverID = Done name)
  /\ (forall other, other <> serverID ->
        serversMetadata c' other = serversMetadata c other
        /\ getKubernetesMetaData c' other = getKubernetesMetaData c other)
  /\ (forall key m m', key <> "KubernetesName"%string ->
        serversMetadata c serverID = Done m ->
        serversMetadata c' serverID = Done m' ->
        lookup key m' = lookup key m)
  /\ computeFault c' = computeFault c
  /\ serversPerPage c' = serversPerPage c.
Proof.
  intros H. splits.
  - apply (written_name_is_read _ _ _ _ H).
  - intros other Hne.
    assert (E := written_name_keeps_others _ _ _ _ other H Hne).
    split; [exact E|]. unfold getKubernetesMetaData. rewrite E. reflexivity.
  - destruct (createKubernetesMetaData_done _ _ _ _ H) as (s & F & ->).
    destruct (findServer_id _ _ _ F) as [Hid _].
    intros key m m' Hk. unfold serversMetadata. cbn [computeFault servers].
    rewrite F, (findServer_replaced serverID _ s) by (try exact F; exact Hid).
    destruct (computeFault c (ServersMetadata serverID)); [discriminate|].
    intros [= <-] [= <-]. cbn [withMetadata server_Metadata].
    apply lookup_setKey_other, Hk.
  - destruct (createKubernetesMetaData_done _ _ _ _ H) as (s & F & ->). reflexivity.
  - destruct (createKubernetesMetaData_done _ _ _ _ H) as (s & F & ->). reflexivity.
Qed.

(* ------------------------------------------------------------------ *)
(** ** Walks over the pages of a listing *)

Lemma paginate_concat {X} (fuel size : nat) (l : list X) :
  (List.length l <= fuel)%nat -> List.concat (paginate fuel size l) = l.
Proof.
  revert l. induction fuel as [|fuel IH]; intros l Hlen.
  - destruct l; [reflexivity | simpl in Hlen; lia].
  - destruct l as [|x l]; [reflexivity|].
    cbn [paginate]. destruct size as [|n].
    + cbn [List.concat]. apply app_nil_r.
    + cbn [List.concat]. rewrite IH.
      * apply firstn_skipn.
      * rewrite length_skipn. simpl in *. lia.
Qed.

Lemma paginate_nonempty {X} (fuel size : nat) (l : list X) :
  Forall (fun c => c <> []) (paginate fuel size l).
Proof.
  revert l. induction fuel as [|fuel IH]; intros l; [constructor|].
  destruct l as [|x l]; [constructor|].
  cbn [paginate]. destruct size as [|n].
  - constructor; [discriminate | constructor].
  - constructor; [simpl; discriminate | apply IH].
Qed.

Lemma paginate_map {X Y} (f : X -> Y) (fuel size : nat) (l : list X) :
  paginate fuel size (map f l) = map (map f) (paginate fuel size l).
Proof.
  revert l. induction fuel as [|fuel IH]; intros l; [reflexivity|].
  destruct l as [|x l]; [reflexivity|].
  destruct size as [|n]; [reflexivity|].
  change (paginate (S fuel) (S n) (map f (x :: l)))
    with (firstn (S n) (map f (x :: l))
          :: paginate fuel (S n) (skipn (S n) (map f (x :: l)))).
  rewrite firstn_map, skipn_map, IH. reflexivity.
Qed.

Lemma pagesOf_concat {X} (size : nat) (l : list X) :
  List.concat (pagesOf size l) = l.
Proof.
  unfold pagesOf. destruct l as [|x l]; [reflexivity|].
  apply paginate_concat. lia.
Qed.

Lemma pagesOf_map {X Y} (f : X -> Y) (size : nat) (l : list X) :
  pagesOf size (map f l) = map (map f) (pagesOf size l).
Proof.
  unfold pagesOf. destruct l as [|x l]; [reflexivity|].
  cbn [map]. change (f x :: map f l) with (map f (x :: l)).
  rewrite length_map. apply paginate_map.
Qed.

(** No page but the first of an empty listing is empty. *)
Lemma pagesOf_nonempty {X} (size : nat) (l : list X) :
  pagesOf size l = [[]] \/ Forall (fun c => c <> []) (pagesOf size l).
Proof.
  unfold pagesOf. destruct l as [|x l]; [left; reflexivity|].
  right. apply paginate_nonempty.
Qed.

Lemma delivered_chunks {X} (fault : nat -> option Error) (i : nat)
    (chunks : list (list X)) :
  (forall j, fault j = None) ->
  Forall (fun c => c <> []) chunks ->
  delivered (fetched fault i chunks) = (List.concat chunks, None).
Proof.
  intros Hf Hne. revert i. induction Hne as [|c chunks Hc _ IH]; intros i.
  - reflexivity.
  - cbn [fetched]. rewrite Hf. destruct c as [|x c]; [congruence|].
    cbn [delivered]. rewrite IH. reflexivity.
Qed.

Lemma delivered_fetched {X} (fault : nat -> option Error) (size : nat) (l : list X) :
  (forall j, fault j = None) ->
  delivered (fetched fault 0 (pagesOf size l)) = (l, None).
Proof.
  intros Hf. destruct (pagesOf_nonempty size l) as [E | Hne].
  - assert (El : l = []) by (rewrite <- (pagesOf_concat size l), E; reflexivity).
    rewrite E, El. cbn [fetched]. rewrite Hf. reflexivity.
  - rewrite (delivered_chunks fault 0 _ Hf Hne), pagesOf_concat. reflexivity.
Qed.

Lemma delivered_incl {X} (fault : nat -> option Error) (i : nat)
    (chunks : list (list X)) :
  incl (fst (delivered (fetched fault i chunks))) (List.concat chunks).
Proof.
  revert i. induction chunks as [|c chunks IH]; intros i.
  - simpl. apply incl_refl.
  - cbn [fetched]. destruct (fault i).
    + simpl. intros x [].
    + destruct c as [|x c]; [simpl; intros y []|].
      cbn [delivered fst List.concat]. apply incl_app_app; [apply incl_refl | apply IH].
Qed.

(** The walk ends with the error of the first page that fails, when this
    page is reached. *)
Lemma delivered_fault_chunks {X} (fault : nat -> option Error) (i k : nat) (e : Error)
    (chunks : list (list X)) :
  Forall (fun c => c <> []) (firstn k chunks) ->
  (k < List.length chunks)%nat ->
  fault (i + k)%nat = Some e ->
  (forall j, (j < k)%nat -> fault (i + j)%nat = None) ->
  snd (delivered (fetched fault i chunks)) = Some e.
Proof.
  revert i k. induction chunks as [|c chunks IH]; intros i k Hne Hk He Hbefore.
  - simpl in Hk. lia.
  - cbn [fetched]. destruct k as [|k].
    + rewrite Nat.add_0_r in He. rewrite He. reflexivity.
    + rewrite <- (Nat.add_0_r i) at 1. rewrite (Hbefore 0%nat) by lia.
      cbn [firstn] in Hne. apply Forall_cons_iff in Hne. destruct Hne as [Hc Hne].
      destruct c as [|x c]; [congruence|]. cbn [delivered snd].
      apply (IH (S i) k).
      * exact Hne.
      * simpl in Hk. lia.
      * rewrite <- He. f_equal. lia.
      * intros j Hj. rewrite <- (Hbefore (S j)) by lia. f_equal. lia.
Qed.

Lemma delivered_fault {X} (fault : nat -> option Error) (k : nat) (e : Error)
    (size : nat) (l : list X) :
  (k < List.length (pagesOf size l))%nat ->
  fault k = Some e ->
  (forall j, (j < k)%nat -> fault j = None) ->
  snd (delivered (fetched fault 0 (pagesOf size l))) = Some e.
Proof.
  intros Hk He Hbefore. apply (delivered_fault_chunks fault 0 k e); try assumption.
  destruct (pagesOf_nonempty size l) as [E | Hne].
  - rewrite E in *. simpl in Hk. assert (k = 0)%nat by lia. subst k. constructor.
  - apply Forall_forall. intros c Hc. rewrite Forall_forall in Hne. apply Hne.
    apply (in_firstn c k). exact Hc.
Qed.

Lemma EachPage_collectNamed (c : Compute) (metadata : string)
    (pages : list (Page Server)) (acc : list Server) :
  EachPage pages (collectNamed c metadata) acc
  = (acc ++ filter (namedBy c metadata) (fst (delivered pages)),
     match snd (delivered pages) with
     | Some e => Failed (ServiceError e)
     | None => Done tt
     end).
Proof.
  revert acc. induction pages as [|pg pages IH]; intros acc.
  - simpl. rewrite app_nil_r. reflexivity.
  - destruct pg as [e | [|x items]].
    + simpl. rewrite app_nil_r. reflexivity.
    + simpl. rewrite app_nil_r. reflexivity.
    + cbn [EachPage collectNamed delivered fst snd]. rewrite IH.
      rewrite filter_app, app_assoc. reflexivity.
Qed.

(* ------------------------------------------------------------------ *)
(** ** The server of a name *)

(** The verdict of lines 80-86 on the servers collected. *)
Lemma getServerFromMetadata_eq (c : Compute) (metadata : string) :
  getServerFromMetadata c metadata
  = match snd (delivered (serversList c "ACTIVE")) with
    | Some e => Failed (ServiceError e)
    | None =>
        match filter (namedBy c metadata) (fst (delivered (serversList c "ACTIVE"))) with
        | [] => Failed ErrNotFound
        | [s] => Done s
        | _ :: _ :: _ => Failed ErrMultipleResults
        end
    end.
Proof.
  unfold getServerFromMetadata. rewrite EachPage_collectNamed. cbn [app].
  destruct (snd (delivered (serversList c "ACTIVE"))); [reflexivity|].
  destruct (filter (namedBy c metadata) (fst (delivered (serversList c "ACTIVE"))))
    as [|s [|s2 l]]; reflexivity.
Qed.

Lemma serversList_delivered (c : Compute) (status : string) :
  (forall i, computeFault c (ServersList i) = None) ->
  delivered (serversList c status)
  = (filter (fun s => String.eqb (server_Status s) status) (servers c), None).
Proof.
  intros Hf. unfold serversList. apply delivered_fetched. exact Hf.
Qed.

Lemma filter_filter_andb {X} (f g : X -> bool) (l : list X) :
  filter f (filter g l) = filter (fun x => g x && f x) l.
Proof.
  induction l as [|x l IH]; simpl; [reflexivity|].
  destruct (g x); simpl; [destruct (f x)|]; rewrite IH; reflexivity.
Qed.

Lemma getServerFromMetadata_listed (c : Compute) (metadata : string) :
  (forall i, computeFault c (ServersList i) = None) ->
  getServerFromMetadata c metadata
  = match filter (fun s => String.eqb (server_Status s) "ACTIVE"
                           && namedBy c metadata s) (servers c) with
    | [] => Failed ErrNotFound
    | [s] => Done s
    | _ :: _ :: _ => Failed ErrMultipleResults
    end.
Proof.
  intros Hf. rewrite getServerFromMetadata_eq, (serversList_delivered c "ACTIVE" Hf).
  cbn [fst snd]. rewrite filter_filter_andb. reflexivity.
Qed.

(** X4. When the listing of the servers goes through,
    [getServerFromMetadata] decides by the number of ACTIVE servers whose
    [KubernetesName] reads as the name asked for, however the service cuts
    the listing into pages: none is [ErrNotFound], one is this server,
    more are [ErrMultipleResults]. *)
Theorem getServerFromMetadata_by_count (c : Compute) (metadata : string) :
  (forall i, computeFault c (ServersList i) = None) ->
  getServerFromMetadata c metadata
  = match filter (fun s => String.eqb (server_Status s) "ACTIVE"
                           && namedBy c metadata s) (servers c) with
    | [] => Failed ErrNotFound
    | [s] => Done s
    | _ :: _ :: _ => Failed ErrMultipleResults
    end.
Proof. apply getServerFromMetadata_listed. Qed.

(** X5. A server returned by [getServerFromMetadata] is a server of the
    service, is ACTIVE, and its [KubernetesName] reads as the name asked
    for; this holds whatever calls of the service fail. *)
Theorem getServerFromMetadata_sound (c : Compute) (metadata : string) (s : Server) :
  getServerFromMetadata c metadata = Done s ->
  In s (servers c)
  /\ server_Status s = "ACTIVE"%string
  /\ getKubernetesMetaData c (server_ID s) = Done metadata.
Proof.
  rewrite getServerFromMetadata_eq.
  destruct (snd (delivered (serversList c "ACTIVE"))); [discriminate|].
  destruct (filter (namedBy c metadata) (fst (delivered (serversList c "ACTIVE"))))
    as [|s1 [|s2 l]] eqn:F; try discriminate.
  intros [= ->].
  assert (Hin : In s (filter (namedBy c metadata)
                             (fst (delivered (serversList c "ACTIVE")))))
    by (rewrite F; left; reflexivity).
  apply filter_In in Hin. destruct Hin as [Hd Hn].
  apply delivered_incl in Hd. rewrite pagesOf_concat in Hd.
  apply filter_In in Hd. destruct Hd as [Hs Ha].
  splits.
  - exact Hs.
  - apply String.eqb_eq, Ha.
  - unfold namedBy in Hn.
    destruct (getKubernetesMetaData c (server_ID s)) as [name| |]; try discriminate.
    apply String.eqb_eq in Hn. congruence.
Qed.

(** X6. The first page of the listing that fails ends
    [getServerFromMetadata] with the error of the service, also when
    servers of the pages before carry the name. *)
Theorem getServerFromMetadata_page_error (c : Compute) (metadata : string)
    (k : nat) (e : Error) :
  (k < List.length (pagesOf (serversPerPage c)
                            (filter (fun s => String.eqb (server_Status s) "ACTIVE")
                                    (servers c))))%nat ->
  computeFault c (ServersList k) = Some e ->
  (forall j, (j < k)%nat -> computeFault c (ServersList j) = None) ->
  getServerFromMetadata c metadata = Failed (ServiceError e).
Proof.
  intros Hk He Hbefore. rewrite getServerFromMetadata_eq. unfold serversList.
  rewrite (delivered_fault (fun i => computeFault c (ServersList i)) k e).
  - reflexivity.
  - exact Hk.
  - exact He.
  - exact Hbefore.
Qed.

Lemma filter_none {X} (f : X -> bool) (l : list X) :
  (forall x, In x l -> f x = false) -> filter f l = [].
Proof.
  induction l as [|x l IH]; intros H; simpl; [reflexivity|].
  rewrite (H x) by (left; reflexivity). apply IH. intros y Hy. apply H. right. exact Hy.
Qed.

(** X7. [getServerFromMetadata] takes a server whose metadata cannot be
    read for a server without the name: when the metadata call fails for
    every ACTIVE server, the answer is [ErrNotFound], not the error of the
    service. *)
Theorem getServerFromMetadata_hides_metadata_errors (c : Compute) (metadata : string) :
  (forall i, computeFault c (ServersList i) = None) ->
  (forall s, In s (servers c) -> server_Status s = "ACTIVE"%string ->
             computeFault c (ServersMetadata (server_ID s)) <> None) ->
  getServerFromMetadata c metadata = Failed ErrNotFound.
Proof.
  intros Hl Hm. rewrite (getServerFromMetadata_listed c metadata Hl).
  rewrite filter_none; [reflexivity|].
  intros s Hs. destruct (String.eqb_spec (server_Status s) "ACTIVE") as [Ha|]; [|reflexivity].
  cbn [andb]. unfold namedBy, getKubernetesMetaData, serversMetadata.
  specialize (Hm s Hs Ha).
  destruct (computeFault c (ServersMetadata (server_ID s))); [reflexivity | congruence].
Qed.

Lemma filter_replaced_server (P : Server -> bool) (l : list Server) (s s' : Server) :
  NoDup (map server_ID l) ->
  findServer (server_ID s') l = Some s ->
  P s' = true ->
  (forall x, In x l -> server_ID x <> server_ID s' -> P x = false) ->
  filter P (replaceServer s' l) = [s'].
Proof.
  intros Hnd. induction l as [|x l IH]; intros F Hs' Hother; [discriminate|].
  cbn [map] in Hnd. apply NoDup_cons_iff in Hnd. destruct Hnd as [Hx Hnd].
  cbn [findServer] in F. cbn [replaceServer].
  destruct (String.eqb_spec (server_ID x) (server_ID s')) as [E | Hne].
  - cbn [filter]. rewrite Hs'. f_equal. apply filter_none.
    intros y Hy. apply Hother; [right; exact Hy|].
    intros Ey. apply Hx. rewrite E, <- Ey. apply in_map, Hy.
  - cbn [filter]. rewrite (Hother x) by (try (left; reflexivity); exact Hne).
    apply IH; try assumption.
    intros y Hy. apply Hother. right. exact Hy.
Qed.

(** X8. A server named by [createKubernetesMetaData] is the server that
    [getServerFromMetadata] finds under the name: when the identifiers of
    the servers are distinct, the server is ACTIVE, no other server reads
    as the name and neither the listing nor the metadata call of the
    server fails, the search for the name after the write returns the
    server written to, with the name in its metadata. *)
Theorem named_server_is_found (serverID name : string) (c c' : Compute) (s : Server) :
  createKubernetesMetaData serverID name c = (c', Done tt) ->
  NoDup (map server_ID (servers c)) ->
  findServer serverID (servers c) = Some s ->
  server_Status s = "ACTIVE"%string ->
  (forall i, computeFault c (ServersList i) = None) ->
  computeFault c (ServersMetadata serverID) = None ->
  (forall x, In x (servers c) -> server_ID x <> serverID -> namedBy c name x = false) ->
  getServerFromMetadata c' name
  = Done (withMetadata (setKey "KubernetesName" name (server_Metadata s)) s).
Proof.
  intros H Hnd F Hact Hl Hm Hother.
  assert (Hread := written_name_is_read _ _ _ _ H Hm).
  assert (Hkeep := fun other => written_name_keeps_others _ _ _ _ other H).
  destruct (createKubernetesMetaData_done _ _ _ _ H) as (s0 & F0 & Ec).
  assert (s0 = s) by congruence. subst s0.
  destruct (findServer_id _ _ _ F) as [Hid _].
  set (s' := withMetadata (setKey "KubernetesName" name (server_Metadata s)) s) in *.
  assert (Hid' : server_ID s' = serverID) by exact Hid.
  rewrite getServerFromMetadata_listed by (rewrite Ec; exact Hl).
  assert (Es : servers c' = replaceServer s' (servers c)) by (rewrite Ec; reflexivity).
  rewrite Es, (filter_replaced_server _ _ s s').
  - reflexivity.
  - exact Hnd.
  - rewrite Hid'. exact F.
  - cbn [s' withMetadata server_Status]. rewrite Hact. cbn [String.eqb andb].
    unfold namedBy. rewrite Hid', Hread. apply String.eqb_refl.
  - intros x Hx Hne. rewrite Hid' in Hne.
    destruct (String.eqb (server_Status x) "ACTIVE"); [|reflexivity]. cbn [andb].
    rewrite <- (Hother x Hx Hne). unfold namedBy, getKubernetesMetaData.
    rewrite (Hkeep (server_ID x) Hne). reflexivity.
Qed.

(* ------------------------------------------------------------------ *)
(** ** Allowed address pairs *)

Lemma scanItems_crash (items : list Value) (mac : string) :
  scanItems items mac = Crashed <-> existsb malformed items = true.
Proof.
  revert mac. induction items as [|item items IH]; intros mac.
  - simpl. split; discriminate.
  - cbn [scanItems existsb]. destruct item as [t | l | props |]; cbn [malformed orb];
      try apply IH.
    destruct (isFixed props); cbn [andb orb]; [|apply IH].
    destruct (lookup "OS-EXT-IPS-MAC:mac_addr" props) as [[m | | |]|]; cbn [orb];
      try apply IH; split; reflexivity.
Qed.

Lemma scanItems_not_failed (items : list Value) (mac : string) (e : CloudError) :
  scanItems items mac <> Failed e.
Proof.
  revert mac. induction items as [|item items IH]; intros mac; [discriminate|].
  cbn [scanItems]. destruct item as [t | l | props |]; try apply IH.
  destruct (isFixed props); [|apply IH].
  destruct (lookup "OS-EXT-IPS-MAC:mac_addr" props) as [[m | | |]|];
    try apply IH; discriminate.
Qed.

Lemma scanAddresses_crash (addresses : list (string * Value)) (mac : string) :
  scanAddresses addresses mac = Crashed <-> existsb malformedNetwork addresses = true.
Proof.
  revert mac. induction addresses as [|[net blob] addresses IH]; intros mac.
  - simpl. split; discriminate.
  - cbn [scanAddresses existsb]. unfold malformedNetwork at 1. cbn [snd].
    destruct blob as [t | items | props |]; cbn [orb]; try apply IH.
    destruct (scanItems items mac) as [m | e |] eqn:S.
    + destruct (existsb malformed items) eqn:Ex.
      * apply (proj2 (scanItems_crash items mac)) in Ex. congruence.
      * cbn [orb]. apply IH.
    + exfalso. exact (scanItems_not_failed _ _ _ S).
    + apply (proj1 (scanItems_crash items mac)) in S. rewrite S. split; reflexivity.
Qed.

Lemma scanAddresses_done (addresses : list (string * Value)) (mac : string) :
  existsb malformedNetwork addresses = false ->
  exists m, scanAddresses addresses mac = Done m.
Proof.
  revert mac. induction addresses as [|[net blob] addresses IH]; intros mac H.
  - exists mac. reflexivity.
  - cbn [existsb] in H. apply orb_false_iff in H. destruct H as [Hb Hrest].
    cbn [scanAddresses]. unfold malformedNetwork in Hb. cbn [snd] in Hb.
    destruct blob as [t | items | props |]; try (apply IH; exact Hrest).
    destruct (scanItems items mac) as [m | e |] eqn:S.
    + apply IH, Hrest.
    + exfalso. exact (scanItems_not_failed _ _ _ S).
    + apply (proj1 (scanItems_crash items mac)) in S. congruence.
Qed.

(** X9. [setAllowedAddressPair] panics exactly on a server that has, in
    one of its networks, a fixed address item whose
    [OS-EXT-IPS-MAC:mac_addr] is missing or is no string (the type
    assertion of line 104); the panic comes before any call to the
    networking service, whose ports are untouched. On any other server it
    does not panic. *)
Theorem setAllowedAddressPair_panics_on_malformed (server : Server)
    (address : string) (ps : Ports) :
  (existsb malformedNetwork (server_Addresses server) = true ->
   setAllowedAddressPair server address ps = (ps, Crashed))
  /\ (existsb malformedNetwork (server_Addresses server) = false ->
      snd (setAllowedAddressPair server address ps) <> Crashed).
Proof.
  split; intros H.
  - apply (proj2 (scanAddresses_crash _ ""%string)) in H.
    unfold setAllowedAddressPair. rewrite H. reflexivity.
  - destruct (scanAddresses_done _ ""%string H) as (m & Hm).
    unfold setAllowedAddressPair. rewrite Hm.
    clear H. cbv zeta. destruct (existsb _ _); [cbn; discriminate|].
    unfold portsUpdate. destruct (portFault ps _); [cbn; discriminate|].
    destruct (replacePairs _ _ _); cbn; discriminate.
Qed.

Lemma EachPage_firstPort (pages : list (Page Port)) (z : Port) :
  fst (EachPage pages firstPort z)
  = match pickedPort pages with
    | Some p => p
    | None => z
    end.
Proof.
  revert z. induction pages as [|pg pages IH]; intros z; [reflexivity|].
  destruct pg as [e | [|p items]]; try reflexivity.
  cbn [EachPage firstPort pickedPort]. rewrite IH.
  destruct (pickedPort pages); reflexivity.
Qed.

Lemma pickedPort_in (fault : nat -> option Error) (i : nat)
    (chunks : list (list Port)) (p : Port) :
  pickedPort (fetched fault i chunks) = Some p -> In p (List.concat chunks).
Proof.
  revert i. induction chunks as [|c chunks IH]; intros i; [discriminate|].
  cbn [fetched]. destruct (fault i); [discriminate|].
  destruct c as [|q c]; [discriminate|].
  cbn [pickedPort List.concat]. destruct (pickedPort (fetched fault (S i) chunks)) eqn:P.
  - intros [= <-]. apply in_or_app. right. apply (IH (S i)). exact P.
  - intros [= <-]. left. reflexivity.
Qed.

Lemma pickedPort_map (f : Port -> Port) (fault : nat -> option Error) (i : nat)
    (chunks : list (list Port)) :
  pickedPort (fetched fault i (map (map f) chunks))
  = option_map f (pickedPort (fetched fault i chunks)).
Proof.
  revert i. induction chunks as [|c chunks IH]; intros i; [reflexivity|].
  cbn [map fetched]. destruct (fault i); [reflexivity|].
  destruct c as [|q c]; [reflexivity|].
  cbn [map pickedPort]. rewrite IH.
  destruct (pickedPort (fetched fault (S i) chunks)); reflexivity.
Qed.

(** With distinct identifiers, [ports.Update] changes the port of the
    identifier and no other. *)
Lemma replacePairs_map (id : string) (pairs : list AddressPair) (l l' : list Port) :
  NoDup (map port_ID l) ->
  replacePairs id pairs l = Some l' ->
  l' = map (withPairs id pairs) l.
Proof.
  intros Hnd. revert l'. induction l as [|q l IH]; intros l'; [discriminate|].
  cbn [map] in Hnd. apply NoDup_cons_iff in Hnd. destruct Hnd as [Hq Hnd].
  cbn [replacePairs map]. unfold withPairs at 1.
  destruct (String.eqb_spec (port_ID q) id) as [E | Hne].
  - intros [= <-]. f_equal. symmetry. rewrite <- (map_id l) at 2.
    apply map_ext_in. intros x Hx. unfold withPairs.
    destruct (String.eqb_spec (port_ID x) id) as [Ex|]; [|reflexivity].
    exfalso. apply Hq. rewrite E, <- Ex. apply in_map, Hx.
  - destruct (replacePairs id pairs l) as [rest|]; [|discriminate].
    intros [= <-]. f_equal. apply IH; [exact Hnd | reflexivity].
Qed.

Lemma replacePairs_again (id : string) (pairs : list AddressPair) (l l' : list Port) :
  replacePairs id pairs l = Some l' -> replacePairs id pairs l' = Some l'.
Proof.
  revert l'. induction l as [|q l IH]; intros l'; [discriminate|].
  cbn [replacePairs]. destruct (String.eqb (port_ID q) id) eqn:E.
  - intros [= <-]. cbn [replacePairs port_ID port_MACAddress]. rewrite E. reflexivity.
  - destruct (replacePairs id pairs l) as [rest|]; [|discriminate].
    intros [= <-]. cbn [replacePairs]. rewrite E, (IH rest eq_refl). reflexivity.
Qed.

Lemma withPairs_keeps (id : string) (pairs : list AddressPair) (q : Port) :
  port_ID (withPairs id pairs q) = port_ID q
  /\ port_MACAddress (withPairs id pairs q) = port_MACAddress q.
Proof. unfold withPairs. destruct (String.eqb (port_ID q) id); split; reflexivity. Qed.

Lemma filter_map_keeps {X} (f : X -> X) (P : X -> bool) (l : list X) :
  (forall x, P (f x) = P x) -> filter P (map f l) = map f (filter P l).
Proof.
  intros H. induction l as [|x l IH]; simpl; [reflexivity|].
  rewrite H. destruct (P x); simpl; rewrite IH; reflexivity.
Qed.

(** The listing after an update of the pairs of a port: the same pages,
    with the port updated. *)
Lemma portsList_after_update (ps : Ports) (id mac : string) (pairs : list AddressPair) :
  portsList (mkPorts (map (withPairs id pairs) (portList ps)) (portsPerPage ps)
                     (portFault ps)) mac
  = fetched (fun i => portFault ps (PortsList i)) 0
            (map (map (withPairs id pairs))
                 (pagesOf (portsPerPage ps)
                          (filter (fun p => String.eqb mac ""
                                            || String.eqb (port_MACAddress p) mac)
                                  (portList ps)))).
Proof.
  unfold portsList. cbn [portList portsPerPage portFault]. f_equal.
  rewrite filter_map_keeps.
  - apply pagesOf_map.
  - intros x. destruct (withPairs_keeps id pairs x) as [_ ->]. reflexivity.
Qed.

Lemma setAllowedAddressPair_eq (server : Server) (address mac : string) (ps : Ports) :
  scanAddresses (server_Addresses server) "" = Done mac ->
  setAllowedAddressPair server address ps
  = match pickedPort (portsList ps mac) with
    | Some p =>
        if allows address p then (ps, Done tt)
        else portsUpdate ps (port_ID p)
                         (AllowedAddressPairs p ++ [mkAddressPair address ""])
    | None => portsUpdate ps "" [mkAddressPair address ""]
    end.
Proof.
  intros Hm. unfold setAllowedAddressPair. rewrite Hm. cbv zeta.
  rewrite EachPage_firstPort. destruct (pickedPort (portsList ps mac)); reflexivity.
Qed.

Lemma picked_in_ports (ps : Ports) (mac : string) (p : Port) :
  pickedPort (portsList ps mac) = Some p ->
  In p (portList ps) /\ (mac = ""%string \/ port_MACAddress p = mac).
Proof.
  intros H. unfold portsList in H. apply pickedPort_in in H.
  rewrite pagesOf_concat in H.
  apply filter_In in H. destruct H as [Hin Hm]. split; [exact Hin|].
  apply orb_true_iff in Hm. destruct Hm as [Hm | Hm]; apply String.eqb_eq in Hm; auto.
Qed.

Lemma replacePairs_absent (id : string) (pairs : list AddressPair) (l : list Port) :
  (forall q, In q l -> port_ID q <> id) -> replacePairs id pairs l = None.
Proof.
  induction l as [|q l IH]; intros H; [reflexivity|].
  cbn [replacePairs].
  destruct (String.eqb_spec (port_ID q) id) as [E|_].
  - exfalso. apply (H q); [left; reflexivity | exact E].
  - rewrite IH; [reflexivity|]. intros x Hx. apply H. right. exact Hx.
Qed.

Lemma allows_appended (address : string) (pairs : list AddressPair) :
  existsb (fun pair => String.eqb (IPAddress pair) address)
          (pairs ++ [mkAddressPair address ""]) = true.
Proof.
  rewrite existsb_app. cbn [existsb IPAddress]. rewrite String.eqb_refl.
  rewrite orb_true_r. reflexivity.
Qed.

(** X10. A successful [setAllowedAddressPair] only ever adds: when the
    identifiers of the ports are distinct and none is empty, the call has
    picked a port of the service, which carries the MAC address of the
    server's fixed address if the server has one; either the address was
    allowed on this port already and nothing has changed, or this port, and
    no other, has changed, and it allows its former pairs followed by the
    address. *)
Theorem setAllowedAddressPair_adds_one_pair (server : Server) (address : string)
    (ps ps' : Ports) :
  NoDup (map port_ID (portList ps)) ->
  (forall q, In q (portList ps) -> port_ID q <> ""%string) ->
  setAllowedAddressPair server address ps = (ps', Done tt) ->
  exists mac p,
    scanAddresses (server_Addresses server) "" = Done mac
    /\ In p (portList ps)
    /\ (mac = ""%string \/ port_MACAddress p = mac)
    /\ ((allows address p = true /\ ps' = ps)
        \/ (allows address p = false
            /\ ps' = mkPorts
                       (map (withPairs (port_ID p)
                                       (AllowedAddressPairs p
                                        ++ [mkAddressPair address ""]))
                            (portList ps))
                       (portsPerPage ps) (portFault ps))).
Proof.
  intros Hnd Hids H.
  destruct (scanAddresses (server_Addresses server) "") as [mac | e |] eqn:Hm;
    [| unfold setAllowedAddressPair in H; rewrite Hm in H; discriminate
     | unfold setAllowedAddressPair in H; rewrite Hm in H; discriminate].
  rewrite (setAllowedAddressPair_eq server address mac ps Hm) in H.
  destruct (pickedPort (portsList ps mac)) as [p|] eqn:P.
  - destruct (picked_in_ports ps mac p P) as [Hin Hmac].
    exists mac, p. splits; try assumption; try reflexivity.
    destruct (allows address p) eqn:A.
    + left. split; [reflexivity | congruence].
    + right. split; [reflexivity|].
      unfold portsUpdate in H. destruct (portFault ps _); [discriminate|].
      destruct (replacePairs _ _ _) as [l'|] eqn:R; [|discriminate].
      apply (replacePairs_map _ _ _ _ Hnd) in R. subst l'. congruence.
  - exfalso. unfold portsUpdate in H. destruct (portFault ps _); [discriminate|].
    rewrite replacePairs_absent in H by exact Hids. discriminate.
Qed.

(** A second call that picks the MAC address of the first one finds the
    ports as the first call left them. *)
Lemma setAllowedAddressPair_again (server again : Server) (address mac : string)
    (ps ps' : Ports) :
  NoDup (map port_ID (portList ps)) ->
  scanAddresses (server_Addresses server) "" = Done mac ->
  scanAddresses (server_Addresses again) "" = Done mac ->
  setAllowedAddressPair server address ps = (ps', Done tt) ->
  setAllowedAddressPair again address ps' = (ps', Done tt).
Proof.
  intros Hnd Hm Hm' H.
  rewrite (setAllowedAddressPair_eq server address mac ps Hm) in H.
  rewrite (setAllowedAddressPair_eq again address mac ps' Hm').
  destruct (pickedPort (portsList ps mac)) as [p|] eqn:P.
  - destruct (allows address p) eqn:A.
    + assert (ps' = ps) by congruence. subst ps'. rewrite P, A. reflexivity.
    + unfold portsUpdate in H. destruct (portFault ps _) eqn:Fu; [discriminate|].
      destruct (replacePairs _ _ _) as [l'|] eqn:R; [|discriminate].
      apply (replacePairs_map _ _ _ _ Hnd) in R. subst l'.
      injection H as <-.
      rewrite portsList_after_update.
      unfold portsList in P. rewrite pickedPort_map, P. cbn [option_map].
      unfold withPairs at 1, allows. rewrite String.eqb_refl.
      cbn [AllowedAddressPairs]. rewrite allows_appended. reflexivity.
  - unfold portsUpdate in H. destruct (portFault ps _) eqn:Fu; [discriminate|].
    destruct (replacePairs _ _ _) as [l'|] eqn:R; [|discriminate].
    assert (R2 := replacePairs_again _ _ _ _ R).
    apply (replacePairs_map _ _ _ _ Hnd) in R. subst l'.
    injection H as <-.
    rewrite portsList_after_update.
    unfold portsList in P. rewrite pickedPort_map, P. cbn [option_map].
    unfold portsUpdate. cbn [portFault portList portsPerPage].
    rewrite Fu, R2. reflexivity.
Qed.

Lemma scanItems_one_mac (m : string) (items : list Value) (mac : string) :
  forallb (fixedAt m) items = true ->
  scanItems items mac = Done (if existsb isFixedItem items then m else mac).
Proof.
  revert mac. induction items as [|item items IH]; intros mac H; [reflexivity|].
  cbn [forallb] in H. apply andb_true_iff in H. destruct H as [Hi Hrest].
  cbn [scanItems existsb].
  destruct item as [t | l | props |]; cbn [isFixedItem orb]; try (apply IH, Hrest).
  cbn [fixedAt] in Hi. destruct (isFixed props); cbn [orb]; [|apply IH, Hrest].
  destruct (lookup "OS-EXT-IPS-MAC:mac_addr" props) as [[x | | |]|]; try discriminate.
  apply String.eqb_eq in Hi. subst x. rewrite (IH m Hrest).
  destruct (existsb isFixedItem items); reflexivity.
Qed.

Lemma scanAddresses_one_mac (m : string) (addresses : list (string * Value))
    (mac : string) :
  forallb (networkAt m) addresses = true ->
  scanAddresses addresses mac
  = Done (if existsb networkHasFixed addresses then m else mac).
Proof.
  revert mac. induction addresses as [|[net blob] addresses IH]; intros mac H;
    [reflexivity|].
  cbn [forallb] in H. apply andb_true_iff in H. destruct H as [Hn Hrest].
  cbn [scanAddresses existsb]. unfold networkHasFixed at 1. cbn [snd].
  unfold networkAt in Hn. cbn [snd] in Hn.
  destruct blob as [t | items | props |]; cbn [orb]; try (apply IH, Hrest).
  rewrite (scanItems_one_mac m items mac Hn), (IH _ Hrest).
  destruct (existsb isFixedItem items); cbn [orb]; [|reflexivity].
  destruct (existsb networkHasFixed addresses); reflexivity.
Qed.

Lemma forallb_permutation {X} (f : X -> bool) (l l' : list X) :
  Permutation l l' -> forallb f l = forallb f l'.
Proof.
  induction 1 as [| x l l' _ IH | x y l | l l' l'' _ IH1 _ IH2]; cbn [forallb].
  - reflexivity.
  - rewrite IH. reflexivity.
  - destruct (f x), (f y); reflexivity.
  - congruence.
Qed.

Lemma existsb_permutation {X} (f : X -> bool) (l l' : list X) :
  Permutation l l' -> existsb f l = existsb f l'.
Proof.
  induction 1 as [| x l l' _ IH | x y l | l l' l'' _ IH1 _ IH2]; cbn [existsb].
  - reflexivity.
  - rewrite IH. reflexivity.
  - destruct (f x), (f y); reflexivity.
  - congruence.
Qed.

(** X11. [setAllowedAddressPair] is idempotent on a server whose fixed
    address items all carry one MAC address, in whatever order the loops
    visit the networks of the server: when the identifiers of the ports
    are distinct and the second call is for the same server, with its
    networks visited in any order, and for the same address, the second
    call after a successful first one succeeds and leaves the ports as the
    first call left them. *)
Theorem setAllowedAddressPair_idempotent (server again : Server)
    (address m : string) (ps ps' : Ports) :
  NoDup (map port_ID (portList ps)) ->
  Permutation (server_Addresses server) (server_Addresses again) ->
  forallb (networkAt m) (server_Addresses server) = true ->
  setAllowedAddressPair server address ps = (ps', Done tt) ->
  setAllowedAddressPair again address ps' = (ps', Done tt).
Proof.
  intros Hnd Hperm Hone H.
  assert (Hone' : forallb (networkAt m) (server_Addresses again) = true)
    by (rewrite <- (forallb_permutation _ _ _ Hperm); exact Hone).
  apply (setAllowedAddressPair_again server again address
           (if existsb networkHasFixed (server_Addresses server) then m else ""%string)
           ps ps' Hnd).
  - apply scanAddresses_one_mac, Hone.
  - rewrite (existsb_permutation _ _ _ Hperm). apply scanAddresses_one_mac, Hone'.
  - exact H.
Qed.

(** With fixed addresses of two MAC addresses the order of the visit
    matters: the second call, visiting the networks in the other order,
    allows the address on a second port. *)
Lemma setAllowedAddressPair_order_matters :
  Permutation (server_Addresses twoNetworks) (server_Addresses twoNetworksAgain)
  /\ snd (setAllowedAddressPair twoNetworks "10.164.2.0/24" neutronPorts) = Done tt
  /\ setAllowedAddressPair twoNetworksAgain "10.164.2.0/24"
       (fst (setAllowedAddressPair twoNetworks "10.164.2.0/24" neutronPorts))
     <> (fst (setAllowedAddressPair twoNetworks "10.164.2.0/24" neutronPorts), Done tt).
Proof.
  split; [apply perm_swap|]. split; [reflexivity|]. vm_compute. discriminate.
Qed.

Lemma pickedPort_first_page_fails (ps : Ports) (mac : string) (e : Error) :
  portFault ps (PortsList 0) = Some e -> pickedPort (portsList ps mac) = None.
Proof.
  intros He. unfold portsList.
  destruct (pagesOf _ _) as [|c chunks]; [reflexivity|].
  cbn [fetched]. rewrite He. reflexivity.
Qed.

(** X12. [setAllowedAddressPair] never returns the error of the port
    listing: when the first page of the listing fails, on a server without
    a malformed address item, the call goes on with the zero port and is
    an update of the port with the empty identifier to the one pair of the
    address; with no such port in the service and the update itself going
    through to the service, what comes back is the service's not-found
    error and the ports are unchanged. *)
Theorem setAllowedAddressPair_ignores_listing_error (server : Server)
    (address : string) (ps : Ports) (e : Error) :
  existsb malformedNetwork (server_Addresses server) = false ->
  portFault ps (PortsList 0) = Some e ->
  setAllowedAddressPair server address ps
  = portsUpdate ps "" [mkAddressPair address ""]
  /\ (portFault ps (PortsUpdate "") = None ->
      (forall q, In q (portList ps) -> port_ID q <> ""%string) ->
      setAllowedAddressPair server address ps
      = (ps, Failed (ServiceError NotFoundError))).
Proof.
  intros Hwf He. destruct (scanAddresses_done _ ""%string Hwf) as (mac & Hm).
  rewrite (setAllowedAddressPair_eq server address mac ps Hm).
  rewrite (pickedPort_first_page_fails ps mac e He).
  split; [reflexivity|]. intros Hu Hids. unfold portsUpdate.
  rewrite Hu, replacePairs_absent by exact Hids. reflexivity.
Qed.

Lemma fetched_pages {X} (fault : nat -> option Error) (i : nat)
    (chunks chunks' : list (list X)) :
  fetched fault i chunks = map PageOf chunks' -> chunks = chunks'.
Proof.
  revert i chunks'. induction chunks as [|c chunks IH]; intros i [|c' chunks'];
    cbn [fetched map]; try discriminate; [reflexivity|].
  destruct (fault i); [discriminate|]. intros [= -> H]. f_equal. apply (IH _ _ H).
Qed.

Lemma pickedPort_last_page (chunks : list (list Port)) (p : Port) (rest : list Port) :
  Forall (fun c => c <> []) chunks ->
  pickedPort (map PageOf (chunks ++ [p :: rest])) = Some p.
Proof.
  induction 1 as [|c chunks Hc _ IH]; [reflexivity|].
  destruct c as [|q c]; [congruence|].
  cbn [app map pickedPort]. rewrite IH. reflexivity.
Qed.

(** X26. With the ports of the MAC address on several pages,
    [setAllowedAddressPair] takes the first port of the last page: the
    handler answers [true] on every page, so the walk goes on and [port]
    is overwritten page after page. When this port does not allow the
    address yet, the call is the update of this port to its pairs followed
    by the address. *)
Theorem setAllowedAddressPair_takes_port_of_last_page (server : Server)
    (address mac : string) (ps : Ports) (chunks : list (list Port)) (p : Port)
    (rest : list Port) :
  scanAddresses (server_Addresses server) "" = Done mac ->
  portsList ps mac = map PageOf (chunks ++ [p :: rest]) ->
  allows address p = false ->
  setAllowedAddressPair server address ps
  = portsUpdate ps (port_ID p) (AllowedAddressPairs p ++ [mkAddressPair address ""]).
Proof.
  intros Hm Hl Ha. rewrite (setAllowedAddressPair_eq server address mac ps Hm).
  assert (Hne : Forall (fun c : list Port => c <> []) chunks).
  { unfold portsList in Hl. apply fetched_pages in Hl.
    destruct (pagesOf_nonempty (portsPerPage ps)
                (filter (fun q => String.eqb mac "" || String.eqb (port_MACAddress q) mac)
                        (portList ps))) as [E | H].
    - rewrite E in Hl. destruct chunks as [|c [|c2 chunks]]; discriminate.
    - rewrite Hl in H. apply Forall_app in H. apply H. }
  rewrite Hl, (pickedPort_last_page chunks p rest Hne), Ha. reflexivity.
Qed.

(* ------------------------------------------------------------------ *)
(** ** Routes of the router *)

Lemma searchRoute_found (front back : list OpenStack.Route) (r : OpenStack.Route)
    (cidr : string) (i index : Z) :
  Forall (fun x => OpenStack.DestinationCIDR x <> cidr) front ->
  OpenStack.DestinationCIDR r = cidr ->
  OpenStack.searchRoute (front ++ r :: back) cidr i index
  = i + Z.of_nat (List.length front).
Proof.
  intros Hf Hr. revert i. induction Hf as [|x front Hx _ IH]; intros i.
  - simpl. rewrite Hr, String.eqb_refl. lia.
  - cbn [app OpenStack.searchRoute List.length].
    destruct (String.eqb_spec (OpenStack.DestinationCIDR x) cidr); [contradiction|].
    rewrite IH. lia.
Qed.

(** A list that holds a route to the destination splits at the first. *)
Lemma split_at_first_route (routes : list OpenStack.Route) (cidr : string) :
  (exists r, In r routes /\ OpenStack.DestinationCIDR r = cidr) ->
  exists front r back,
    routes = front ++ r :: back
    /\ OpenStack.DestinationCIDR r = cidr
    /\ Forall (fun x => OpenStack.DestinationCIDR x <> cidr) front.
Proof.
  induction routes as [|x routes IH]; intros (r & Hin & Hr); [destruct Hin|].
  destruct (String.eqb_spec (OpenStack.DestinationCIDR x) cidr) as [E | Hne].
  - exists [], x, routes. splits; [reflexivity | exact E | constructor].
  - destruct Hin as [-> | Hin]; [contradiction|].
    destruct IH as (front & r' & back & -> & Hr' & Hf); [exists r; split; assumption|].
    exists (x :: front), r', back. splits; [reflexivity | exact Hr' |].
    constructor; assumption.
Qed.

Lemma sliceTo_app {A} (front back : list A) :
  OpenStack.sliceTo (front ++ back) (Z.of_nat (List.length front)) = Ok front.
Proof.
  unfold OpenStack.sliceTo.
  assert (E : (Z.of_nat (List.length front) <? 0)
              || (Z.of_nat (List.length (front ++ back))
                  <? Z.of_nat (List.length front)) = false).
  { apply orb_false_iff. split; apply Z.ltb_ge; [lia|]. rewrite length_app. lia. }
  rewrite E, Nat2Z.id. rewrite firstn_app, Nat.sub_diag, firstn_all. cbn [firstn].
  apply f_equal, app_nil_r.
Qed.

Lemma sliceFrom_app {A} (front back : list A) :
  OpenStack.sliceFrom (front ++ back) (Z.of_nat (List.length front)) = Ok back.
Proof.
  unfold OpenStack.sliceFrom.
  assert (E : (Z.of_nat (List.length front) <? 0)
              || (Z.of_nat (List.length (front ++ back))
                  <? Z.of_nat (List.length front)) = false).
  { apply orb_false_iff. split; apply Z.ltb_ge; [lia|]. rewrite length_app. lia. }
  rewrite E, Nat2Z.id. rewrite skipn_app, Nat.sub_diag, skipn_all. reflexivity.
Qed.

Lemma DeleteRoute_at_first (clusterName : string) (route : OpenStack.CloudRoute)
    (net : OpenStack.Network) (front back : list OpenStack.Route) (r : OpenStack.Route) :
  OpenStack.getFault net = None ->
  OpenStack.Routes (OpenStack.router net) = front ++ r :: back ->
  OpenStack.DestinationCIDR r = OpenStack.cr_DestinationCIDR route ->
  Forall (fun x => OpenStack.DestinationCIDR x <> OpenStack.cr_DestinationCIDR route)
         front ->
  OpenStack.DeleteRoute clusterName route net
  = OpenStack.routersUpdate net (front ++ back).
Proof.
  intros Hg Hr Hc Hf. unfold OpenStack.DeleteRoute, OpenStack.routersGet.
  rewrite Hg, Hr. rewrite (searchRoute_found front back r _ 0 (-1) Hf Hc).
  rewrite Z.add_0_l, sliceTo_app.
  replace (front ++ r :: back) with ((front ++ [r]) ++ back)
    by (rewrite <- app_assoc; reflexivity).
  replace (Z.of_nat (List.length front) + 1) with (Z.of_nat (List.length (front ++ [r])))
    by (rewrite length_app; simpl; lia).
  rewrite sliceFrom_app. reflexivity.
Qed.

(** X13. [DeleteRoute] takes out the first route to the destination and no
    other: when the router holds a route to the destination of the route
    asked for and both calls of the service go through, the router is left
    with the routes before the first such route followed by the routes
    after it, in their order, later routes to the same destination
    included, and [DeleteRoute] returns nil. *)
Theorem DeleteRoute_removes_first_match (clusterName : string)
    (route : OpenStack.CloudRoute) (net : OpenStack.Network) :
  OpenStack.getFault net = None ->
  OpenStack.updateFault net = None ->
  (exists r, In r (OpenStack.Routes (OpenStack.router net))
             /\ OpenStack.DestinationCIDR r = OpenStack.cr_DestinationCIDR route) ->
  exists front r back,
    OpenStack.Routes (OpenStack.router net) = front ++ r :: back
    /\ OpenStack.DestinationCIDR r = OpenStack.cr_DestinationCIDR route
    /\ Forall (fun x => OpenStack.DestinationCIDR x
                        <> OpenStack.cr_DestinationCIDR route) front
    /\ OpenStack.DeleteRoute clusterName route net
       = (OpenStack.mkNetwork
            (OpenStack.mkRouter (OpenStack.ID (OpenStack.router net)) (front ++ back))
            None None,
          Ok tt).
Proof.
  intros Hg Hu Hex.
  destruct (split_at_first_route _ _ Hex) as (front & r & back & Hr & Hc & Hf).
  exists front, r, back. splits; try assumption.
  rewrite (DeleteRoute_at_first clusterName route net front back r Hg Hr Hc Hf).
  unfold OpenStack.routersUpdate. rewrite Hu, Hg. reflexivity.
Qed.

(** X14. [DeleteRoute] changes the router only when it returns nil: when
    it returns an error (of [routers.Get] or of [routers.Update]) or
    panics, the router is as before; the error of a failing
    [routers.Get] is returned before the routes are looked at. *)
Theorem DeleteRoute_failure_leaves_router (clusterName : string)
    (route : OpenStack.CloudRoute) (net : OpenStack.Network) :
  (snd (OpenStack.DeleteRoute clusterName route net) <> Ok tt ->
   fst (OpenStack.DeleteRoute clusterName route net) = net)
  /\ (forall e, OpenStack.getFault net = Some e ->
                OpenStack.DeleteRoute clusterName route net = (net, Err e)).
Proof.
  split.
  - unfold OpenStack.DeleteRoute, OpenStack.routersGet.
    destruct (OpenStack.getFault net); [reflexivity|].
    destruct (OpenStack.sliceTo _ _); try reflexivity.
    destruct (OpenStack.sliceFrom _ _); try reflexivity.
    unfold OpenStack.routersUpdate. destruct (OpenStack.updateFault net); [reflexivity|].
    cbn [fst snd]. congruence.
  - intros e He. unfold OpenStack.DeleteRoute, OpenStack.routersGet. rewrite He.
    reflexivity.
Qed.

(* ------------------------------------------------------------------ *)
(** ** The listing of the routes *)

Lemma listRoutesLoop_done (getServerByAddress : Compute -> string -> Outcome Server)
    (c : Compute) (rs : list OpenStack.Route) (acc routes : list Route) :
  listRoutesLoop getServerByAddress c rs acc = Done routes ->
  exists new, routes = acc ++ new
              /\ Forall2 (listedAs getServerByAddress c) rs new.
Proof.
  revert acc. induction rs as [|r rs IH]; intros acc.
  - intros [= <-]. exists []. split; [symmetry; apply app_nil_r | constructor].
  - cbn [listRoutesLoop].
    destruct (getServerByAddress c (OpenStack.NextHop r)) as [server | e |] eqn:G;
      try discriminate.
    intros H. destruct (IH _ H) as (new & -> & Hnew).
    eexists (_ :: new). split; [rewrite <- app_assoc; reflexivity|].
    constructor; [|exact Hnew].
    unfold listedAs. cbn [Name DestinationCIDR TargetInstance inst_ID inst_Name].
    splits; try reflexivity. exists server. split; [exact G | reflexivity].
Qed.

Lemma listRoutesLoop_total (getServerByAddress : Compute -> string -> Outcome Server)
    (c : Compute) (rs : list OpenStack.Route) (acc : list Route) :
  Forall (fun r => exists server,
            getServerByAddress c (OpenStack.NextHop r) = Done server) rs ->
  exists routes, listRoutesLoop getServerByAddress c rs acc = Done routes.
Proof.
  intros H. revert acc. induction H as [|r rs (server & G) _ IH]; intros acc.
  - exists acc. reflexivity.
  - cbn [listRoutesLoop]. rewrite G. apply IH.
Qed.

Lemma listRoutesLoop_fails (getServerByAddress : Compute -> string -> Outcome Server)
    (c : Compute) (front back : list OpenStack.Route) (r : OpenStack.Route)
    (acc : list Route) (e : CloudError) :
  Forall (fun r => exists server,
            getServerByAddress c (OpenStack.NextHop r) = Done server) front ->
  getServerByAddress c (OpenStack.NextHop r) = Failed e ->
  listRoutesLoop getServerByAddress c (front ++ r :: back) acc = Failed e.
Proof.
  intros H Hr. revert acc. induction H as [|x front (server & G) _ IH]; intros acc.
  - cbn [app listRoutesLoop]. rewrite Hr. reflexivity.
  - cbn [app listRoutesLoop]. rewrite G. apply IH.
Qed.

(** X15. [ListRoutes] returns the routes of the router one for one and in
    their order: the entry of a route has the destination of the route as
    its name and as its destination, carries no instance identifier, and
    its instance is named by the [KubernetesName] of the server of the
    next hop or, when this cannot be read, by the name of the server. *)
Theorem ListRoutes_lists_router_routes
    (getServerByAddress : Compute -> string -> Outcome Server)
    (clusterName : string) (os : Cloud) (routes : list Route) :
  ListRoutes getServerByAddress clusterName os = Done routes ->
  Forall2 (listedAs getServerByAddress (compute os))
          (OpenStack.Routes (OpenStack.router (network os))) routes
  /\ map DestinationCIDR routes
     = map OpenStack.DestinationCIDR (OpenStack.Routes (OpenStack.router (network os))).
Proof.
  unfold ListRoutes, OpenStack.routersGet.
  destruct (OpenStack.getFault (network os)); [discriminate|].
  intros H. destruct (listRoutesLoop_done _ _ _ _ _ H) as (new & -> & Hnew).
  cbn [app]. split; [exact Hnew|].
  clear H. induction Hnew as [|r route rs new (_ & Hd & _) _ IH]; [reflexivity|].
  cbn [map]. rewrite Hd, IH. reflexivity.
Qed.

(** X16. What makes [ListRoutes] fail is the router or a next hop without
    server, never the metadata: when [routers.Get] goes through and every
    next hop has its server, [ListRoutes] returns routes whatever the
    metadata calls answer; the first next hop whose server lookup fails
    ends it with the error of the lookup; and the error of a failing
    [routers.Get] is returned as it is. *)
Theorem ListRoutes_failures
    (getServerByAddress : Compute -> string -> Outcome Server)
    (clusterName : string) (os : Cloud) :
  (OpenStack.getFault (network os) = None ->
   Forall (fun r => exists server,
             getServerByAddress (compute os) (OpenStack.NextHop r) = Done server)
          (OpenStack.Routes (OpenStack.router (network os))) ->
   exists routes, ListRoutes getServerByAddress clusterName os = Done routes)
  /\ (forall front r back e,
        OpenStack.getFault (network os) = None ->
        OpenStack.Routes (OpenStack.router (network os)) = front ++ r :: back ->
        Forall (fun r => exists server,
                  getServerByAddress (compute os) (OpenStack.NextHop r) = Done server)
               front ->
        getServerByAddress (compute os) (OpenStack.NextHop r) = Failed e ->
        ListRoutes getServerByAddress clusterName os = Failed e)
  /\ (forall e, OpenStack.getFault (network os) = Some e ->
                ListRoutes getServerByAddress clusterName os = Failed (ServiceError e)).
Proof.
  unfold ListRoutes, OpenStack.routersGet. splits.
  - intros -> H. apply listRoutesLoop_total, H.
  - intros front r back e -> -> Hf Hr. apply listRoutesLoop_fails; assumption.
  - intros e ->. reflexivity.
Qed.

(** X17. A route returned by [ListRoutes] can be deleted: passed to
    [DeleteRoute] while the router is as it was listed, it is found in the
    router (the slice index is not negative), and with [routers.Update]
    going through [DeleteRoute] returns nil and has taken out the first
    route to its destination. *)
Theorem listed_route_can_be_deleted
    (getServerByAddress : Compute -> string -> Outcome Server)
    (clusterName : string) (os : Cloud) (routes : list Route) (route : Route) :
  ListRoutes getServerByAddress clusterName os = Done routes ->
  In route routes ->
  OpenStack.updateFault (network os) = None ->
  0 <= OpenStack.searchRoute (OpenStack.Routes (OpenStack.router (network os)))
                             (DestinationCIDR route) 0 (-1)
  /\ exists front r back,
       OpenStack.Routes (OpenStack.router (network os)) = front ++ r :: back
       /\ OpenStack.DestinationCIDR r = DestinationCIDR route
       /\ Forall (fun x => OpenStack.DestinationCIDR x <> DestinationCIDR route) front
       /\ OpenStack.DeleteRoute clusterName (asCloudRoute route) (network os)
          = (OpenStack.mkNetwork
               (OpenStack.mkRouter (OpenStack.ID (OpenStack.router (network os)))
                                   (front ++ back))
               None None,
             Ok tt).
Proof.
  intros HL Hin Hu.
  assert (Hg : OpenStack.getFault (network os) = None).
  { unfold ListRoutes, OpenStack.routersGet in HL.
    destruct (OpenStack.getFault (network os)); [discriminate | reflexivity]. }
  assert (Hmap : map DestinationCIDR routes
                 = map OpenStack.DestinationCIDR
                       (OpenStack.Routes (OpenStack.router (network os)))).
  { unfold ListRoutes, OpenStack.routersGet in HL. rewrite Hg in HL.
    destruct (listRoutesLoop_done _ _ _ _ _ HL) as (new & -> & Hnew).
    cbn [app]. clear - Hnew.
    induction Hnew as [|r x rs new (_ & Hd & _) _ IH]; [reflexivity|].
    cbn [map]. rewrite Hd, IH. reflexivity. }
  assert (Hex : exists r, In r (OpenStack.Routes (OpenStack.router (network os)))
                          /\ OpenStack.DestinationCIDR r = DestinationCIDR route).
  { assert (H : In (DestinationCIDR route) (map DestinationCIDR routes))
      by (apply in_map, Hin).
    rewrite Hmap in H. apply in_map_iff in H. destruct H as (r & Hr & Hrin).
    exists r. split; assumption. }
  destruct (split_at_first_route _ _ Hex) as (front & r & back & Hr & Hc & Hf).
  split.
  - rewrite Hr, (searchRoute_found front back r _ 0 (-1) Hf Hc). lia.
  - exists front, r, back. splits; try assumption.
    rewrite (DeleteRoute_at_first clusterName (asCloudRoute route) (network os)
               front back r Hg Hr Hc Hf).
    unfold OpenStack.routersUpdate. rewrite Hu, Hg. reflexivity.
Qed.

(* ------------------------------------------------------------------ *)
(** ** The creation of a route *)

(** The steps of a [CreateRoute] that returns nil. *)
Lemma CreateRoute_done
    (getAddresses : Server -> list NodeAddress * option CloudError)
    (clusterName nameHint : string) (route : Route) (os os' : Cloud) :
  CreateRoute getAddresses clusterName nameHint route os = (os', Done tt) ->
  exists id server c1 a rest p2,
    inst_ID (TargetInstance route) <> ""%string
    /\ getInstanceIDFromProviderID (inst_ID (TargetInstance route)) = Ok id
    /\ serversGet (compute os) id = Done server
    /\ createKubernetesMetaData (server_ID server) (inst_Name (TargetInstance route))
                                (compute os) = (c1, Done tt)
    /\ OpenStack.getFault (network os) = None
    /\ OpenStack.updateFault (network os) = None
    /\ fst (getAddresses server) = a :: rest
    /\ setAllowedAddressPair server (DestinationCIDR route) (ports os) = (p2, Done tt)
    /\ os' = mkCloud c1
               (OpenStack.mkNetwork
                  (OpenStack.mkRouter
                     (OpenStack.ID (OpenStack.router (network os)))
                     (OpenStack.Routes (OpenStack.router (network os))
                      ++ [OpenStack.mkRoute (DestinationCIDR route) (na_Address a)]))
                  None None)
               p2.
Proof.
  intros H. unfold CreateRoute in H.
  destruct (String.eqb_spec (inst_ID (TargetInstance route)) "") as [|Hid]; [discriminate|].
  destruct (getInstanceIDFromProviderID _) as [id | e |] eqn:Hg; try discriminate.
  destruct (serversGet (compute os) id) as [server | e |] eqn:Hs; try discriminate.
  destruct (createKubernetesMetaData _ _ _) as [c1 [[] | e |]] eqn:Hc; try discriminate.
  cbv zeta in H. unfold setCompute, setPorts, setNetwork in H.
  cbn [network ports compute] in H.
  unfold OpenStack.routersGet in H.
  destruct (OpenStack.getFault (network os)) eqn:Hgf; [discriminate|].
  destruct (fst (getAddresses server)) as [|a rest] eqn:Ha; [discriminate|].
  destruct (setAllowedAddressPair _ _ _) as [p2 [[] | e |]] eqn:Hp; try discriminate.
  unfold OpenStack.routersUpdate in H.
  destruct (OpenStack.updateFault (network os)) eqn:Huf; [discriminate|].
  rewrite Hgf in H. injection H as <-.
  exists id, server, c1, a, rest, p2. splits; try assumption; reflexivity.
Qed.

(** X18. A [CreateRoute] that returns nil has appended one route to the
    routes of the router, and changed nothing else of the router: the new
    route leads to the destination asked for through the first address of
    the server whose identifier ends the instance identifier of the route,
    and stands after the routes the router had, a route to the same
    destination among them included (no route is replaced). The server
    reads back the instance name of the route as its [KubernetesName],
    unless the metadata call fails. *)
Theorem CreateRoute_appends_route
    (getAddresses : Server -> list NodeAddress * option CloudError)
    (clusterName nameHint : string) (route : Route) (os os' : Cloud) :
  CreateRoute getAddresses clusterName nameHint route os = (os', Done tt) ->
  exists id server a rest,
    getInstanceIDFromProviderID (inst_ID (TargetInstance route)) = Ok id
    /\ serversGet (compute os) id = Done server
    /\ fst (getAddresses server) = a :: rest
    /\ OpenStack.Routes (OpenStack.router (network os'))
       = OpenStack.Routes (OpenStack.router (network os))
         ++ [OpenStack.mkRoute (DestinationCIDR route) (na_Address a)]
    /\ OpenStack.ID (OpenStack.router (network os'))
       = OpenStack.ID (OpenStack.router (network os))
    /\ (computeFault (compute os) (ServersMetadata (server_ID server)) = None ->
        getKubernetesMetaData (compute os') (server_ID server)
        = Done (inst_Name (TargetInstance route))).
Proof.
  intros H.
  destruct (CreateRoute_done _ _ _ _ _ _ H)
    as (id & server & c1 & a & rest & p2 & _ & Hg & Hs & Hc & _ & _ & Ha & _ & ->).
  exists id, server, a, rest. splits; try assumption; try reflexivity.
  intros Hm. cbn [compute]. apply (written_name_is_read _ _ _ _ Hc Hm).
Qed.

Lemma network_eta (net : OpenStack.Network) :
  OpenStack.getFault net = None ->
  OpenStack.updateFault net = None ->
  net = OpenStack.mkNetwork
          (OpenStack.mkRouter (OpenStack.ID (OpenStack.router net))
                              (OpenStack.Routes (OpenStack.router net)))
          None None.
Proof. destruct net as [[id routes] g u]. simpl. intros -> ->. reflexivity. Qed.

(** X19. [DeleteRoute] takes back the route of [CreateRoute]: after a
    [CreateRoute] that returned nil, [DeleteRoute] of the same route, on
    the router as the creation left it and whatever the networking service
    answers by then, finds the destination in the router and does not
    panic (it does not slice at -1); when [routers.Get] and
    [routers.Update] go through, it returns nil, and if the router had no
    route to the destination before the creation, the router has then the
    identifier and the routes it had before the creation. [DeleteRoute]
    touches the router only: the allowed address pair and the
    [KubernetesName] that the creation wrote stay. *)
Theorem CreateRoute_then_DeleteRoute
    (getAddresses : Server -> list NodeAddress * option CloudError)
    (clusterName nameHint : string) (route : Route) (os os' : Cloud)
    (getFault updateFault : option Error) :
  CreateRoute getAddresses clusterName nameHint route os = (os', Done tt) ->
  let net := OpenStack.mkNetwork (OpenStack.router (network os')) getFault updateFault in
  0 <= OpenStack.searchRoute (OpenStack.Routes (OpenStack.router net))
                             (DestinationCIDR route) 0 (-1)
  /\ snd (OpenStack.DeleteRoute clusterName (asCloudRoute route) net) <> Panic
  /\ (getFault = None -> updateFault = None ->
      snd (OpenStack.DeleteRoute clusterName (asCloudRoute route) net) = Ok tt
      /\ (Forall (fun r => OpenStack.DestinationCIDR r <> DestinationCIDR route)
                 (OpenStack.Routes (OpenStack.router (network os))) ->
          OpenStack.router
            (fst (OpenStack.DeleteRoute clusterName (asCloudRoute route) net))
          = OpenStack.router (network os))).
Proof.
  intros H.
  destruct (CreateRoute_done _ _ _ _ _ _ H)
    as (id & server & c1 & a & rest & p2 & _ & _ & _ & _ & _ & _ & _ & _ & ->).
  cbn [network OpenStack.router]. cbv zeta.
  set (new := OpenStack.mkRoute (DestinationCIDR route) (na_Address a)).
  set (net := OpenStack.mkNetwork
                (OpenStack.mkRouter (OpenStack.ID (OpenStack.router (network os)))
                   (OpenStack.Routes (OpenStack.router (network os)) ++ [new]))
                getFault updateFault).
  destruct (split_at_first_route
              (OpenStack.Routes (OpenStack.router (network os)) ++ [new])
              (DestinationCIDR route))
    as (front & r & back & Hr & Hc & Hf).
  { exists new. split; [apply in_or_app; right; left; reflexivity | reflexivity]. }
  splits.
  - cbn [net OpenStack.router OpenStack.Routes].
    rewrite Hr, (searchRoute_found front back r _ 0 (-1) Hf Hc). lia.
  - destruct getFault as [e|] eqn:Eg.
    + unfold OpenStack.DeleteRoute, OpenStack.routersGet. cbn [net OpenStack.getFault].
      discriminate.
    + rewrite (DeleteRoute_at_first clusterName (asCloudRoute route) net front back r);
        try assumption; try reflexivity.
      unfold OpenStack.routersUpdate. cbn [net OpenStack.updateFault].
      destruct updateFault; discriminate.
  - intros Eg Eu. subst getFault updateFault. split.
    + rewrite (DeleteRoute_at_first clusterName (asCloudRoute route) net front back r);
        try assumption; reflexivity.
    + intros Habsent.
      rewrite (DeleteRoute_at_first clusterName (asCloudRoute route) net
                 (OpenStack.Routes (OpenStack.router (network os))) [] new);
        try assumption; try reflexivity.
      unfold OpenStack.routersUpdate.
      cbn [net OpenStack.updateFault OpenStack.router OpenStack.ID OpenStack.getFault
           fst].
      rewrite app_nil_r. destruct (OpenStack.router (network os)). reflexivity.
Qed.

(** X20. [CreateRoute] indexes the addresses of the server without
    looking at the error of [getAddresses]: when [getAddresses] returns no
    address for the server, [CreateRoute] panics at [addrs[0]], after the
    [KubernetesName] of the server has been written and before the
    allowed address pairs and the router are touched. *)
Theorem CreateRoute_panics_without_address
    (getAddresses : Server -> list NodeAddress * option CloudError)
    (clusterName nameHint : string) (route : Route) (os : Cloud)
    (id : string) (server : Server) (c1 : Compute) :
  inst_ID (TargetInstance route) <> ""%string ->
  getInstanceIDFromProviderID (inst_ID (TargetInstance route)) = Ok id ->
  serversGet (compute os) id = Done server ->
  createKubernetesMetaData (server_ID server) (inst_Name (TargetInstance route))
                           (compute os) = (c1, Done tt) ->
  OpenStack.getFault (network os) = None ->
  fst (getAddresses server) = [] ->
  CreateRoute getAddresses clusterName nameHint route os
  = (mkCloud c1 (network os) (ports os), Crashed).
Proof.
  intros Hid Hg Hs Hc Hgf Ha. unfold CreateRoute.
  destruct (String.eqb_spec (inst_ID (TargetInstance route)) ""); [contradiction|].
  rewrite Hg, Hs, Hc. cbv zeta. unfold setCompute. cbn [network].
  unfold OpenStack.routersGet. rewrite Hgf, Ha. reflexivity.
Qed.

(** X21. A [CreateRoute] that does not return nil leaves the router as it
    was, and a route without instance identifier is refused before any
    call to a service: the provider is unchanged. *)
Theorem CreateRoute_failure_leaves_router
    (getAddresses : Server -> list NodeAddress * option CloudError)
    (clusterName nameHint : string) (route : Route) (os : Cloud) :
  (snd (CreateRoute getAddresses clusterName nameHint route os) <> Done tt ->
   network (fst (CreateRoute getAddresses clusterName nameHint route os)) = network os)
  /\ (inst_ID (TargetInstance route) = ""%string ->
      CreateRoute getAddresses clusterName nameHint route os
      = (os, Failed ErrRouteWithoutID)).
Proof.
  split.
  - unfold CreateRoute.
    destruct (String.eqb (inst_ID (TargetInstance route)) ""); [reflexivity|].
    destruct (getInstanceIDFromProviderID _); try reflexivity.
    destruct (serversGet (compute os) _); try reflexivity.
    destruct (createKubernetesMetaData _ _ _) as [c1 [[] | e |]]; try reflexivity.
    cbv zeta. unfold setCompute, setPorts, setNetwork. cbn [network ports compute].
    destruct (OpenStack.routersGet (network os)); try reflexivity.
    destruct (fst (getAddresses _)); try reflexivity.
    destruct (setAllowedAddressPair _ _ _) as [p2 [[] | e |]]; try reflexivity.
    unfold OpenStack.routersUpdate.
    destruct (OpenStack.updateFault (network os)); [reflexivity|].
    cbn [fst snd]. congruence.
  - intros E. unfold CreateRoute. rewrite E. reflexivity.
Qed.

(* ================================================================== *)
(** * The helpers of the provider's tests *)

Lemma nonEmpty_spec (s : string) : OpenStackTest.nonEmpty s = true <-> s <> ""%string.
Proof.
  unfold OpenStackTest.nonEmpty. destruct (String.eqb_spec s ""); simpl; split;
    congruence.
Qed.

(** X22. [configFromEnv] never gives both a tenant identifier and a tenant
    name, and it reports a usable configuration exactly when the
    environment sets [OS_AUTH_URL], [OS_USERNAME], one of [OS_PASSWORD]
    and [OS_API_KEY], and one of [OS_TENANT_ID], [OS_TENANT_NAME],
    [OS_DOMAIN_ID] and [OS_DOMAIN_NAME]; the tenant name is that of the
    environment when there is no tenant identifier. *)
Theorem configFromEnv_tenant_and_ok (Getenv : string -> string) :
  let cfg := OpenStackTest.cfg_Global (fst (OpenStackTest.configFromEnv Getenv)) in
  (OpenStackTest.TenantId cfg = ""%string \/ OpenStackTest.TenantName cfg = ""%string)
  /\ (OpenStackTest.TenantId cfg = ""%string ->
      OpenStackTest.TenantName cfg = Getenv "OS_TENANT_NAME"%string)
  /\ (snd (OpenStackTest.configFromEnv Getenv) = true
      <-> Getenv "OS_AUTH_URL"%string <> ""%string
          /\ Getenv "OS_USERNAME"%string <> ""%string
          /\ (Getenv "OS_PASSWORD"%string <> ""%string
              \/ Getenv "OS_API_KEY"%string <> ""%string)
          /\ (Getenv "OS_TENANT_ID"%string <> ""%string
              \/ Getenv "OS_TENANT_NAME"%string <> ""%string
              \/ Getenv "OS_DOMAIN_ID"%string <> ""%string
              \/ Getenv "OS_DOMAIN_NAME"%string <> ""%string)).
Proof.
  cbv zeta. unfold OpenStackTest.configFromEnv.
  cbn [fst snd OpenStackTest.cfg_Global OpenStackTest.TenantId OpenStackTest.TenantName].
  splits.
  - destruct (String.eqb_spec (Getenv "OS_TENANT_ID"%string) ""); auto.
  - intros ->. reflexivity.
  - rewrite !andb_true_iff, !orb_true_iff, !nonEmpty_spec.
    destruct (String.eqb_spec (Getenv "OS_TENANT_ID"%string) "") as [E | Hne].
    + tauto.
    + assert (H0 : (""%string <> ""%string) <-> False) by (split; [congruence | tauto]).
      rewrite H0. tauto.
Qed.

Lemma waitLoop_never_expires (fuel : nat) (clock : nat -> Z)
    (getVolume : nat -> Result string) (status : string) (timeout start : Z)
    (t k : nat) :
  (forall i, 0 <= clock i <= 59) ->
  0 <= start ->
  timeout < 0 \/ 59 < start + timeout ->
  OpenStackTest.waitLoop fuel clock getVolume status timeout start t k
  <> Some OpenStackTest.TimedOut.
Proof.
  intros Hc Hs Ht. revert t k. induction fuel as [|fuel IH]; intros t k; [discriminate|].
  cbn [OpenStackTest.waitLoop].
  assert (E : (if timeout >=? 0 then clock t - start >=? timeout else false) = false).
  { destruct (timeout >=? 0) eqn:G; [|reflexivity].
    apply Z.geb_le in G. specialize (Hc t).
    destruct (clock t - start >=? timeout) eqn:G2; [|reflexivity].
    apply Z.geb_le in G2. lia. }
  rewrite E. destruct (getVolume k) as [st | e |]; try discriminate.
  destruct (String.eqb st status); [discriminate | apply IH].
Qed.

Lemma waitLoop_runs_on (fuel : nat) (clock : nat -> Z)
    (getVolume : nat -> Result string) (status : string) (timeout start : Z)
    (t k : nat) :
  (forall i, 0 <= clock i <= 59) ->
  0 <= start ->
  timeout < 0 \/ 59 < start + timeout ->
  (forall i, exists st, getVolume i = Ok st /\ st <> status) ->
  OpenStackTest.waitLoop fuel clock getVolume status timeout start t k = None.
Proof.
  intros Hc Hs Ht Hv. revert t k. induction fuel as [|fuel IH]; intros t k; [reflexivity|].
  cbn [OpenStackTest.waitLoop].
  assert (E : (if timeout >=? 0 then clock t - start >=? timeout else false) = false).
  { destruct (timeout >=? 0) eqn:G; [|reflexivity].
    apply Z.geb_le in G. specialize (Hc t).
    destruct (clock t - start >=? timeout) eqn:G2; [|reflexivity].
    apply Z.geb_le in G2. lia. }
  rewrite E. destruct (Hv k) as (st & -> & Hne).
  destruct (String.eqb_spec st status); [contradiction | apply IH].
Qed.

(** X23. The timeout of [WaitForVolumeStatus] compares seconds of the
    minute: with [time.Now().Second()] between 0 and 59, a call that
    starts at a second [start] with [start + timeout] above 59, or with a
    negative timeout, never takes the timeout branch; if the volume never
    shows the status, and [getVolume] does not fail, the call is still
    looping after any number of rounds. *)
Theorem WaitForVolumeStatus_timeout_never_fires (clock : nat -> Z)
    (getVolume : nat -> Result string) (status : string) (timeoutSeconds : Z) :
  (forall i, 0 <= clock i <= 59) ->
  timeoutSeconds < 0 \/ 59 < clock 0%nat + timeoutSeconds ->
  (forall fuel,
     OpenStackTest.WaitForVolumeStatus fuel clock getVolume status timeoutSeconds
     <> Some OpenStackTest.TimedOut)
  /\ ((forall i, exists st, getVolume i = Ok st /\ st <> status) ->
      forall fuel,
        OpenStackTest.WaitForVolumeStatus fuel clock getVolume status timeoutSeconds
        = None).
Proof.
  intros Hc Ht. unfold OpenStackTest.WaitForVolumeStatus. cbv zeta. split.
  - intros fuel. apply waitLoop_never_expires; try assumption. apply Hc.
  - intros Hv fuel. apply waitLoop_runs_on; try assumption. apply Hc.
Qed.

(* ================================================================== *)
(** * The theorems on an example cloud *)

Lemma getInstanceID_total_suffix_witness :
  exists id before,
    getInstanceIDFromProviderID "openstack:///7c9e6679" = Ok id
    /\ hasSlash id = false
    /\ "openstack:///7c9e6679"%string = (before ++ id)%string.
Proof.
  destruct (getInstanceID_total_suffix "openstack:///7c9e6679")
    as (id & before & H1 & H2 & H3 & _).
  exists id, before. split; [exact H1 | split; [exact H2 | exact H3]].
Defined.

Lemma metadata_write_then_read_witness :
  getKubernetesMetaData (fst (createKubernetesMetaData "7c9e6679" "node-1.cluster" nova))
                        "7c9e6679"
  = Done "node-1.cluster"%string
  /\ getKubernetesMetaData
       (fst (createKubernetesMetaData "7c9e6679" "node-1.cluster" nova)) "1b4e28ba"
     = getKubernetesMetaData nova "1b4e28ba".
Proof.
  destruct (metadata_write_then_read "7c9e6679" "node-1.cluster" nova
              (fst (createKubernetesMetaData "7c9e6679" "node-1.cluster" nova)) eq_refl)
    as (H1 & H2 & _).
  split.
  - apply H1. reflexivity.
  - apply (H2 "1b4e28ba"%string). discriminate.
Defined.

Lemma getServerFromMetadata_by_count_witness :
  getServerFromMetadata nova "node-2.cluster" = Done node2
  /\ getServerFromMetadata nova "node-3.cluster" = Failed ErrNotFound.
Proof.
  split.
  - rewrite (getServerFromMetadata_by_count nova "node-2.cluster")
      by (intros i; reflexivity).
    reflexivity.
  - rewrite (getServerFromMetadata_by_count nova "node-3.cluster")
      by (intros i; reflexivity).
    reflexivity.
Defined.

Lemma getServerFromMetadata_sound_witness :
  In node2 (servers nova)
  /\ server_Status node2 = "ACTIVE"%string
  /\ getKubernetesMetaData nova (server_ID node2) = Done "node-2.cluster"%string.
Proof. apply (getServerFromMetadata_sound nova "node-2.cluster" node2). reflexivity. Defined.

Lemma getServerFromMetadata_page_error_witness :
  getServerFromMetadata novaSecondPageFails "node-2.cluster"
  = Failed (ServiceError TransientStoreError).
Proof.
  apply (getServerFromMetadata_page_error novaSecondPageFails "node-2.cluster" 1).
  - simpl. lia.
  - reflexivity.
  - intros j Hj. destruct j; [reflexivity | lia].
Defined.

Lemma getServerFromMetadata_hides_metadata_errors_witness :
  getServerFromMetadata novaMetadataFails "node-2.cluster" = Failed ErrNotFound.
Proof.
  apply (getServerFromMetadata_hides_metadata_errors novaMetadataFails "node-2.cluster").
  - intros i. reflexivity.
  - intros s _ _. simpl. discriminate.
Defined.

Lemma named_server_is_found_witness :
  getServerFromMetadata (fst (createKubernetesMetaData "7c9e6679" "node-1.cluster" nova))
                        "node-1.cluster"
  = Done (withMetadata [("KubernetesName"%string, "node-1.cluster"%string)] node1).
Proof.
  apply (named_server_is_found "7c9e6679" "node-1.cluster" nova
           (fst (createKubernetesMetaData "7c9e6679" "node-1.cluster" nova)) node1).
  - reflexivity.
  - distinct_ids.
  - reflexivity.
  - reflexivity.
  - intros i. reflexivity.
  - reflexivity.
  - intros x [<- | [<- | [<- | []]]] Hne; reflexivity.
Defined.

Lemma setAllowedAddressPair_panics_on_malformed_witness :
  setAllowedAddressPair oddServer "10.164.2.0/24" neutronPorts = (neutronPorts, Crashed)
  /\ snd (setAllowedAddressPair node1 "10.164.2.0/24" neutronPorts) <> Crashed.
Proof.
  split.
  - apply (setAllowedAddressPair_panics_on_malformed oddServer "10.164.2.0/24"
             neutronPorts). reflexivity.
  - apply (setAllowedAddressPair_panics_on_malformed node1 "10.164.2.0/24"
             neutronPorts). reflexivity.
Defined.

Lemma setAllowedAddressPair_adds_one_pair_witness :
  exists mac p,
    scanAddresses (server_Addresses node1) "" = Done mac
    /\ In p (portList neutronPorts)
    /\ (mac = ""%string \/ port_MACAddress p = mac)
    /\ ((allows "10.164.2.0/24" p = true
         /\ fst (setAllowedAddressPair node1 "10.164.2.0/24" neutronPorts) = neutronPorts)
        \/ (allows "10.164.2.0/24" p = false
            /\ fst (setAllowedAddressPair node1 "10.164.2.0/24" neutronPorts)
               = mkPorts
                   (map (withPairs (port_ID p)
                                   (AllowedAddressPairs p
                                    ++ [mkAddressPair "10.164.2.0/24" ""]))
                        (portList neutronPorts))
                   (portsPerPage neutronPorts) (portFault neutronPorts))).
Proof.
  apply (setAllowedAddressPair_adds_one_pair node1 "10.164.2.0/24" neutronPorts).
  - distinct_ids.
  - intros q [<- | [<- | []]]; discriminate.
  - reflexivity.
Defined.

Lemma setAllowedAddressPair_idempotent_witness :
  setAllowedAddressPair node1 "10.164.2.0/24"
    (fst (setAllowedAddressPair node1 "10.164.2.0/24" neutronPorts))
  = (fst (setAllowedAddressPair node1 "10.164.2.0/24" neutronPorts), Done tt).
Proof.
  apply (setAllowedAddressPair_idempotent node1 node1 "10.164.2.0/24"
           "fa:16:3e:00:00:01" neutronPorts).
  - distinct_ids.
  - apply Permutation_refl.
  - reflexivity.
  - reflexivity.
Defined.

Lemma setAllowedAddressPair_ignores_listing_error_witness :
  setAllowedAddressPair node1 "10.164.2.0/24" portsListingFails
  = (portsListingFails, Failed (ServiceError NotFoundError)).
Proof.
  destruct (setAllowedAddressPair_ignores_listing_error node1 "10.164.2.0/24"
              portsListingFails TransientStoreError eq_refl eq_refl) as [_ H].
  apply H.
  - reflexivity.
  - intros q [<- | [<- | []]]; discriminate.
Defined.

Lemma setAllowedAddressPair_takes_port_of_last_page_witness :
  portList (fst (setAllowedAddressPair node1 "10.164.2.0/24" portsOnePerPage))
  = [port1; mkPort "port-1b" "fa:16:3e:00:00:01" [mkAddressPair "10.164.2.0/24" ""];
     port2].
Proof.
  rewrite (setAllowedAddressPair_takes_port_of_last_page node1 "10.164.2.0/24"
             "fa:16:3e:00:00:01" portsOnePerPage [[port1]] port1b []).
  - reflexivity.
  - reflexivity.
  - reflexivity.
  - reflexivity.
Defined.

Lemma DeleteRoute_removes_first_match_witness :
  exists front r back,
    OpenStack.Routes (OpenStack.router OpenStack.twoRoutes) = front ++ r :: back
    /\ OpenStack.DestinationCIDR r = OpenStack.cr_DestinationCIDR OpenStack.testRoute
    /\ Forall (fun x => OpenStack.DestinationCIDR x
                        <> OpenStack.cr_DestinationCIDR OpenStack.testRoute) front
    /\ OpenStack.DeleteRoute "test" OpenStack.testRoute OpenStack.twoRoutes
       = (OpenStack.mkNetwork
            (OpenStack.mkRouter (OpenStack.ID (OpenStack.router OpenStack.twoRoutes))
                                (front ++ back))
            None None,
          Ok tt).
Proof.
  apply (DeleteRoute_removes_first_match "test" OpenStack.testRoute OpenStack.twoRoutes).
  - reflexivity.
  - reflexivity.
  - exists (OpenStack.mkRoute "10.164.2.0/24" "192.168.0.6"). split.
    + simpl. auto.
    + reflexivity.
Defined.

Lemma DeleteRoute_failure_leaves_router_witness :
  fst (OpenStack.DeleteRoute "test" OpenStack.testRoute OpenStack.oneRoute)
  = OpenStack.oneRoute.
Proof.
  apply (DeleteRoute_failure_leaves_router "test" OpenStack.testRoute OpenStack.oneRoute).
  vm_compute. discriminate.
Defined.

Lemma ListRoutes_lists_router_routes_witness :
  map DestinationCIDR
      [mkRoute "10.0.2.0/24" (mkInstance "node-2.cluster" "") "10.0.2.0/24"]
  = map OpenStack.DestinationCIDR (OpenStack.Routes (OpenStack.router (network cloud))).
Proof.
  apply (ListRoutes_lists_router_routes serverAt "" cloud
           [mkRoute "10.0.2.0/24" (mkInstance "node-2.cluster" "") "10.0.2.0/24"]).
  reflexivity.
Defined.

Lemma ListRoutes_failures_witness :
  exists routes, ListRoutes serverAt "" cloud = Done routes.
Proof.
  apply (ListRoutes_failures serverAt "" cloud).
  - reflexivity.
  - repeat constructor. exists node2. reflexivity.
Defined.

Lemma listed_route_can_be_deleted_witness :
  0 <= OpenStack.searchRoute (OpenStack.Routes (OpenStack.router (network cloud)))
                             "10.0.2.0/24" 0 (-1).
Proof.
  apply (listed_route_can_be_deleted serverAt "" cloud
           [mkRoute "10.0.2.0/24" (mkInstance "node-2.cluster" "") "10.0.2.0/24"]
           (mkRoute "10.0.2.0/24" (mkInstance "node-2.cluster" "") "10.0.2.0/24")).
  - reflexivity.
  - left. reflexivity.
  - reflexivity.
Defined.

Lemma CreateRoute_appends_route_witness :
  exists id server a rest,
    getInstanceIDFromProviderID (inst_ID (TargetInstance newroute)) = Ok id
    /\ serversGet (compute cloud) id = Done server
    /\ fst (nodeAddresses server) = a :: rest
    /\ OpenStack.Routes
         (OpenStack.router (network (fst (CreateRoute nodeAddresses "test" "" newroute cloud))))
       = OpenStack.Routes (OpenStack.router (network cloud))
         ++ [OpenStack.mkRoute (DestinationCIDR newroute) (na_Address a)]
    /\ OpenStack.ID
         (OpenStack.router (network (fst (CreateRoute nodeAddresses "test" "" newroute cloud))))
       = OpenStack.ID (OpenStack.router (network cloud))
    /\ (computeFault (compute cloud) (ServersMetadata (server_ID server)) = None ->
        getKubernetesMetaData
          (compute (fst (CreateRoute nodeAddresses "test" "" newroute cloud)))
          (server_ID server)
        = Done (inst_Name (TargetInstance newroute))).
Proof.
  apply (CreateRoute_appends_route nodeAddresses "test" "" newroute cloud). reflexivity.
Defined.

Lemma CreateRoute_then_DeleteRoute_witness :
  snd (OpenStack.DeleteRoute "test" (asCloudRoute newroute)
         (network (fst (CreateRoute nodeAddresses "test" "" newroute cloud)))) = Ok tt
  /\ OpenStack.router
       (fst (OpenStack.DeleteRoute "test" (asCloudRoute newroute)
               (network (fst (CreateRoute nodeAddresses "test" "" newroute cloud)))))
     = OpenStack.router (network cloud)
  /\ ports (fst (CreateRoute nodeAddresses "test" "" newroute cloud)) <> ports cloud.
Proof.
  destruct (CreateRoute_then_DeleteRoute nodeAddresses "test" "" newroute cloud
              (fst (CreateRoute nodeAddresses "test" "" newroute cloud)) None None
              eq_refl)
    as (_ & _ & H).
  destruct (H eq_refl eq_refl) as [H1 H2].
  split; [exact H1|]. split.
  - apply H2. repeat constructor. simpl. discriminate.
  - vm_compute. discriminate.
Defined.

Lemma CreateRoute_panics_without_address_witness :
  CreateRoute noAddresses "test" "" newroute cloud
  = (mkCloud (fst (createKubernetesMetaData "7c9e6679" "node-1.cluster" nova))
             (network cloud) (ports cloud),
     Crashed).
Proof.
  apply (CreateRoute_panics_without_address noAddresses "test" "" newroute cloud
           "7c9e6679" node1).
  - simpl. discriminate.
  - reflexivity.
  - reflexivity.
  - reflexivity.
  - reflexivity.
  - reflexivity.
Defined.

Lemma CreateRoute_failure_leaves_router_witness :
  network (fst (CreateRoute noAddresses "test" "" newroute cloud)) = network cloud
  /\ CreateRoute nodeAddresses "test" ""
                 (mkRoute "" (mkInstance "node-1.cluster" "") "10.164.2.0/24") cloud
     = (cloud, Failed ErrRouteWithoutID).
Proof.
  destruct (CreateRoute_failure_leaves_router noAddresses "test" "" newroute cloud)
    as [H1 _].
  destruct (CreateRoute_failure_leaves_router nodeAddresses "test" ""
              (mkRoute "" (mkInstance "node-1.cluster" "") "10.164.2.0/24") cloud)
    as [_ H2].
  split.
  - apply H1. vm_compute. discriminate.
  - apply H2. reflexivity.
Defined.

Lemma configFromEnv_tenant_and_ok_witness :
  snd (OpenStackTest.configFromEnv OpenStackTest.passwordEnv) = true
  /\ (OpenStackTest.TenantId
        (OpenStackTest.cfg_Global
           (fst (OpenStackTest.configFromEnv OpenStackTest.passwordEnv))) = ""%string
      \/ OpenStackTest.TenantName
           (OpenStackTest.cfg_Global
              (fst (OpenStackTest.configFromEnv OpenStackTest.passwordEnv))) = ""%string).
Proof.
  destruct (configFromEnv_tenant_and_ok OpenStackTest.passwordEnv) as (H1 & _ & H3).
  split; [|exact H1].
  apply H3. split; [|split; [|split]].
  - vm_compute. discriminate.
  - vm_compute. discriminate.
  - left. vm_compute. discriminate.
  - left. vm_compute. discriminate.
Defined.

Lemma clockFrom_range (start i : nat) : 0 <= OpenStackTest.clockFrom start i <= 59.
Proof.
  unfold OpenStackTest.clockFrom.
  pose proof (Nat.mod_upper_bound (start + i) 60). lia.
Qed.

Lemma WaitForVolumeStatus_timeout_never_fires_witness :
  OpenStackTest.WaitForVolumeStatus 1000 (OpenStackTest.clockFrom 45)
    OpenStackTest.creating "available" OpenStackTest.volumeCreateTimeoutSeconds
  = None.
Proof.
  destruct (WaitForVolumeStatus_timeout_never_fires (OpenStackTest.clockFrom 45)
              OpenStackTest.creating "available"
              OpenStackTest.volumeCreateTimeoutSeconds) as [_ H].
  - apply clockFrom_range.
  - right. vm_compute. reflexivity.
  - apply H. intros i. exists "creating"%string. split; [reflexivity | discriminate].
Defined.

(** Started at second 10 of a minute, the same call takes the timeout
    branch at second 40. *)
Lemma WaitForVolumeStatus_times_out_from_second_10 :
  OpenStackTest.WaitForVolumeStatus 1000 (OpenStackTest.clockFrom 10)
    OpenStackTest.creating "available" OpenStackTest.volumeCreateTimeoutSeconds
  = Some OpenStackTest.TimedOut.
Proof. vm_compute. reflexivity. Qed.
